(** * RTM generator: a shallow embedding of the traceability-matrix engine

    The development follows [azure-devops-rtm.js] (class
    [AzureDevOpsRTMGenerator] and the helper [parallel]) and the
    [/rtm-download] route of [server.js].

    Modelling conventions.
    - JavaScript strings are [string]s of 8-bit characters; [toLowerCase]
      and [trim] act on the ASCII range and leave other characters alone.
      On text of ASCII characters they are the functions of the code; a
      property that depends on the letter case, the white space or the
      length of a text is stated for such text.
    - [parseInt] gives the integer that the digits spell.  The code holds
      the double nearest to it, which is that integer when it is a safe
      integer (below [2^53] in absolute value); a property that depends on
      the value read is stated for safe integers.
    - An untyped JSON value that the code inspects (a priority, an
      acceptance-criterion reference) is a [JsValue]; numbers that occur
      there are integers and are carried as [Z].
    - A [throw] is the left injection of the error monad [Exc]; [try]/[catch]
      is [try_catch].
    - Doubles are IEEE-754 binary64 values, computed with the Standard
      Library's [SpecFloat] operations (round to nearest, ties to even). *)

From Stdlib Require Import ZArith String Ascii Bool Lia Arith List Permutation Sorted.
From Stdlib Require Import Numbers.DecimalString.
From Stdlib Require Numbers.DecimalPos.
From Stdlib Require Import Floats.SpecFloat.
Import ListNotations.

Local Open Scope string_scope.
Local Open Scope list_scope.

(* ================================================================== *)
(** ** JavaScript strings *)

(** One character of [String.prototype.toLowerCase], ASCII range. *)
Definition lower_ascii (c : ascii) : ascii :=
  let n := nat_of_ascii c in
  if (65 <=? n)%nat && (n <=? 90)%nat then ascii_of_nat (n + 32) else c.

Fixpoint toLowerCase (s : string) : string :=
  match s with
  | EmptyString => EmptyString
  | String c s' => String (lower_ascii c) (toLowerCase s')
  end.

(** [s.includes(kw)]: [kw] occurs in [s] as a contiguous substring. *)
Fixpoint includes (s kw : string) : bool :=
  String.prefix kw s
  || match s with
     | EmptyString => false
     | String _ s' => includes s' kw
     end.

(** [s.split(sep)] for a one-character separator: never the empty array. *)
Fixpoint split (sep : ascii) (s : string) : list string :=
  match s with
  | EmptyString => [EmptyString]
  | String c s' =>
      if Ascii.eqb c sep then EmptyString :: split sep s'
      else match split sep s' with
           | [] => [String c EmptyString]
           | seg :: segs => String c seg :: segs
           end
  end.

(** [arr.pop()] read as a value: the last element ([undefined], here the
    empty string, on the empty array, which [split] never returns). *)
Definition pop (segments : list string) : string := last segments "".

Definition is_space (c : ascii) : bool :=
  let n := nat_of_ascii c in
  ((9 <=? n)%nat && (n <=? 13)%nat) || (n =? 32)%nat.

Fixpoint trimStart (s : string) : string :=
  match s with
  | String c s' => if is_space c then trimStart s' else s
  | EmptyString => EmptyString
  end.

(** [trimEnd] drops the trailing white space: a character is kept when it
    is not a space or when something is kept after it. *)
Fixpoint trimEnd (s : string) : string :=
  match s with
  | EmptyString => EmptyString
  | String c s' =>
      match trimEnd s' with
      | EmptyString => if is_space c then EmptyString else String c EmptyString
      | rest => String c rest
      end
  end.

Definition trim (s : string) : string := trimEnd (trimStart s).

(** *** [parseInt] with no radix argument *)

Definition digit_value (radix : Z) (c : ascii) : option Z :=
  let n := Z.of_nat (nat_of_ascii c) in
  let v := if (48 <=? n)%Z && (n <=? 57)%Z then Some (n - 48)%Z
           else if (97 <=? n)%Z && (n <=? 122)%Z then Some (n - 87)%Z
           else if (65 <=? n)%Z && (n <=? 90)%Z then Some (n - 55)%Z
           else None in
  match v with
  | Some d => if (d <? radix)%Z then Some d else None
  | None => None
  end.

(** Reads the longest prefix of digits; [None] when there is none. *)
Fixpoint parse_digits (radix : Z) (s : string) (acc : option Z) : option Z :=
  match s with
  | EmptyString => acc
  | String c s' =>
      match digit_value radix c with
      | Some d =>
          parse_digits radix s'
            (Some (match acc with Some a => a * radix + d | None => d end)%Z)
      | None => acc
      end
  end.

Definition strip_hex_prefix (s : string) : option string :=
  match s with
  | String "0" (String "x" s') => Some s'
  | String "0" (String "X" s') => Some s'
  | _ => None
  end.

(** [parseInt(s)]: [None] stands for [NaN]. *)
Definition parseInt (s : string) : option Z :=
  let s1 := trimStart s in
  let '(negative, s2) :=
    match s1 with
    | String "-" r => (true, r)
    | String "+" r => (false, r)
    | _ => (false, s1)
    end in
  let magnitude :=
    match strip_hex_prefix s2 with
    | Some hex => parse_digits 16 hex None
    | None => parse_digits 10 s2 None
    end in
  match magnitude with
  | Some m => Some (if negative then (- m)%Z else m)
  | None => None
  end.

(* ================================================================== *)
(** ** Untyped values *)

Inductive JsValue : Type :=
| JUndefined
| JNull
| JBool (b : bool)
| JNum (n : Z)
| JStr (s : string).

Definition truthy (v : JsValue) : bool :=
  match v with
  | JUndefined | JNull => false
  | JBool b => b
  | JNum n => negb (n =? 0)%Z
  | JStr s => negb (s =? "")
  end.

(** [a || b] on values. *)
Definition js_or (a b : JsValue) : JsValue := if truthy a then a else b.

(** [o || d] where [o] is a string-valued field that may be absent. *)
Definition str_or (o : option string) (d : string) : string :=
  match o with
  | Some s => if s =? "" then d else s
  | None => d
  end.

(** [a || b] on two strings. *)
Definition or_str (a b : string) : string := if a =? "" then b else a.

(** The comparison of [Map] keys (SameValueZero); on this fragment of
    values (no [NaN], no objects) it coincides with [===]. *)
Definition sameValueZero (a b : JsValue) : bool :=
  match a, b with
  | JUndefined, JUndefined => true
  | JNull, JNull => true
  | JBool x, JBool y => Bool.eqb x y
  | JNum x, JNum y => (x =? y)%Z
  | JStr x, JStr y => (x =? y)
  | _, _ => false
  end.

Definition string_of_Z (n : Z) : string := NilZero.string_of_int (Z.to_int n).

(** [v.toString()] for a value that is neither [null] nor [undefined];
    on those two the method call throws, and [String(v)] is given instead
    (no caller below reaches it).  Integers print in decimal, as JavaScript
    prints them below [10^21]. *)
Definition toString (v : JsValue) : string :=
  match v with
  | JUndefined => "undefined"
  | JNull => "null"
  | JBool true => "true"
  | JBool false => "false"
  | JNum n => string_of_Z n
  | JStr s => s
  end.

(** [arr.includes(x)] on an array of strings. *)
Definition str_in (x : string) (arr : list string) : bool :=
  existsb (String.eqb x) arr.

(* ================================================================== *)
(** ** Classifier *)

Definition determineScenarioType (title description tags : string) : string :=
  let content := toLowerCase (title ++ " " ++ description ++ " " ++ tags) in
  if existsb (includes content) ["api"; "service"; "endpoint"] then "API"
  else if existsb (includes content) ["ui"; "interface"; "screen"; "page"] then "UI"
  else if existsb (includes content) ["integration"; "end-to-end"; "e2e"] then "Integration"
  else if existsb (includes content) ["performance"; "load"; "stress"] then "Performance"
  else if existsb (includes content) ["security"; "authentication"; "authorization"] then "Security"
  else "Functional".

Definition mapPriority (azurePriority : JsValue) : string :=
  match azurePriority with
  | JNull | JUndefined => "Medium"
  | _ =>
      let priorityStr := toLowerCase (toString azurePriority) in
      if str_in priorityStr ["1"; "critical"; "high"] then "High"
      else if str_in priorityStr ["2"; "medium"; "normal"] then "Medium"
      else if str_in priorityStr ["3"; "4"; "low"] then "Low"
      else "Medium"
  end.

(* ================================================================== *)
(** ** Thrown errors *)

(** A computation either throws (left, the error message) or returns. *)
Definition Exc (A : Type) : Type := (string + A)%type.

Definition ret {A : Type} (a : A) : Exc A := inr a.

Definition throw {A : Type} (message : string) : Exc A := inl message.

Definition bind {A B : Type} (m : Exc A) (k : A -> Exc B) : Exc B :=
  match m with
  | inl e => inl e
  | inr a => k a
  end.

(** [try { body } catch (error) { handler }] *)
Definition try_catch {A : Type} (body : Exc A) (handler : string -> Exc A) : Exc A :=
  match body with
  | inl e => handler e
  | inr a => inr a
  end.

Declare Scope exc_scope.
Delimit Scope exc_scope with exc.
Notation "x <- m ;; k" := (bind m (fun x => k))
  (at level 61, m at next level, right associativity) : exc_scope.
Local Open Scope exc_scope.

(* ================================================================== *)
(** ** Data model *)

(** The [fields] object of a work item, restricted to the keys the
    generator reads.  The acceptance-criteria field is HTML; it is carried
    as cheerio reads it, the texts of its [<li>] elements in document
    order (none when the field is absent or empty). *)
Record Fields : Type := {
  System_WorkItemType : option string;
  System_Title : option string;
  System_Description : option string;
  System_State : option string;
  System_AreaPath : option string;
  System_Tags : option string;
  Common_Priority : JsValue;
  Common_AcceptanceCriteria : list string;
  TCM_Steps : option string;
  Custom_AcceptanceCriteriaNumber : JsValue;
  Custom_ScenarioType : option string
}.

(** [{}] *)
Definition no_fields : Fields :=
  {| System_WorkItemType := None; System_Title := None;
     System_Description := None; System_State := None;
     System_AreaPath := None; System_Tags := None;
     Common_Priority := JUndefined; Common_AcceptanceCriteria := [];
     TCM_Steps := None; Custom_AcceptanceCriteriaNumber := JUndefined;
     Custom_ScenarioType := None |}.

Record Relation : Type := { rel : option string; url : option string }.

(** The body of a work-item response: the integer [id] of the item, its
    [fields] and, when asked for, its [relations]. *)
Record WorkItemData : Type := {
  wi_id : Z;
  wi_fields : option Fields;
  wi_relations : option (list Relation)
}.

Module UserStory.
Record t : Type := {
  id : Z;
  title : string;
  description : string;
  state : string;
  priority : JsValue;
  feature : string;
  tags : string;
  (** Integer-keyed object: entries in ascending key order. *)
  acceptanceCriteria : list (nat * string)
}.
End UserStory.

Module TestCase.
Record t : Type := {
  id : Z;
  title : string;
  description : string;
  state : string;
  priority : JsValue;
  executionStatus : string;
  steps : string;
  acceptanceCriteria : JsValue;
  scenarioType : string
}.
End TestCase.

(** One line of the matrix; the field names are the keys of the row
    object with the blanks removed. *)
Module Row.
Record t : Type := {
  UserStoryID : Z;
  Feature : string;
  ScenarioType : string;
  Description : string;
  TestCaseID : JsValue;
  Status : string;
  Priority : string;
  Execution : string
}.
End Row.

(* ================================================================== *)
(** ** Data source gateway *)

(** The two work-item URLs the generator requests: the item alone, or the
    item with [$expand=Relations].  The id in the URL is a number or, after
    a failed [parseInt], [NaN] ([None]). *)
Record Request : Type := { workItemId : option Z; expandRelations : bool }.

(** What [axiosInstance.get] does: it throws (transport failure, rejected
    credentials, any non-2xx status) or returns the response body, which is
    a work item or not an object at all ([None]). *)
Inductive AxiosResult : Type :=
| AxiosError (message : string)
| AxiosResponse (data : option WorkItemData).

(** The backend is read only, and a run of the generator is short: it
    answers a request the same way each time within one run. *)
Definition Backend : Type := Request -> AxiosResult.

Definition axios_get (backend : Backend) (req : Request) : Exc (option WorkItemData) :=
  match backend req with
  | AxiosError message => throw message
  | AxiosResponse data => ret data
  end.

(** [makeApiRequest(url)] with the default method [GET], the only one the
    work-item fetches use. *)
Definition makeApiRequest (backend : Backend) (req : Request) : Exc (option WorkItemData) :=
  try_catch
    (response <- axios_get backend req ;;
     ret response)
    (fun _ => ret None).

(** *** Acceptance criteria *)

(** [criteria[key] = text] on an object with integer keys, whose entries
    enumerate in ascending key order. *)
Fixpoint obj_set (criteria : list (nat * string)) (key : nat) (text : string)
  : list (nat * string) :=
  match criteria with
  | [] => [(key, text)]
  | (k, v) :: rest =>
      if (key <? k)%nat then (key, text) :: criteria
      else if (key =? k)%nat then (key, text) :: rest
      else (k, v) :: obj_set rest key text
  end.

(** The callback of [$('li').each], run from position [index]. *)
Fixpoint each_li (index : nat) (elements : list string) (criteria : list (nat * string))
  : list (nat * string) :=
  match elements with
  | [] => criteria
  | element :: rest =>
      let text := trim element in
      each_li (S index) rest
        (if text =? "" then criteria else obj_set criteria (index + 1) text)
  end.

Definition parseAcceptanceCriterias (li_elements : list string) : list (nat * string) :=
  each_li 0 li_elements [].

(** [Object.entries(o)] *)
Definition Object_entries (o : list (nat * string)) : list (nat * string) := o.

(** *** Fetching *)

Definition field_is (o : option string) (expected : string) : bool :=
  match o with
  | Some s => s =? expected
  | None => false
  end.

Definition fetchUserStory (backend : Backend) (userStoryId : Z) : Exc (option UserStory.t) :=
  try_catch
    (workItemData <- makeApiRequest backend
                       {| workItemId := Some userStoryId; expandRelations := false |} ;;
     match workItemData with
     | None => ret None
     | Some wi =>
         let fields := match wi_fields wi with Some f => f | None => no_fields end in
         if negb (field_is (System_WorkItemType fields) "User Story") then ret None
         else
           let areaPath := str_or (System_AreaPath fields) "" in
           let feature := if areaPath =? "" then "" else pop (split "\" areaPath) in
           ret (Some
             {| UserStory.id := wi_id wi;
                UserStory.title := str_or (System_Title fields) "";
                UserStory.description := str_or (System_Description fields) "";
                UserStory.state := str_or (System_State fields) "";
                UserStory.priority := js_or (Common_Priority fields) (JStr "Medium");
                UserStory.feature := str_or (System_Title fields) feature;
                UserStory.tags := str_or (System_Tags fields) "";
                UserStory.acceptanceCriteria :=
                  parseAcceptanceCriterias (Common_AcceptanceCriteria fields) |})
     end)
    (fun _ => ret None).

Definition fetchTestCase (backend : Backend) (testCaseId : option Z) : Exc (option TestCase.t) :=
  try_catch
    (workItemData <- makeApiRequest backend
                       {| workItemId := testCaseId; expandRelations := false |} ;;
     match workItemData with
     | None => ret None
     | Some wi =>
         let fields := match wi_fields wi with Some f => f | None => no_fields end in
         if negb (field_is (System_WorkItemType fields) "Test Case") then ret None
         else
           ret (Some
             {| TestCase.id := wi_id wi;
                TestCase.title := str_or (System_Title fields) "";
                TestCase.description := str_or (System_Description fields) "";
                TestCase.state := str_or (System_State fields) "";
                TestCase.priority := js_or (Common_Priority fields) (JStr "Medium");
                TestCase.executionStatus :=
                  if field_is (System_State fields) "Done"
                     || field_is (System_State fields) "Completed"
                  then "Pass" else "Fail";
                TestCase.steps := str_or (TCM_Steps fields) "";
                TestCase.acceptanceCriteria :=
                  js_or (Custom_AcceptanceCriteriaNumber fields) (JStr "");
                TestCase.scenarioType := str_or (Custom_ScenarioType fields) "" |})
     end)
    (fun _ => ret None).

(** The [for (const relation of workItemData.relations)] loop. *)
Fixpoint for_relations (backend : Backend) (relations : list Relation)
    (testCases : list TestCase.t) : Exc (list TestCase.t) :=
  match relations with
  | [] => ret testCases
  | relation :: rest =>
      let rel_ := str_or (rel relation) "" in
      if negb ((rel_ =? "Microsoft.VSTS.Common.TestedBy")
               || includes (toLowerCase rel_) "test")
      then for_relations backend rest testCases
      else
        let relationUrl := str_or (url relation) "" in
        if relationUrl =? "" then for_relations backend rest testCases
        else
          let testCaseId := parseInt (pop (split "/" relationUrl)) in
          testCase <- fetchTestCase backend testCaseId ;;
          match testCase with
          | None => for_relations backend rest testCases
          | Some tc => for_relations backend rest (testCases ++ [tc])
          end
  end.

Definition fetchRelatedTestCases (backend : Backend) (userStoryId : Z) : Exc (list TestCase.t) :=
  try_catch
    (let testCases := [] in
     workItemData <- makeApiRequest backend
                       {| workItemId := Some userStoryId; expandRelations := true |} ;;
     match workItemData with
     | None => ret testCases
     | Some wi =>
         match wi_relations wi with
         | None | Some [] => ret testCases
         | Some relations => for_relations backend relations testCases
         end
     end)
    (fun _ => ret []).

(* ================================================================== *)
(** ** Bounded concurrency runner *)

(** [parallel(list, fn, limit)].  The worker function is asynchronous: a
    call is started when a pool worker pulls the item, and settles later,
    in an order the event loop decides.  The effect of a call on the state
    it shares with the others is applied when it settles. *)
Section Parallel.
Context {T St : Type}.
(** JavaScript truthiness of an item. *)
Variable is_truthy : T -> bool.
Variable fn : T -> nat -> St -> Exc St.
Variable items : list T.

Inductive Worker : Type :=
| Awaiting (item : T) (index : nat)
| Finished
| Rejected (error : string).

Record Pool : Type := {
  cursor : nat;                 (** position of the shared iterator *)
  workers : list Worker;
  calls : list (T * nat);       (** calls of [fn] started so far *)
  completed : list (T * nat);   (** calls of [fn] fulfilled so far *)
  shared : St;
  rejection : option string     (** first rejection seen by [Promise.all] *)
}.

(** The [while] loop of one worker, from the iterator position [index]
    with [rest] still to come: it advances until it starts a call on a
    truthy item or the iterator is done.  Returns the call, if any, and
    the new iterator position. *)
Fixpoint next_call (rest : list T) (index : nat) : option (T * nat) * nat :=
  match rest with
  | [] => (None, index)
  | item :: rest' =>
      if is_truthy item then (Some (item, index), S index)
      else next_call rest' (S index)
  end.

(** A worker runs its loop up to its next [await] or to its end. *)
Definition loop (p : Pool) : Worker * Pool :=
  match next_call (skipn (cursor p) items) (cursor p) with
  | (Some (item, index), position) =>
      (Awaiting item index,
       {| cursor := position; workers := workers p;
          calls := calls p ++ [(item, index)]; completed := completed p;
          shared := shared p; rejection := rejection p |})
  | (None, position) =>
      (Finished,
       {| cursor := position; workers := workers p;
          calls := calls p; completed := completed p;
          shared := shared p; rejection := rejection p |})
  end.

Definition with_workers (ws : list Worker) (p : Pool) : Pool :=
  {| cursor := cursor p; workers := ws; calls := calls p;
     completed := completed p; shared := shared p; rejection := rejection p |}.

Fixpoint set_nth (w : nat) (state : Worker) (ws : list Worker) : list Worker :=
  match ws, w with
  | [], _ => []
  | _ :: rest, O => state :: rest
  | x :: rest, S w' => x :: set_nth w' state rest
  end.

(** [[...Array(limit)].map(async ...)]: the workers start one after the
    other, each running synchronously up to its first [await]. *)
Fixpoint spawn (limit : nat) (p : Pool) : Pool :=
  match limit with
  | O => p
  | S limit' =>
      let '(state, p') := loop p in
      spawn limit' (with_workers (workers p' ++ [state]) p')
  end.

(** The call awaited by worker [w] settles. *)
Definition settle (w : nat) (p : Pool) : Pool :=
  match nth_error (workers p) w with
  | Some (Awaiting item index) =>
      match fn item index (shared p) with
      | inr s' =>
          let '(state, p') :=
            loop {| cursor := cursor p; workers := workers p; calls := calls p;
                    completed := completed p ++ [(item, index)];
                    shared := s'; rejection := rejection p |} in
          with_workers (set_nth w state (workers p')) p'
      | inl e =>
          {| cursor := cursor p; workers := set_nth w (Rejected e) (workers p);
             calls := calls p; completed := completed p; shared := shared p;
             rejection := match rejection p with
                          | None => Some e
                          | seen => seen
                          end |}
      end
  | _ => p
  end.

Definition is_awaiting (state : Worker) : bool :=
  match state with
  | Awaiting _ _ => true
  | _ => false
  end.

(** Positions, from [w] on, of the workers that wait for a call. *)
Fixpoint awaiting_from (w : nat) (ws : list Worker) : list nat :=
  match ws with
  | [] => []
  | state :: rest =>
      if is_awaiting state then w :: awaiting_from (S w) rest
      else awaiting_from (S w) rest
  end.

(** The event loop: while some call is pending, one of them settles.
    Entry [k] of the schedule picks the pending worker number
    [k mod (number pending)]; past the end of the schedule the first
    pending one is taken. *)
Fixpoint run (fuel : nat) (sched : list nat) (p : Pool) : Pool :=
  match fuel with
  | O => p
  | S fuel' =>
      match awaiting_from 0 (workers p) with
      | [] => p
      | pending =>
          let w := nth (hd 0 sched mod length pending) pending 0 in
          run fuel' (tl sched) (settle w p)
      end
  end.

(** Every call settles within [length items] steps. *)
Definition parallel_pool (limit : nat) (sched : list nat) (s0 : St) : Pool :=
  run (length items) sched
    (spawn limit
       {| cursor := 0; workers := []; calls := []; completed := [];
          shared := s0; rejection := None |}).

(** [await Promise.all(promises)]: throws the first rejection, otherwise
    resolves; the caller then sees the shared state. *)
Definition parallel (limit : nat) (sched : list nat) (s0 : St) : Exc St :=
  let p := parallel_pool limit sched s0 in
  match rejection p with
  | Some e => throw e
  | None => ret (shared p)
  end.

(** The promise returned by [parallel] is fulfilled. *)
Definition resolved (p : Pool) : Prop :=
  rejection p = None /\ Forall (fun state => state = Finished) (workers p).
End Parallel.

Arguments Awaiting {T} item index.
Arguments Finished {T}.
Arguments Rejected {T} error.

(* ================================================================== *)
(** ** Reconciliation and the matrix *)

(** A [Map] in insertion order, keys compared with SameValueZero. *)
Definition JsMap (V : Type) : Type := list (JsValue * V).

Fixpoint Map_get {V : Type} (m : JsMap V) (key : JsValue) : option V :=
  match m with
  | [] => None
  | (k, v) :: rest => if sameValueZero k key then Some v else Map_get rest key
  end.

Fixpoint Map_set {V : Type} (m : JsMap V) (key : JsValue) (value : V) : JsMap V :=
  match m with
  | [] => [(key, value)]
  | (k, v) :: rest =>
      if sameValueZero k key then (k, value) :: rest
      else (k, v) :: Map_set rest key value
  end.

(** [x || []] where [x] is an array or [undefined]. *)
Definition or_empty {A : Type} (x : option (list A)) : list A :=
  match x with
  | Some l => l
  | None => []
  end.

(** The [reduce] that groups the test cases by their criterion reference. *)
Definition group_test_cases (allTestCases : list TestCase.t) : JsMap (list TestCase.t) :=
  fold_left
    (fun acc testCase =>
       let acNo := TestCase.acceptanceCriteria testCase in
       Map_set acc acNo (or_empty (Map_get acc acNo) ++ [testCase]))
    allTestCases [].

(** The callback of [Object.entries(...).forEach], on the accumulator
    [rtmData]. *)
Definition for_criterion (userStoryId : Z) (userStory : UserStory.t)
    (testCasesMap : JsMap (list TestCase.t))
    (rtmData : list Row.t) (entry : nat * string) : list Row.t :=
  let '(acNo, criteria) := entry in
  let testCases := or_empty (Map_get testCasesMap (JNum (Z.of_nat acNo))) in
  if (length testCases =? 0)%nat then
    rtmData ++
      [ {| Row.UserStoryID := userStoryId;
           Row.Feature := UserStory.title userStory;
           Row.ScenarioType := "Functional";
           Row.Description := criteria;
           Row.TestCaseID := JStr "";
           Row.Status := "Missing";
           Row.Priority := "Medium";
           Row.Execution := "" |} ]
  else
    fold_left
      (fun rtm testCase =>
         rtm ++
           [ {| Row.UserStoryID := userStoryId;
                Row.Feature := UserStory.title userStory;
                Row.ScenarioType := or_str (TestCase.scenarioType testCase) "Functional";
                Row.Description :=
                  or_str (TestCase.description testCase) (TestCase.title testCase);
                Row.TestCaseID := JNum (TestCase.id testCase);
                Row.Status := "Covered";
                Row.Priority := mapPriority (TestCase.priority testCase);
                Row.Execution := TestCase.executionStatus testCase |} ])
      testCases rtmData.

(** The worker that [generateRTM] hands to [parallel]; [rtmData] is the
    array it pushes to. *)
Definition process_user_story (backend : Backend) (userStoryId : Z) (_ : nat)
    (rtmData : list Row.t) : Exc (list Row.t) :=
  userStory <- fetchUserStory backend userStoryId ;;
  match userStory with
  | None => ret rtmData
  | Some userStory =>
      allTestCases <- fetchRelatedTestCases backend userStoryId ;;
      if (length allTestCases =? 0)%nat then
        ret (rtmData ++
               [ {| Row.UserStoryID := userStoryId;
                    Row.Feature := UserStory.feature userStory;
                    Row.ScenarioType :=
                      determineScenarioType (UserStory.title userStory)
                        (UserStory.description userStory) (UserStory.tags userStory);
                    Row.Description := UserStory.title userStory;
                    Row.TestCaseID := JStr "";
                    Row.Status := "Missing";
                    Row.Priority := mapPriority (UserStory.priority userStory);
                    Row.Execution := "" |} ])
      else
        let testCasesMap := group_test_cases allTestCases in
        ret (fold_left (for_criterion userStoryId userStory testCasesMap)
               (Object_entries (UserStory.acceptanceCriteria userStory)) rtmData)
  end.

(** Truthiness of a number. *)
Definition nonzero (n : Z) : bool := negb (n =? 0)%Z.

(** [generateRTM(userStoryIds)]; [sched] is the order in which the event
    loop settles the pending fetch pipelines. *)
Definition generateRTM (backend : Backend) (userStoryIds : list Z) (sched : list nat)
  : Exc (list Row.t) :=
  let rtmData := [] in
  rtmData <- parallel nonzero (process_user_story backend) userStoryIds 5 sched rtmData ;;
  ret rtmData.

(* ================================================================== *)
(** ** Numbers of the KPI computations *)

(** IEEE-754 binary64. *)
Definition f64 : Type := spec_float.
Definition f64_prec : Z := 53.
Definition f64_emax : Z := 1024.

(** An integer read as a double (exact below [2^53]). *)
Definition f64_of_Z (n : Z) : f64 := binary_normalize f64_prec f64_emax n 0 false.
Definition f64_of_nat (n : nat) : f64 := f64_of_Z (Z.of_nat n).

(** [x / y] and [x * y] on doubles. *)
Definition f64_div (x y : f64) : f64 := SFdiv f64_prec f64_emax x y.
Definition f64_mul (x y : f64) : f64 := SFmul f64_prec f64_emax x y.

(** [Math.round(x)]: the integer nearest to [x], the larger one when two
    are equally near, computed on the exact value [m * 2^e] of [x]. *)
Definition Math_round (x : f64) : f64 :=
  match x with
  | S754_finite s m e =>
      let v := if s then Z.neg m else Z.pos m in
      let nearest :=
        if (0 <=? e)%Z then (v * 2 ^ e)%Z
        else ((2 * v + 2 ^ (- e)) / 2 ^ (- e + 1))%Z in
      binary_normalize f64_prec f64_emax nearest 0 s
  | _ => x
  end.

(** [new Set(arr)]: the distinct elements, in order of first occurrence. *)
Definition Set_of {A : Type} (eqb : A -> A -> bool) (arr : list A) : list A :=
  fold_left (fun seen x => if existsb (eqb x) seen then seen else seen ++ [x]) arr [].

(** [arr.filter(pred).length] *)
Definition count (pred : Row.t -> bool) (arr : list Row.t) : nat :=
  length (filter pred arr).

(** [feature => feature] as a filter predicate: the string is not empty. *)
Definition nonempty (s : string) : bool := negb (s =? "").

(* ================================================================== *)
(** ** KPI statistics of the [/rtm-download] route ([server.js]) *)

Module ModuleKpi.
Record t : Type := {
  feature : string;
  totalUseCases : nat;
  positiveCovered : nat;
  negativeCovered : nat;
  edgeCasesCovered : nat;
  integrationCovered : nat;
  totalCovered : nat;
  coveragePercentage : f64;
  pass : nat;
  fail : nat
}.
End ModuleKpi.

(** The [overallCoverage] and [moduleWiseCoverage] members of the JSON
    answer, nested objects flattened; the ranked [summary] lists are
    derived from [moduleWiseCoverage] alone and are left out. *)
Module Kpi.
Record t : Type := {
  totalUserStories : nat;
  totalModules : nat;
  totalUseCases : nat;
  positive : nat;
  negative : nat;
  edgeCases : nat;
  integration : nat;
  totalCovered : nat;
  coveragePercentage : f64;
  uncoveredUserStories : Z;
  executionTotal : nat;
  pass : nat;
  fail : nat;
  passPercentage : f64;
  failPercentage : f64;
  moduleWiseCoverage : list ModuleKpi.t
}.
End Kpi.

Definition rtm_download_kpi (rtmData : list Row.t) : Kpi.t :=
  let totalUserStories := length (Set_of Z.eqb (map Row.UserStoryID rtmData)) in
  let totalTestCases := length rtmData in
  let totalModules :=
    length (Set_of String.eqb (filter nonempty (map Row.Feature rtmData))) in
  let positiveCount := count (fun row => Row.ScenarioType row =? "Positive") rtmData in
  let negativeCount := count (fun row => Row.ScenarioType row =? "Negative") rtmData in
  let edgeCasesCount := count (fun row => Row.ScenarioType row =? "Edge Case") rtmData in
  let integrationCount := count (fun row => Row.ScenarioType row =? "Integration") rtmData in
  let totalCovered := count (fun row => Row.Status row =? "Covered") rtmData in
  let coveragePercentage :=
    if (0 <? totalTestCases)%nat
    then Math_round (f64_mul (f64_div (f64_of_nat totalCovered) (f64_of_nat totalTestCases))
                             (f64_of_Z 100))
    else f64_of_Z 0 in
  let passCount := count (fun row => Row.Execution row =? "Pass") rtmData in
  let failCount := count (fun row => Row.Execution row =? "Fail") rtmData in
  let uniqueFeatures := Set_of String.eqb (filter nonempty (map Row.Feature rtmData)) in
  let moduleWiseCoverage :=
    map (fun feature =>
           let featureData := filter (fun row => Row.Feature row =? feature) rtmData in
           let totalUseCases := length featureData in
           let positiveCovered :=
             count (fun row => (Row.ScenarioType row =? "Positive")
                               && (Row.Status row =? "Covered")) featureData in
           let negativeCovered :=
             count (fun row => (Row.ScenarioType row =? "Negative")
                               && (Row.Status row =? "Covered")) featureData in
           let edgeCasesCovered :=
             count (fun row => (Row.ScenarioType row =? "Edge Case")
                               && (Row.Status row =? "Covered")) featureData in
           let integrationCovered :=
             count (fun row => (Row.ScenarioType row =? "Integration")
                               && (Row.Status row =? "Covered")) featureData in
           let totalCoveredForFeature :=
             count (fun row => Row.Status row =? "Covered") featureData in
           let coveragePercentageForFeature :=
             if (0 <? totalUseCases)%nat
             then Math_round (f64_mul (f64_div (f64_of_nat totalCoveredForFeature)
                                               (f64_of_nat totalUseCases))
                                      (f64_of_Z 100))
             else f64_of_Z 0 in
           let passForFeature := count (fun row => Row.Execution row =? "Pass") featureData in
           let failForFeature := count (fun row => Row.Execution row =? "Fail") featureData in
           {| ModuleKpi.feature := feature;
              ModuleKpi.totalUseCases := totalUseCases;
              ModuleKpi.positiveCovered := positiveCovered;
              ModuleKpi.negativeCovered := negativeCovered;
              ModuleKpi.edgeCasesCovered := edgeCasesCovered;
              ModuleKpi.integrationCovered := integrationCovered;
              ModuleKpi.totalCovered := totalCoveredForFeature;
              ModuleKpi.coveragePercentage := coveragePercentageForFeature;
              ModuleKpi.pass := passForFeature;
              ModuleKpi.fail := failForFeature |})
        uniqueFeatures in
  let coveredUserStories :=
    length (Set_of Z.eqb
              (map Row.UserStoryID
                 (filter (fun row => Row.Status row =? "Covered") rtmData))) in
  let uncoveredUserStories :=
    (Z.of_nat totalUserStories - Z.of_nat coveredUserStories)%Z in
  {| Kpi.totalUserStories := totalUserStories;
     Kpi.totalModules := totalModules;
     Kpi.totalUseCases := totalTestCases;
     Kpi.positive := positiveCount;
     Kpi.negative := negativeCount;
     Kpi.edgeCases := edgeCasesCount;
     Kpi.integration := integrationCount;
     Kpi.totalCovered := totalCovered;
     Kpi.coveragePercentage := coveragePercentage;
     Kpi.uncoveredUserStories := uncoveredUserStories;
     Kpi.executionTotal := passCount + failCount;
     Kpi.pass := passCount;
     Kpi.fail := failCount;
     Kpi.passPercentage :=
       if (0 <? passCount + failCount)%nat
       then Math_round (f64_mul (f64_div (f64_of_nat passCount)
                                         (f64_of_nat (passCount + failCount)))
                                (f64_of_Z 100))
       else f64_of_Z 0;
     Kpi.failPercentage :=
       if (0 <? passCount + failCount)%nat
       then Math_round (f64_mul (f64_div (f64_of_nat failCount)
                                         (f64_of_nat (passCount + failCount)))
                                (f64_of_Z 100))
       else f64_of_Z 0;
     Kpi.moduleWiseCoverage := moduleWiseCoverage |}.

(* ================================================================== *)
(** ** The KPI sheet of [exportToExcel] *)

(** A cell of the sheet: a text, an integer count or a double. *)
Inductive Cell : Type :=
| CText (s : string)
| CCount (n : nat)
| CNumber (x : f64).

(** The rows that [exportToExcel] adds to the KPI worksheet, in order. *)
Definition exportToExcel_kpi (rtmData : list Row.t) : list (list Cell) :=
  let totalTestCases := length rtmData in
  let totalModules :=
    length (Set_of String.eqb (filter nonempty (map Row.Feature rtmData))) in
  let positiveCount := count (fun row => Row.ScenarioType row =? "Positive") rtmData in
  let negativeCount := count (fun row => Row.ScenarioType row =? "Negative") rtmData in
  let edgeCasesCount := count (fun row => Row.ScenarioType row =? "Edge Case") rtmData in
  let integrationCount := count (fun row => Row.ScenarioType row =? "Integration") rtmData in
  let totalCovered := count (fun row => Row.Status row =? "Covered") rtmData in
  let coveragePercentage :=
    if (0 <? totalTestCases)%nat
    then Math_round (f64_mul (f64_div (f64_of_nat totalCovered) (f64_of_nat totalTestCases))
                             (f64_of_Z 100))
    else f64_of_Z 0 in
  let passCount := count (fun row => Row.Execution row =? "Pass") rtmData in
  let failCount := count (fun row => Row.Execution row =? "Fail") rtmData in
  let uniqueFeatures := Set_of String.eqb (filter nonempty (map Row.Feature rtmData)) in
  [ [CText "Overall Coverage"];
    [CText "Total Modules"; CCount totalModules];
    [CText "Total Uses Cases"; CCount totalTestCases];
    [CText "Positive"; CCount positiveCount];
    [CText "Negative"; CCount negativeCount];
    [CText "Edge Cases"; CCount edgeCasesCount];
    [CText "Integration"; CCount integrationCount];
    [CText "Total Covered"; CCount totalCovered];
    [CText "Coverage %age"; CNumber coveragePercentage];
    [CText "Pass"; CCount passCount];
    [CText "Fail"; CCount failCount];
    [];
    [];
    [CText "Module Wise Coverage"; CText ""; CText ""; CText ""; CText "";
     CText ""; CText ""; CText ""; CText ""; CText ""];
    [CText "Feature"; CText "Total Use Cases"; CText "Positive Covered";
     CText "Negative Covered"; CText "Edge Cases Covered";
     CText "Integration Cases Covered"; CText "Total Covered";
     CText "Coverage %age"; CText "Pass"; CText "Fail"] ]
  ++ map (fun feature =>
            let featureData := filter (fun row => Row.Feature row =? feature) rtmData in
            let totalUseCases := length featureData in
            let positiveCovered :=
              count (fun row => (Row.ScenarioType row =? "Positive")
                                && (Row.Status row =? "Covered")) featureData in
            let negativeCovered :=
              count (fun row => (Row.ScenarioType row =? "Negative")
                                && (Row.Status row =? "Covered")) featureData in
            let edgeCasesCovered :=
              count (fun row => (Row.ScenarioType row =? "Edge Case")
                                && (Row.Status row =? "Covered")) featureData in
            let integrationCovered :=
              count (fun row => (Row.ScenarioType row =? "Integration")
                                && (Row.Status row =? "Covered")) featureData in
            let totalCoveredForFeature :=
              count (fun row => Row.Status row =? "Covered") featureData in
            let coveragePercentageForFeature :=
              if (0 <? totalUseCases)%nat
              then Math_round (f64_mul (f64_div (f64_of_nat totalCoveredForFeature)
                                                (f64_of_nat totalUseCases))
                                       (f64_of_Z 100))
              else f64_of_Z 0 in
            let passForFeature := count (fun row => Row.Execution row =? "Pass") featureData in
            let failForFeature := count (fun row => Row.Execution row =? "Fail") featureData in
            [ CText feature; CCount totalUseCases; CCount positiveCovered;
              CCount negativeCovered; CCount edgeCasesCovered; CCount integrationCovered;
              CCount totalCoveredForFeature; CNumber coveragePercentageForFeature;
              CCount passForFeature; CCount failForFeature ])
         uniqueFeatures.

(* ================================================================== *)
(** ** The weekly trend's use of the runner *)

(** [[...Array(weeks)].map((_, i) => weeks - i - 1)], the list that
    [calculateCoverageTrend] hands to [parallel]: one offset per week, the
    current week last with offset [0]. *)
Definition week_offsets (weeks : nat) : list Z :=
  map (fun i => (Z.of_nat weeks - Z.of_nat i - 1)%Z) (seq 0 weeks).

(* ================================================================== *)
(** ** Vocabulary of the properties *)

(** [workItemData.fields || {}] *)
Definition fields_of (wi : WorkItemData) : Fields :=
  match wi_fields wi with
  | Some f => f
  | None => no_fields
  end.

(** A string has no occurrence of the separator. *)
Fixpoint free_of (sep : ascii) (s : string) : bool :=
  match s with
  | EmptyString => true
  | String c s' => negb (Ascii.eqb c sep) && free_of sep s'
  end.

(** [segment] is the last segment of [path]: what follows the last
    separator, or the whole path when it has none. *)
Definition last_segment_of (sep : ascii) (path segment : string) : Prop :=
  free_of sep segment = true
  /\ (path = segment
      \/ exists parent, path = (parent ++ String sep segment)%string).

(** The segments put back together, the separator between them. *)
Fixpoint join (sep : ascii) (segments : list string) : string :=
  match segments with
  | [] => ""
  | [seg] => seg
  | seg :: rest => (seg ++ String sep (join sep rest))%string
  end.

(** The feature label as the specification words it: the last segment of
    the area path, the title only when there is no area path. *)
Definition feature_by_area_path (fields : Fields) : string :=
  let areaPath := str_or (System_AreaPath fields) "" in
  if areaPath =? "" then str_or (System_Title fields) ""
  else pop (split "\" areaPath).

(** The criteria of a list of [<li>] texts, numbered by position from
    [index + 1], blank items left out (their numbers stay unused). *)
Fixpoint numbered_criteria (index : nat) (elements : list string) : list (nat * string) :=
  match elements with
  | [] => []
  | element :: rest =>
      (if trim element =? "" then [] else [(index + 1, trim element)])
      ++ numbered_criteria (S index) rest
  end.

(** The test cases whose criterion reference is the number [n]. *)
Definition grouped_under (n : nat) (testCases : list TestCase.t) : list TestCase.t :=
  filter (fun tc => sameValueZero (TestCase.acceptanceCriteria tc) (JNum (Z.of_nat n)))
         testCases.

Definition missing_row (userStoryId : Z) (userStory : UserStory.t) (criterion : string)
  : Row.t :=
  {| Row.UserStoryID := userStoryId;
     Row.Feature := UserStory.title userStory;
     Row.ScenarioType := "Functional";
     Row.Description := criterion;
     Row.TestCaseID := JStr "";
     Row.Status := "Missing";
     Row.Priority := "Medium";
     Row.Execution := "" |}.

Definition covered_row (userStoryId : Z) (userStory : UserStory.t) (tc : TestCase.t)
  : Row.t :=
  {| Row.UserStoryID := userStoryId;
     Row.Feature := UserStory.title userStory;
     Row.ScenarioType :=
       match TestCase.scenarioType tc with
       | EmptyString => "Functional"
       | tag => tag
       end;
     Row.Description :=
       match TestCase.description tc with
       | EmptyString => TestCase.title tc
       | text => text
       end;
     Row.TestCaseID := JNum (TestCase.id tc);
     Row.Status := "Covered";
     Row.Priority := mapPriority (TestCase.priority tc);
     Row.Execution := TestCase.executionStatus tc |}.

(** The rows owed to one acceptance criterion. *)
Definition criterion_rows (userStoryId : Z) (userStory : UserStory.t)
    (testCases : list TestCase.t) (entry : nat * string) : list Row.t :=
  match grouped_under (fst entry) testCases with
  | [] => [missing_row userStoryId userStory (snd entry)]
  | group => map (covered_row userStoryId userStory) group
  end.

(** The single row of a requirement without linked test cases. *)
Definition unlinked_row (userStoryId : Z) (userStory : UserStory.t) : Row.t :=
  {| Row.UserStoryID := userStoryId;
     Row.Feature := UserStory.feature userStory;
     Row.ScenarioType :=
       determineScenarioType (UserStory.title userStory)
         (UserStory.description userStory) (UserStory.tags userStory);
     Row.Description := UserStory.title userStory;
     Row.TestCaseID := JStr "";
     Row.Status := "Missing";
     Row.Priority := mapPriority (UserStory.priority userStory);
     Row.Execution := "" |}.

(** The criterion reference is a number. *)
Definition has_number_reference (tc : TestCase.t) : bool :=
  match TestCase.acceptanceCriteria tc with
  | JNum _ => true
  | _ => false
  end.

(** The coverage invariant of a row. *)
Definition coverage_invariant (row : Row.t) : Prop :=
  (Row.Status row = "Covered" <-> Row.TestCaseID row <> JStr "")
  /\ (Row.Execution row <> "" -> Row.Status row = "Covered").

(** The rows one requirement adds to the matrix. *)
Definition story_rows (backend : Backend) (userStoryId : Z) : list Row.t :=
  match process_user_story backend userStoryId 0 [] with
  | inr rows => rows
  | inl _ => []
  end.

(** The items of a list with their positions. *)
Definition indexed {T : Type} (items : list T) : list (T * nat) :=
  combine items (seq 0 (length items)).

(** *** Vocabulary of the runner *)

Section RunnerVocabulary.
Context {T St : Type}.
Variable is_truthy : T -> bool.
Variable items : list T.

(** The elements of [l] with their positions, the first at [k]. *)
Definition index_from (k : nat) (l : list T) : list (T * nat) :=
  combine l (seq k (length l)).

(** The calls owed to a list of positioned items: one for each truthy
    item, in order. *)
Definition truthy_calls (l : list (T * nat)) : list (T * nat) :=
  filter (fun c => is_truthy (fst c)) l.

(** The iterator has handed out a prefix [done] of the items, a call was
    started for each truthy item of the prefix, and a worker has ended
    only if nothing is left. *)
Definition pool_inv (p : @Pool T St) : Prop :=
  exists done rest,
    items = done ++ rest
    /\ cursor p = length done
    /\ calls p = truthy_calls (index_from 0 done)
    /\ (In Finished (workers p) -> rest = []).

(** Calls not settled yet, and calls not started yet. *)
Definition pending_count (ws : list (@Worker T)) : nat :=
  length (filter is_awaiting ws).

Definition calls_left (p : @Pool T St) : nat :=
  pending_count (workers p) + length (filter is_truthy (skipn (cursor p) items)).

(** No worker waits for a call. *)
Definition quiescent (p : @Pool T St) : Prop := pending_count (workers p) = 0.

(** The call a worker waits for, and the calls the pool waits for. *)
Definition call_of (state : @Worker T) : list (T * nat) :=
  match state with
  | Awaiting item index => [(item, index)]
  | _ => []
  end.

Definition pending_calls (ws : list (@Worker T)) : list (T * nat) :=
  flat_map call_of ws.

(** The shared state after the calls [cs] of [fn] were fulfilled in that
    order. *)
Definition replay (fn : T -> nat -> St -> Exc St) (cs : list (T * nat)) (s : St) : St :=
  fold_left (fun s c => match fn (fst c) (snd c) s with
                        | inr s' => s'
                        | inl _ => s
                        end) cs s.

(** The bookkeeping of calls: what was started is what was fulfilled plus
    what is pending, and the shared state is the fulfilled calls replayed. *)
Definition ledger (fn : T -> nat -> St -> Exc St) (s0 : St) (p : @Pool T St) : Prop :=
  Permutation (calls p) (completed p ++ pending_calls (workers p))
  /\ shared p = replay fn (completed p) s0.
End RunnerVocabulary.

(** The worker function was called exactly once for each element of the
    list: the calls started are the elements with their positions, each
    once. *)
Definition called_once_for_each {T : Type} (items : list T) (cs : list (T * nat)) : Prop :=
  Permutation cs (indexed items).

(** No request reaches the backend: each one fails in transport or
    authentication. *)
Definition batch_level_failure (backend : Backend) : Prop :=
  forall req, exists message, backend req = AxiosError message.

Definition unreachable : Backend := fun _ => AxiosError "connect ECONNREFUSED".

(** [r] is an integer nearest to [100 * part / total]. *)
Definition nearest_percent (part total : nat) (r : Z) : Prop :=
  (Z.abs (2 * Z.of_nat total * r - 200 * Z.of_nat part) <= Z.of_nat total)%Z.

(** The double [Math.round((part / total) * 100)]. *)
Definition js_percent (part total : nat) : f64 :=
  Math_round (f64_mul (f64_div (f64_of_nat part) (f64_of_nat total)) (f64_of_Z 100)).

(** Structural equality of doubles. *)
Definition f64_eqb (x y : f64) : bool :=
  match x, y with
  | S754_zero s, S754_zero s' => Bool.eqb s s'
  | S754_infinity s, S754_infinity s' => Bool.eqb s s'
  | S754_nan, S754_nan => true
  | S754_finite s m e, S754_finite s' m' e' =>
      Bool.eqb s s' && Pos.eqb m m' && Z.eqb e e'
  | _, _ => false
  end.

(** The integer a double stands for, when it stands for one. *)
Definition f64_to_Z (x : f64) : option Z :=
  match x with
  | S754_zero _ => Some 0%Z
  | S754_finite s m e =>
      let v := if s then Z.neg m else Z.pos m in
      if (0 <=? e)%Z then Some (v * 2 ^ e)%Z
      else if (v mod 2 ^ (- e) =? 0)%Z then Some (v / 2 ^ (- e))%Z
      else None
  | _ => None
  end.

(** A checker for [js_percent]: it is the double of an integer between
    0 and 100 that is nearest to the exact quotient. *)
Definition percent_checked (part total : nat) : bool :=
  let p := js_percent part total in
  match f64_to_Z p with
  | Some r =>
      f64_eqb p (f64_of_Z r)
      && (0 <=? r)%Z && (r <=? 100)%Z
      && (Z.abs (2 * Z.of_nat total * r - 200 * Z.of_nat part) <=? Z.of_nat total)%Z
  | None => false
  end.

(** The checker on every pair [part <= total] with [1 <= total <= bound]. *)
Definition percent_checked_upto (bound : nat) : bool :=
  forallb (fun total => forallb (fun part => percent_checked part total)
                                (seq 0 (S total)))
          (seq 1 bound).

(** Number of occurrences of a status in the matrix. *)
Definition status_count (status : string) (rtmData : list Row.t) : nat :=
  count_occ string_dec (map Row.Status rtmData) status.

(* ================================================================== *)
(** ** A sample backend *)

Definition sample_fields (type_ title : string) (area tags state : option string)
    (priority reference : JsValue) (criteria : list string) : Fields :=
  {| System_WorkItemType := Some type_; System_Title := Some title;
     System_Description := None; System_State := state;
     System_AreaPath := area; System_Tags := tags;
     Common_Priority := priority; Common_AcceptanceCriteria := criteria;
     TCM_Steps := None; Custom_AcceptanceCriteriaNumber := reference;
     Custom_ScenarioType := None |}.

Definition sample_link (target : string) : Relation :=
  {| rel := Some "Microsoft.VSTS.Common.TestedBy-Forward";
     url := Some ("https://dev.azure.com/org/_apis/wit/workItems/" ++ target)%string |}.

(** Requirement 100 has two criteria and the test cases 501 (reference
    the number 1) and 502 (reference the string "2"); requirement 200 has
    no link; requirement 300 links only test case 502; 404 is a bug, not a
    requirement; every other id is unknown to the backend. *)
Definition sample_backend : Backend :=
  fun req =>
    match workItemId req with
    | Some 100%Z =>
        AxiosResponse (Some
          {| wi_id := 100;
             wi_fields := Some (sample_fields "User Story" "Login" (Some "Shop\Accounts")
                                  None (Some "Active") (JNum 1) JUndefined
                                  ["can log in"; "can log out"]);
             wi_relations :=
               if expandRelations req
               then Some [sample_link "501"; sample_link "502"; sample_link "999"]
               else None |})
    | Some 200%Z =>
        AxiosResponse (Some
          {| wi_id := 200;
             wi_fields := Some (sample_fields "User Story" "Export report" None
                                  (Some "performance") (Some "New") JUndefined JUndefined []);
             wi_relations := None |})
    | Some 300%Z =>
        AxiosResponse (Some
          {| wi_id := 300;
             wi_fields := Some (sample_fields "User Story" "Reset password" None
                                  None (Some "Active") (JNum 2) JUndefined
                                  ["mail is sent"; "link expires"]);
             wi_relations :=
               if expandRelations req then Some [sample_link "502"] else None |})
    | Some 404%Z =>
        AxiosResponse (Some
          {| wi_id := 404;
             wi_fields := Some (sample_fields "Bug" "Crash" None None None
                                  JUndefined JUndefined []);
             wi_relations := None |})
    | Some 501%Z =>
        AxiosResponse (Some
          {| wi_id := 501;
             wi_fields := Some (sample_fields "Test Case" "Valid credentials" None None
                                  (Some "Done") (JStr "High") (JNum 1) []);
             wi_relations := None |})
    | Some 502%Z =>
        AxiosResponse (Some
          {| wi_id := 502;
             wi_fields := Some (sample_fields "Test Case" "Session ends" None None
                                  (Some "Design") (JNum 3) (JStr "2") []);
             wi_relations := None |})
    | _ => AxiosError "Request failed with status code 404"
    end.

(** What the generator fetches from the sample backend. *)
Definition sample_story (userStoryId : Z) : UserStory.t :=
  match fetchUserStory sample_backend userStoryId with
  | inr (Some us) => us
  | _ => {| UserStory.id := 0; UserStory.title := ""; UserStory.description := "";
            UserStory.state := ""; UserStory.priority := JUndefined;
            UserStory.feature := ""; UserStory.tags := "";
            UserStory.acceptanceCriteria := [] |}
  end.

Definition sample_tests (userStoryId : Z) : list TestCase.t :=
  match fetchRelatedTestCases sample_backend userStoryId with
  | inr testCases => testCases
  | inl _ => []
  end.

(** A matrix of [covered] Covered rows followed by [missing] Missing ones. *)
Definition sample_matrix (covered missing : nat) : list Row.t :=
  repeat {| Row.UserStoryID := 1; Row.Feature := "Login";
            Row.ScenarioType := "Functional"; Row.Description := "";
            Row.TestCaseID := JNum 7; Row.Status := "Covered";
            Row.Priority := "Medium"; Row.Execution := "Pass" |} covered
  ++ repeat {| Row.UserStoryID := 1; Row.Feature := "Login";
               Row.ScenarioType := "Functional"; Row.Description := "";
               Row.TestCaseID := JStr ""; Row.Status := "Missing";
               Row.Priority := "Medium"; Row.Execution := "" |} missing.


(* ================================================================== *)
(** ** Request parameters of the report routes ([server.js]) *)

(** The error answers of a route: [res.status(...).json({error, message})]. *)
Record HttpError : Type := { status : nat; error : string; message : string }.

(** The callback of [story_ids.split(',').map(...)], over the segments in
    order: the first segment that [parseInt] cannot read throws. *)
Fixpoint map_story_ids (segments : list string) : Exc (list Z) :=
  match segments with
  | [] => ret []
  | id :: rest =>
      match parseInt (trim id) with
      | None => throw ("Invalid story ID: " ++ trim id)%string
      | Some parsedId =>
          parsedIds <- map_story_ids rest ;;
          ret (parsedId :: parsedIds)
      end
  end.

(** The [if (story_ids)] branch of the two download routes: the ids and
    the report identifier, or the answer 400. *)
Definition resolve_story_ids (story_ids : string) : HttpError + (list Z * string) :=
  match map_story_ids (split "," story_ids) with
  | inr userStoryIds =>
      inr (userStoryIds,
           ("Stories_" ++ join "_" (map string_of_Z userStoryIds))%string)
  | inl message_ =>
      inl {| status := 400; error := "Bad Request";
             message := ("Invalid story_ids format: " ++ message_)%string |}
  end.

Definition is_alphanumeric (c : ascii) : bool :=
  let n := nat_of_ascii c in
  ((48 <=? n)%nat && (n <=? 57)%nat)
  || ((65 <=? n)%nat && (n <=? 90)%nat)
  || ((97 <=? n)%nat && (n <=? 122)%nat).

(** [sprint_name.replace(/[^a-zA-Z0-9]/g, '_')], the report identifier of
    a sprint. *)
Fixpoint sanitize (s : string) : string :=
  match s with
  | EmptyString => EmptyString
  | String c s' => String (if is_alphanumeric c then c else "_"%char) (sanitize s')
  end.

(* ================================================================== *)
(** ** Vocabulary of the further properties *)

(** Every character of [s] satisfies [p]. *)
Fixpoint all_chars (p : ascii -> bool) (s : string) : bool :=
  match s with
  | EmptyString => true
  | String c s' => p c && all_chars p s'
  end.

(** Text of ASCII characters: on it [toLowerCase], [toUpperCase], [trim]
    and the character count are those of the code. *)
Definition is_ascii (c : ascii) : bool := (nat_of_ascii c <? 128)%nat.

Definition ascii_text (s : string) : bool := all_chars is_ascii s.

(** [Number.isSafeInteger(n)]: the code holds such an integer exactly and
    prints it in decimal. *)
Definition safe_integer (n : Z) : bool := (Z.abs n <=? 2 ^ 53 - 1)%Z.

(** A character of a decimal spelling: a digit or the minus sign. *)
Definition is_decimal_char (c : ascii) : bool :=
  let n := nat_of_ascii c in
  ((48 <=? n)%nat && (n <=? 57)%nat) || (n =? 45)%nat.

(** [segments.join(sep)] for a one-character separator is [join]; a
    segment list is clean when no segment holds the separator. *)
Definition clean_segments (sep : ascii) (segments : list string) : Prop :=
  segments <> [] /\ Forall (fun seg => free_of sep seg = true) segments.

(** A relation that points to work item [id] under the URL prefix [base]. *)
Definition work_item_link (rel_ base : string) (id : Z) : Relation :=
  {| rel := Some rel_;
     url := Some (base ++ String "/" (string_of_Z id))%string |}.

(** The relations that [fetchRelatedTestCases] follows: the label holds
    "test" in some letter case and there is a URL. *)
Definition is_test_link (relation : Relation) : bool :=
  includes (toLowerCase (str_or (rel relation) "")) "test"
  && negb (str_or (url relation) "" =? "").

(** The test case behind a relation, when it can be fetched. *)
Definition linked_test_case (backend : Backend) (relation : Relation) : list TestCase.t :=
  match fetchTestCase backend (parseInt (pop (split "/" (str_or (url relation) "")))) with
  | inr (Some tc) => [tc]
  | _ => []
  end.

(** The keywords of the classifier, group by group. *)
(** The URL of the relation ends in the id [t]. *)
Definition links_to (t : Z) (relation : Relation) : bool :=
  match parseInt (pop (split "/" (str_or (url relation) ""))) with
  | Some n => (n =? t)%Z
  | None => false
  end.

(** The backend on which every request for the work item [t] fails. *)
Definition failing_for (backend : Backend) (t : Z) : Backend :=
  fun req =>
    match workItemId req with
    | Some n =>
        if (n =? t)%Z then AxiosError "Request failed with status code 404"
        else backend req
    | None => backend req
    end.

Definition scenario_keywords : list string :=
  ["api"; "service"; "endpoint"; "ui"; "interface"; "screen"; "page";
   "integration"; "end-to-end"; "e2e"; "performance"; "load"; "stress";
   "security"; "authentication"; "authorization"].

(** Evaluation of the digit at the head of the goal. *)
Ltac eval_digit :=
  match goal with
  | |- context [digit_value ?r ?c] =>
      let v := eval vm_compute in (digit_value r c) in
      change (digit_value r c) with v; cbv iota beta
  end.

(* ================================================================== *)
(** ** Summary of the [/rtm-report] route ([server.js]) *)

(** [v !== ''] *)
Definition not_empty_string (v : JsValue) : bool := negb (sameValueZero v (JStr "")).

(** The counts of the [summary] object; its [coveragePercentage], a number
    formatted by [toFixed(1)], is not part of this record. *)
Module ReportSummary.
Record t : Type := {
  totalUserStories : nat;
  totalTestCases : nat;
  coveredUserStories : nat;
  missingTestCases : nat
}.
End ReportSummary.

Definition rtm_report_summary (rtmData : list Row.t) : ReportSummary.t :=
  let totalUserStories := length (Set_of Z.eqb (map Row.UserStoryID rtmData)) in
  let totalTestCases := count (fun row => not_empty_string (Row.TestCaseID row)) rtmData in
  let coveredUserStories :=
    length (Set_of Z.eqb
              (map Row.UserStoryID
                 (filter (fun row => Row.Status row =? "Covered") rtmData))) in
  let missingTestCases := count (fun row => Row.Status row =? "Missing") rtmData in
  {| ReportSummary.totalUserStories := totalUserStories;
     ReportSummary.totalTestCases := totalTestCases;
     ReportSummary.coveredUserStories := coveredUserStories;
     ReportSummary.missingTestCases := missingTestCases |}.

(** The reference of a test case is the number of one of the criteria. *)
Definition refers_to_criterion (criteria : list (nat * string)) (tc : TestCase.t) : bool :=
  existsb (fun entry =>
             sameValueZero (TestCase.acceptanceCriteria tc) (JNum (Z.of_nat (fst entry))))
          criteria.

(** The pool before any worker has started. *)
Definition empty_pool {T St : Type} (s0 : St) : @Pool T St :=
  {| cursor := 0; workers := []; calls := []; completed := [];
     shared := s0; rejection := None |}.

(** The labels [determineScenarioType] can answer. *)
Definition scenario_labels : list string :=
  ["API"; "UI"; "Integration"; "Performance"; "Security"; "Functional"].

(** The two shapes of a row that [generateRTM] writes. *)
Definition generated_row (row : Row.t) : Prop :=
  (Row.Status row = "Covered"
   /\ (Row.Execution row = "Pass" \/ Row.Execution row = "Fail")
   /\ exists id, Row.TestCaseID row = JNum id)
  \/ (Row.Status row = "Missing"
      /\ Row.Execution row = ""
      /\ Row.TestCaseID row = JStr ""
      /\ In (Row.ScenarioType row) scenario_labels).

(* ================================================================== *)
(** ** Calls that reject *)

Section FailureVocabulary.
Context {T St : Type}.

Definition is_rejected (state : @Worker T) : bool :=
  match state with
  | Rejected _ => true
  | _ => false
  end.

(** Workers whose awaited call rejected: their promise is rejected and
    they take no further item. *)
Definition rejected_count (ws : list (@Worker T)) : nat :=
  length (filter is_rejected ws).

(** The bookkeeping of calls when calls may reject.  [failed] lists the
    rejected calls in the order of their rejection: what was started is
    what was fulfilled, what is pending and what was rejected; each
    rejected call has stopped one worker; and [Promise.all] holds the
    error of the first of them. *)
Definition failure_ledger (fn : T -> nat -> St -> Exc St) (s0 : St) (p : @Pool T St)
    (failed : list (T * nat)) : Prop :=
  Permutation (calls p) (completed p ++ pending_calls (workers p) ++ failed)
  /\ shared p = replay fn (completed p) s0
  /\ length failed = rejected_count (workers p)
  /\ match failed with
     | [] => rejection p = None
     | c :: _ => exists s e, fn (fst c) (snd c) s = inl e /\ rejection p = Some e
     end.
End FailureVocabulary.

(* ================================================================== *)
(** ** The other requests of the generator *)

Definition upper_ascii (c : ascii) : ascii :=
  let n := nat_of_ascii c in
  if (97 <=? n)%nat && (n <=? 122)%nat then ascii_of_nat (n - 32) else c.

Fixpoint toUpperCase (s : string) : string :=
  match s with
  | EmptyString => EmptyString
  | String c s' => String (upper_ascii c) (toUpperCase s')
  end.

(** What the axios instance does on one URL: [get(url)] and
    [post(url, data)] each throw or return the response body, which is an
    object of the expected shape or not an object at all ([None]).  The
    data of a POST is the text of a WIQL query. *)
Record Endpoint (A : Type) : Type := {
  axios_GET : Exc (option A);
  axios_POST : option string -> Exc (option A)
}.
Arguments axios_GET {A} _.
Arguments axios_POST {A} _ _.

(** [makeApiRequest(url, method, data)] *)
Definition makeApiRequest_method {A : Type} (endpoint : Endpoint A) (method : string)
    (data : option string) : Exc (option A) :=
  try_catch
    (response <-
       (if toUpperCase method =? "GET" then axios_GET endpoint
        else if toUpperCase method =? "POST" then axios_POST endpoint data
        else throw ("Unsupported HTTP method: " ++ method)%string) ;;
     ret response)
    (fun _ => ret None).

(** A body with a [value] array. *)
Record Listing (A : Type) : Type := { value : option (list A) }.
Arguments value {A} _.

(** [!data || !data.value] fails: the array. *)
Definition listed {A : Type} (data : option (Listing A)) : option (list A) :=
  match data with
  | Some listing => value listing
  | None => None
  end.

Record IterationAttributes : Type := {
  startDate : option string;
  finishDate : option string;
  timeFrame : option string
}.

Record Iteration : Type := {
  it_id : option string;
  it_name : option string;
  it_path : option string;
  it_attributes : option IterationAttributes;
  it_url : option string
}.

Record WorkItemRef : Type := { ref_id : Z }.

(** The answer to a WIQL query. *)
Record WiqlResult : Type := { workItems : option (list WorkItemRef) }.

Record TestCaseRef : Type := { tc_id : option string }.

Record TestResult : Type := {
  testCase : option TestCaseRef;
  outcome : option string
}.

Record TestRun : Type := { run_id : option Z }.

(** The endpoints behind [apiBaseUrl] that the generator calls besides the
    work items. *)
Record Service : Type := {
  iterations : Endpoint (Listing Iteration);
  wiql : Endpoint WiqlResult;
  test_runs : Endpoint (Listing TestRun);
  test_results : Z -> Endpoint (Listing TestResult)
}.

Definition nl : string := String "010"%char EmptyString.

(** A line of a query as the template literals have it: a line break and
    sixteen blanks before the text. *)
Definition query_line (text : string) : string :=
  (nl ++ "                " ++ text)%string.

(** The WIQL query of [fetchUserStoriesBySprint]. *)
Definition sprint_query (path : string) : string :=
  (query_line "SELECT [System.Id]"
   ++ query_line "FROM WorkItems"
   ++ query_line "WHERE [System.WorkItemType] = 'User Story'"
   ++ query_line ("AND [System.IterationPath] UNDER '" ++ path ++ "'")
   ++ query_line "ORDER BY [System.Id]")%string.

(** [iterations.find(iteration => iteration.name.toLowerCase() ===
    sprintName.toLowerCase())]; an iteration without a name makes the
    callback throw. *)
Fixpoint find_sprint (sprintName : string) (candidates : list Iteration)
  : Exc (option Iteration) :=
  match candidates with
  | [] => ret None
  | iteration :: rest =>
      match it_name iteration with
      | None => throw "Cannot read properties of undefined (reading 'toLowerCase')"
      | Some name =>
          if toLowerCase name =? toLowerCase sprintName then ret (Some iteration)
          else find_sprint sprintName rest
      end
  end.

(** Every listed iteration that has a name has one of ASCII text. *)
Definition ascii_names (service : Service) : Prop :=
  forall candidates,
    axios_GET (iterations service) = inr (Some {| value := Some candidates |}) ->
    forallb (fun iteration => ascii_text (str_or (it_name iteration) "")) candidates
    = true.

(** [queryResult.workItems.map(item => item.id)], or [[]] when there is
    no such array. *)
Definition query_ids (queryResult : option WiqlResult) : list Z :=
  match queryResult with
  | Some {| workItems := Some items |} => map ref_id items
  | _ => []
  end.

Definition fetchUserStoriesBySprint (service : Service) (sprintName : string)
  : Exc (list Z) :=
  try_catch
    (iterationsData <- makeApiRequest_method (iterations service) "GET" None ;;
     match listed iterationsData with
     | None => ret []
     | Some candidates =>
         sprint <- find_sprint sprintName candidates ;;
         match sprint with
         | None => ret []
         | Some sprint =>
             let wiqlQuery :=
               sprint_query (str_or (it_path sprint) (str_or (it_name sprint) "")) in
             queryResult <- makeApiRequest_method (wiql service) "POST" (Some wiqlQuery) ;;
             ret (query_ids queryResult)
         end
     end)
    (fun _ => ret []).

(** An entry of the list of [fetchAllSprints]; [None] is [undefined] in
    the copied members and [null] in the three attributes. *)
Module Sprint.
Record t : Type := {
  id : option string;
  name : option string;
  path : option string;
  startDate : option string;
  finishDate : option string;
  timeFrame : option string;
  url : option string
}.
End Sprint.

(** [iteration.attributes?.member] *)
Definition attribute (iteration : Iteration)
    (member : IterationAttributes -> option string) : option string :=
  match it_attributes iteration with
  | Some attributes => member attributes
  | None => None
  end.

(** [v || null] *)
Definition or_null (v : option string) : option string :=
  match v with
  | Some s => if s =? "" then None else Some s
  | None => None
  end.

Definition sprint_of (iteration : Iteration) : Sprint.t :=
  {| Sprint.id := it_id iteration;
     Sprint.name := it_name iteration;
     Sprint.path := it_path iteration;
     Sprint.startDate := or_null (attribute iteration startDate);
     Sprint.finishDate := or_null (attribute iteration finishDate);
     Sprint.timeFrame := or_null (attribute iteration timeFrame);
     Sprint.url := it_url iteration |}.

Definition fetchAllSprints (service : Service) : Exc (list Sprint.t) :=
  try_catch
    (iterationsData <- makeApiRequest_method (iterations service) "GET" None ;;
     match listed iterationsData with
     | None => ret []
     | Some candidates =>
         let sprints :=
           fold_left (fun list iteration =>
                        if field_is (attribute iteration timeFrame) "future" then list
                        else list ++ [sprint_of iteration])
                     candidates [] in
         ret sprints
     end)
    (fun _ => ret []).

(** *** Execution status from the test runs *)

(** The inner loop of [getTestExecutionStatus]: the label it returns on,
    if any. *)
Fixpoint scan_results (wanted : string) (results : list TestResult) : option string :=
  match results with
  | [] => None
  | result :: rest =>
      let id := match testCase result with
                | Some tc => tc_id tc
                | None => None
                end in
      if field_is id wanted then
        let outcome_ := toLowerCase (str_or (outcome result) "") in
        if outcome_ =? "passed" then Some "Pass"
        else if outcome_ =? "failed" then Some "Fail"
        else scan_results wanted rest
      else scan_results wanted rest
  end.

(** The outer loop: the runs in order, each with a request for its
    results. *)
Fixpoint scan_runs (service : Service) (wanted : string) (runs : list TestRun)
  : Exc (option string) :=
  match runs with
  | [] => ret None
  | run :: rest =>
      match run_id run with
      | Some runId =>
          if nonzero runId then
            resultsData <- makeApiRequest_method (test_results service runId) "GET" None ;;
            match listed resultsData with
            | Some results =>
                match scan_results wanted results with
                | Some label => ret (Some label)
                | None => scan_runs service wanted rest
                end
            | None => scan_runs service wanted rest
            end
          else scan_runs service wanted rest
      | None => scan_runs service wanted rest
      end
  end.

Definition getTestExecutionStatus (service : Service) (testCaseId : Z) : Exc string :=
  try_catch
    (testRunsData <- makeApiRequest_method (test_runs service) "GET" None ;;
     match listed testRunsData with
     | None => ret "Blank"
     | Some runs =>
         answer <- scan_runs service (string_of_Z testCaseId) runs ;;
         match answer with
         | Some label => ret label
         | None => ret "Blank"
         end
     end)
    (fun _ => ret "Blank").

(** The results the loops look at, in the order they look at them: those
    of each run with a truthy id whose results could be fetched. *)
Definition results_of_run (service : Service) (run : TestRun) : list TestResult :=
  match run_id run with
  | Some runId =>
      if nonzero runId then
        match makeApiRequest_method (test_results service runId) "GET" None with
        | inr resultsData =>
            match listed resultsData with
            | Some results => results
            | None => []
            end
        | inl _ => []
        end
      else []
  | None => []
  end.

(** A result that decides the status of test case [wanted]. *)
Definition decisive (wanted : string) (result : TestResult) : bool :=
  field_is (match testCase result with
            | Some tc => tc_id tc
            | None => None
            end) wanted
  && ((toLowerCase (str_or (outcome result) "") =? "passed")
      || (toLowerCase (str_or (outcome result) "") =? "failed")).

(* ================================================================== *)
(** ** Request resolution of the download routes ([server.js]) *)

(** [if (v)] on a query parameter that is a string or absent. *)
Definition given (v : option string) : bool :=
  match v with
  | Some s => negb (s =? "")
  | None => false
  end.

(** The head of [/rtm-download] and [/rtm-report/download]: from the
    query parameters to the ids and the report identifier, or to an error
    answer.  [generator] is [getRTMGenerator(connection_id)], which throws
    or gives the generator of the connection; the sprint branch runs in a
    [try] whose [catch] answers 500. *)
Definition resolve_request (generator : Exc Service) (story_ids sprint_name : option string)
  : HttpError + (list Z * string) :=
  if negb (given story_ids) && negb (given sprint_name) then
    inl {| status := 400; error := "Bad Request";
           message := "Either story_ids or sprint_name parameter is required" |}
  else if given story_ids then resolve_story_ids (str_or story_ids "")
  else
    let sprint := str_or sprint_name "" in
    match (service <- generator ;; fetchUserStoriesBySprint service sprint) with
    | inr [] =>
        inl {| status := 404; error := "Not Found";
               message := ("No user stories found for sprint: " ++ sprint)%string |}
    | inr userStoryIds => inr (userStoryIds, sanitize sprint)
    | inl _ =>
        inl {| status := 500; error := "Internal Server Error";
               message := ("Failed to fetch user stories for sprint: " ++ sprint)%string |}
    end.

(* ================================================================== *)
(** ** The weekly coverage trend *)

Module TrendEntry.
Record t : Type := {
  week : string;
  coverage : f64;
  totalUserStories : nat;
  coveredUserStories : nat;
  error : option string;
  dateRange_start : string;
  dateRange_end : string
}.
End TrendEntry.

Module Trend.
Record t : Type := {
  weeks : nat;
  data : list TrendEntry.t;
  calculatedAt : string
}.
End Trend.

(** [parseInt(entry.week.split(' ')[1])]; [None] is [NaN]. *)
Definition week_number (entry : TrendEntry.t) : option Z :=
  match nth_error (split " " (TrendEntry.week entry)) 1 with
  | Some text => parseInt text
  | None => None
  end.

(** The comparator of the final sort, [weekA - weekB]; a difference with
    [NaN] is [NaN], which a sort reads as 0. *)
Definition by_week (a b : TrendEntry.t) : Z :=
  match week_number a, week_number b with
  | Some weekA, Some weekB => weekA - weekB
  | _, _ => 0
  end.

Fixpoint insert_sorted {A : Type} (compare : A -> A -> Z) (x : A) (sorted : list A)
  : list A :=
  match sorted with
  | [] => [x]
  | y :: rest =>
      if (compare x y <=? 0)%Z then x :: sorted
      else y :: insert_sorted compare x rest
  end.

(** [arr.sort(compare)]: the sort is stable, and for a consistent
    comparator its result is the one of the stable insertion sort. *)
Definition Array_sort {A : Type} (compare : A -> A -> Z) (arr : list A) : list A :=
  fold_right (insert_sorted compare) [] arr.

Section CoverageTrend.
Variable Date : Type.
(** [new Date()] as the call for the list position [index] reads it, and
    as it is read when the report is put together. *)
Variable now : nat -> Date.
Variable finished : Date.
(** The date moved back by [n] days, [d.setDate(d.getDate() - n)]. *)
Variable days_before : Date -> Z -> Date.
Variable toISOString : Date -> string.
Variable service : Service.
Variable backend : Backend.
(** The completion order of the fetch pipelines of the matrix that the
    call for the list position [index] generates. *)
Variable inner_sched : nat -> list nat.

(** [d.toISOString().split('T')[0]] *)
Definition iso_day (d : Date) : string := hd "" (split "T" (toISOString d)).

Definition date_range_query (startDateStr endDateStr : string) (projectArea : option string)
  : string :=
  let wiqlQuery :=
    (query_line "SELECT [System.Id]"
     ++ query_line "FROM WorkItems"
     ++ query_line "WHERE [System.WorkItemType] = 'User Story'"
     ++ query_line ("AND [System.CreatedDate] >= '" ++ startDateStr ++ "'")
     ++ query_line ("AND [System.CreatedDate] <= '" ++ endDateStr ++ "'")
     ++ nl ++ "            ")%string in
  let wiqlQuery :=
    if given projectArea
    then (wiqlQuery ++ " AND [System.AreaPath] UNDER '" ++ str_or projectArea "" ++ "'")%string
    else wiqlQuery in
  (wiqlQuery ++ " ORDER BY [System.Id]")%string.

Definition getUserStoriesByDateRange (startDate endDate : Date) (projectArea : option string)
  : Exc (list Z) :=
  try_catch
    (let startDateStr := iso_day startDate in
     let endDateStr := iso_day endDate in
     let wiqlQuery := date_range_query startDateStr endDateStr projectArea in
     queryResult <- makeApiRequest_method (wiql service) "POST" (Some wiqlQuery) ;;
     ret (query_ids queryResult))
    (fun _ => ret []).

(** The worker that [calculateCoverageTrend] hands to [parallel], for the
    week offset [i] at the list position [index]. *)
Definition trend_worker (weeks : nat) (projectArea : option string) (i : Z) (index : nat)
    (trendData : list TrendEntry.t) : Exc (list TrendEntry.t) :=
  let weekEnd := days_before (now index) (i * 7) in
  let weekStart := days_before weekEnd 6 in
  try_catch
    (userStoryIds <- getUserStoriesByDateRange weekStart weekEnd projectArea ;;
     match userStoryIds with
     | [] =>
         ret (trendData
              ++ [ {| TrendEntry.week := ("Week " ++ string_of_Z (Z.of_nat weeks - i))%string;
                      TrendEntry.coverage := f64_of_Z 0;
                      TrendEntry.totalUserStories := 0;
                      TrendEntry.coveredUserStories := 0;
                      TrendEntry.error := None;
                      TrendEntry.dateRange_start := iso_day weekStart;
                      TrendEntry.dateRange_end := iso_day weekEnd |} ])
     | _ =>
         rtmData <- generateRTM backend userStoryIds (inner_sched index) ;;
         let totalUserStories := length (Set_of Z.eqb (map Row.UserStoryID rtmData)) in
         let coveredUserStories :=
           length (Set_of Z.eqb
                     (map Row.UserStoryID
                        (filter (fun row => Row.Status row =? "Covered") rtmData))) in
         let coveragePercentage :=
           if (0 <? totalUserStories)%nat
           then Math_round (f64_mul (f64_div (f64_of_nat coveredUserStories)
                                             (f64_of_nat totalUserStories))
                                    (f64_of_Z 100))
           else f64_of_Z 0 in
         ret (trendData
              ++ [ {| TrendEntry.week := ("Week " ++ string_of_Z (Z.of_nat weeks - i))%string;
                      TrendEntry.coverage := coveragePercentage;
                      TrendEntry.totalUserStories := totalUserStories;
                      TrendEntry.coveredUserStories := coveredUserStories;
                      TrendEntry.error := None;
                      TrendEntry.dateRange_start := iso_day weekStart;
                      TrendEntry.dateRange_end := iso_day weekEnd |} ])
     end)
    (fun _ =>
       ret (trendData
            ++ [ {| TrendEntry.week := ("Week " ++ string_of_Z (Z.of_nat weeks - i))%string;
                    TrendEntry.coverage := f64_of_Z 0;
                    TrendEntry.totalUserStories := 0;
                    TrendEntry.coveredUserStories := 0;
                    TrendEntry.error := Some "Failed to calculate coverage for this week";
                    TrendEntry.dateRange_start := iso_day weekStart;
                    TrendEntry.dateRange_end := iso_day weekEnd |} ])).

(** [calculateCoverageTrend(weeks, projectArea)]; [sched] is the order in
    which the event loop settles the pending weeks. *)
Definition calculateCoverageTrend (weeks : nat) (projectArea : option string)
    (sched : list nat) : Exc Trend.t :=
  let trendData := [] in
  trendData <- parallel nonzero (trend_worker weeks projectArea) (week_offsets weeks) 5
                 sched trendData ;;
  let trendData := Array_sort by_week trendData in
  ret {| Trend.weeks := weeks;
         Trend.data := trendData;
         Trend.calculatedAt := toISOString finished |}.

(** The matrix generated for the week at the list position [index]; empty
    when the week has no requirement. *)
Definition week_matrix (weeks : nat) (projectArea : option string) (index : nat)
  : list Row.t :=
  let weekEnd := days_before (now index) ((Z.of_nat weeks - Z.of_nat index - 1) * 7) in
  let weekStart := days_before weekEnd 6 in
  match getUserStoriesByDateRange weekStart weekEnd projectArea with
  | inr (id :: ids) =>
      match generateRTM backend (id :: ids) (inner_sched index) with
      | inr rtmData => rtmData
      | inl _ => []
      end
  | _ => []
  end.

(** The entry of the week at the list position [index]. *)
Definition week_entry (weeks : nat) (projectArea : option string) (index : nat)
  : TrendEntry.t :=
  let weekEnd := days_before (now index) ((Z.of_nat weeks - Z.of_nat index - 1) * 7) in
  let weekStart := days_before weekEnd 6 in
  let rtmData := week_matrix weeks projectArea index in
  let totalUserStories := length (Set_of Z.eqb (map Row.UserStoryID rtmData)) in
  let coveredUserStories :=
    length (Set_of Z.eqb
              (map Row.UserStoryID
                 (filter (fun row => Row.Status row =? "Covered") rtmData))) in
  {| TrendEntry.week := ("Week " ++ string_of_Z (Z.of_nat index + 1))%string;
     TrendEntry.coverage :=
       if (0 <? totalUserStories)%nat then js_percent coveredUserStories totalUserStories
       else f64_of_Z 0;
     TrendEntry.totalUserStories := totalUserStories;
     TrendEntry.coveredUserStories := coveredUserStories;
     TrendEntry.error := None;
     TrendEntry.dateRange_start := iso_day weekStart;
     TrendEntry.dateRange_end := iso_day weekEnd |}.
End CoverageTrend.

(* ================================================================== *)
(** ** A sample service *)

Definition sample_iteration (name : string) (path : option string) (frame : string)
  : Iteration :=
  {| it_id := Some name; it_name := Some name; it_path := path;
     it_attributes := Some {| startDate := None; finishDate := Some "";
                              timeFrame := Some frame |};
     it_url := None |}.

Definition sample_result (id outcome_ : string) : TestResult :=
  {| testCase := Some {| tc_id := Some id |}; outcome := Some outcome_ |}.

Definition refused {A : Type} : Endpoint A :=
  {| axios_GET := throw "Request failed with status code 405";
     axios_POST := fun _ => throw "Request failed with status code 405" |}.

(** Three iterations, the last one in the future; the WIQL endpoint knows
    the requirements 100 and 200 of Sprint 40 and nothing else; of the
    three test runs the first has no id, and the results of run 9 cannot be
    fetched. *)
Definition sample_service : Service :=
  {| iterations :=
       {| axios_GET :=
            ret (Some {| value := Some [ sample_iteration "Sprint 39" (Some "Shop\Sprint 39") "past";
                                         sample_iteration "Sprint 40" None "current";
                                         sample_iteration "Sprint 41" None "future" ] |});
          axios_POST := fun _ => throw "Request failed with status code 405" |};
     wiql :=
       {| axios_GET := throw "Request failed with status code 405";
          axios_POST := fun data =>
            match data with
            | Some query =>
                if query =? sprint_query "Sprint 40"
                then ret (Some {| workItems := Some [ {| ref_id := 100 |};
                                                      {| ref_id := 200 |} ] |})
                else ret (Some {| workItems := Some [] |})
            | None => throw "Request failed with status code 400"
            end |};
     test_runs :=
       {| axios_GET := ret (Some {| value := Some [ {| run_id := None |};
                                                    {| run_id := Some 9%Z |};
                                                    {| run_id := Some 7%Z |};
                                                    {| run_id := Some 8%Z |} ] |});
          axios_POST := fun _ => throw "Request failed with status code 405" |};
     test_results := fun runId =>
       if (runId =? 7)%Z then
         {| axios_GET := ret (Some {| value := Some [ sample_result "501" "Blocked";
                                                      sample_result "502" "Passed" ] |});
            axios_POST := fun _ => throw "Request failed with status code 405" |}
       else if (runId =? 8)%Z then
         {| axios_GET := ret (Some {| value := Some [ sample_result "501" "FAILED";
                                                      sample_result "501" "passed" ] |});
            axios_POST := fun _ => throw "Request failed with status code 405" |}
       else refused |}.




(* ================================================================== *)
(** * Properties *)

(** ** Values and strings *)

Lemma sameValueZero_eq (a b : JsValue) : sameValueZero a b = true <-> a = b.
Proof.
  destruct a, b; simpl; split; intros H; try discriminate; try reflexivity.
  - apply Bool.eqb_prop in H. now subst.
  - injection H as ->. apply Bool.eqb_reflx.
  - apply Z.eqb_eq in H. now subst.
  - injection H as ->. apply Z.eqb_refl.
  - apply String.eqb_eq in H. now subst.
  - injection H as ->. apply String.eqb_refl.
Qed.

Lemma sameValueZero_refl (a : JsValue) : sameValueZero a a = true.
Proof. now apply sameValueZero_eq. Qed.

Lemma sameValueZero_sym (a b : JsValue) : sameValueZero a b = sameValueZero b a.
Proof.
  destruct (sameValueZero a b) eqn:E, (sameValueZero b a) eqn:E'; try reflexivity.
  - apply sameValueZero_eq in E. subst. now rewrite sameValueZero_refl in E'.
  - apply sameValueZero_eq in E'. subst. now rewrite sameValueZero_refl in E.
Qed.

Lemma str_in_In (x : string) (arr : list string) : str_in x arr = true <-> In x arr.
Proof.
  unfold str_in. rewrite existsb_exists. split.
  - intros (y & Hy & E). apply String.eqb_eq in E. now subst.
  - intros H. exists x. split; [assumption|apply String.eqb_refl].
Qed.

Lemma str_in_not_In (x : string) (arr : list string) : ~ In x arr -> str_in x arr = false.
Proof.
  intros H. destruct (str_in x arr) eqn:E; [|reflexivity].
  apply str_in_In in E. contradiction.
Qed.

(** ** Classifier *)

(** The three groups of recognised spellings do not overlap. *)
Lemma priority_groups_disjoint (s : string) :
  (In s ["1"; "critical"; "high"] -> ~ In s ["2"; "medium"; "normal"; "3"; "4"; "low"])
  /\ (In s ["2"; "medium"; "normal"] -> ~ In s ["3"; "4"; "low"]).
Proof.
  split; intros H1 H2; simpl in H1, H2;
    repeat match goal with
           | H : _ \/ _ |- _ => destruct H
           | H : False |- _ => contradiction
           end; subst; discriminate.
Qed.

(** C9. [mapPriority] is defined on every value and answers Low, Medium
    or High: High when the lower-cased string form is 1, critical or high,
    Medium when it is 2, medium or normal, Low when it is 3, 4 or low,
    Medium when the value is null, undefined or anything else; the twelve
    inputs the specification lists are classified accordingly. *)
Theorem mapPriority_total_classification :
  (forall v : JsValue,
     let s := toLowerCase (toString v) in
     let absent := v = JNull \/ v = JUndefined in
     In (mapPriority v) ["Low"; "Medium"; "High"]
     /\ (~ absent -> In s ["1"; "critical"; "high"] -> mapPriority v = "High")
     /\ (~ absent -> In s ["2"; "medium"; "normal"] -> mapPriority v = "Medium")
     /\ (~ absent -> In s ["3"; "4"; "low"] -> mapPriority v = "Low")
     /\ (absent -> mapPriority v = "Medium")
     /\ (~ In s ["1"; "critical"; "high"; "2"; "medium"; "normal"; "3"; "4"; "low"] ->
         mapPriority v = "Medium"))
  /\ map mapPriority
       [JNum 1; JNum 2; JNum 3; JNum 4; JStr "critical"; JStr "high"; JStr "medium";
        JStr "normal"; JStr "low"; JNull; JUndefined; JStr "unexpected-string";
        JStr "HIGH"; JStr "Critical"; JStr "Normal"; JStr "LOW"]
     = ["High"; "Medium"; "Low"; "Low"; "High"; "High"; "Medium";
        "Medium"; "Low"; "Medium"; "Medium"; "Medium";
        "High"; "High"; "Medium"; "Low"].
Proof.
  split; [|reflexivity].
  intros v s absent.
  assert (Hgen : forall present : ~ absent,
            mapPriority v =
              if str_in s ["1"; "critical"; "high"] then "High"
              else if str_in s ["2"; "medium"; "normal"] then "Medium"
              else if str_in s ["3"; "4"; "low"] then "Low"
              else "Medium").
  { intros present. subst s absent.
    destruct v; try reflexivity; exfalso; apply present; auto. }
  destruct (priority_groups_disjoint s) as [D1 D2].
  refine (conj _ (conj _ (conj _ (conj _ (conj _ _))))).
  - destruct v; try (simpl; tauto);
      (rewrite Hgen by (subst absent; intros [H|H]; discriminate));
      repeat match goal with |- context [if ?b then _ else _] => destruct b end;
      simpl; tauto.
  - intros present H. rewrite (Hgen present).
    apply str_in_In in H. now rewrite H.
  - intros present H. rewrite (Hgen present).
    rewrite (str_in_not_In s ["1"; "critical"; "high"]).
    + apply str_in_In in H. now rewrite H.
    + intros H1. apply (D1 H1). simpl in H |- *. tauto.
  - intros present H. rewrite (Hgen present).
    rewrite (str_in_not_In s ["1"; "critical"; "high"]).
    + rewrite (str_in_not_In s ["2"; "medium"; "normal"]).
      * apply str_in_In in H. now rewrite H.
      * intros H2. apply (D2 H2 H).
    + intros H1. apply (D1 H1). simpl in H |- *. tauto.
  - subst absent. intros [-> | ->]; reflexivity.
  - intros H.
    destruct v; try reflexivity;
      (rewrite Hgen by (subst absent; intros [H0|H0]; discriminate));
      rewrite !str_in_not_In; try reflexivity;
      intros H1; apply H; simpl in H1 |- *; tauto.
Qed.

(** The general clauses at upper-case spellings and at an unknown word. *)
Lemma mapPriority_total_classification_witness :
  mapPriority (JStr "CRITICAL") = "High"
  /\ mapPriority (JStr "Normal") = "Medium"
  /\ mapPriority (JNum 4) = "Low"
  /\ mapPriority JNull = "Medium"
  /\ mapPriority (JStr "urgent") = "Medium".
Proof.
  pose proof (proj1 mapPriority_total_classification) as H.
  refine (conj _ (conj _ (conj _ (conj _ _)))).
  - destruct (H (JStr "CRITICAL")) as (_ & Hhigh & _).
    apply Hhigh; [intros [E|E]; discriminate | simpl; auto].
  - destruct (H (JStr "Normal")) as (_ & _ & Hmedium & _).
    apply Hmedium; [intros [E|E]; discriminate | simpl; auto].
  - destruct (H (JNum 4)) as (_ & _ & _ & Hlow & _).
    apply Hlow; [intros [E|E]; discriminate | simpl; auto].
  - destruct (H JNull) as (_ & _ & _ & _ & Habsent & _).
    apply Habsent. now left.
  - destruct (H (JStr "urgent")) as (_ & _ & _ & _ & _ & Hother).
    apply Hother. simpl.
    intros E. repeat (destruct E as [E|E]; [discriminate|]). exact E.
Defined.

(** ** Feature label *)

Lemma append_assoc (a b c : string) : ((a ++ b) ++ c = a ++ (b ++ c))%string.
Proof. induction a as [|x a IH]; simpl; [reflexivity|now rewrite IH]. Qed.

Lemma split_segments (sep : ascii) (s : string) :
  exists seg segs,
    split sep s = seg :: segs
    /\ Forall (fun x => free_of sep x = true) (seg :: segs)
    /\ join sep (seg :: segs) = s.
Proof.
  induction s as [|c s IH].
  - exists "", []. repeat split; auto.
  - destruct IH as (seg & segs & E & Hfree & Hjoin). simpl. rewrite E.
    destruct (Ascii.eqb c sep) eqn:Ec.
    + apply Ascii.eqb_eq in Ec. subst c.
      exists "", (seg :: segs). repeat split.
      * constructor; auto.
      * simpl in Hjoin |- *. now rewrite Hjoin.
    + exists (String c seg), segs. repeat split.
      * inversion Hfree; subst. constructor; auto. simpl. now rewrite Ec.
      * simpl in Hjoin |- *. destruct segs; simpl; now rewrite <- Hjoin.
Qed.

Lemma last_of_join (sep : ascii) (segments : list string) :
  segments <> [] ->
  Forall (fun x => free_of sep x = true) segments ->
  last_segment_of sep (join sep segments) (last segments "").
Proof.
  induction segments as [|seg rest IH]; [congruence|].
  intros _ Hfree. inversion Hfree as [|? ? Hseg Hrest]; subst.
  destruct rest as [|seg' rest'].
  - split; [assumption|now left].
  - destruct IH as [F [E | [parent E]]]; [discriminate | assumption | |];
      change (last (seg :: seg' :: rest') "") with (last (seg' :: rest') "");
      change (join sep (seg :: seg' :: rest'))
        with (seg ++ String sep (join sep (seg' :: rest')))%string;
      (split; [exact F|]); right.
    + exists seg. now rewrite E.
    + exists (seg ++ String sep parent)%string.
      rewrite E, append_assoc. reflexivity.
Qed.

(** What [path.split(sep).pop()] returns is the last segment of [path]. *)
Lemma pop_split_last_segment (sep : ascii) (path : string) :
  last_segment_of sep path (pop (split sep path)).
Proof.
  destruct (split_segments sep path) as (seg & segs & E & Hfree & Hjoin).
  unfold pop. rewrite E. rewrite <- Hjoin at 1.
  apply last_of_join; [discriminate|assumption].
Qed.

Lemma try_catch_none {A : Type} (body : Exc (option A)) :
  exists r, try_catch body (fun _ => ret None) = inr r.
Proof. destruct body; simpl; eauto. Qed.

Lemma makeApiRequest_response (backend : Backend) (req : Request) (data : option WorkItemData) :
  backend req = AxiosResponse data -> makeApiRequest backend req = inr data.
Proof. intros H. unfold makeApiRequest, axios_get. now rewrite H. Qed.

Lemma makeApiRequest_error (backend : Backend) (req : Request) (message : string) :
  backend req = AxiosError message -> makeApiRequest backend req = inr None.
Proof. intros H. unfold makeApiRequest, axios_get. now rewrite H. Qed.

Lemma str_or_empty (o : option string) (d : string) :
  str_or o "" = "" -> str_or o d = d.
Proof.
  unfold str_or. destruct o as [t|]; [|reflexivity].
  destruct (String.eqb_spec t ""); [reflexivity|contradiction].
Qed.

Lemma str_or_nonempty (o : option string) (d : string) :
  str_or o "" <> "" -> str_or o d = str_or o "".
Proof.
  unfold str_or. destruct o as [t|]; [|contradiction].
  destruct (String.eqb_spec t ""); [contradiction|reflexivity].
Qed.

(** The label is the title even though the requirement has an area path. *)
Lemma feature_label_ignores_area_path :
  ~ (forall (backend : Backend) (userStoryId : Z) (wi : WorkItemData) (us : UserStory.t),
       backend {| workItemId := Some userStoryId; expandRelations := false |}
         = AxiosResponse (Some wi) ->
       fetchUserStory backend userStoryId = inr (Some us) ->
       UserStory.feature us = feature_by_area_path (fields_of wi)).
Proof.
  intros H.
  specialize (H sample_backend 100%Z _ _ eq_refl eq_refl).
  vm_compute in H. discriminate H.
Qed.

(** C4, as the code has it.  The feature label of a fetched requirement is
    its title whenever the title is not empty; only a requirement with an
    empty title is labelled by the last segment of its area path, and with
    neither title nor area path the label is empty. *)
Theorem fetchUserStory_feature_label :
  forall (backend : Backend) (userStoryId : Z) (wi : WorkItemData) (us : UserStory.t),
    backend {| workItemId := Some userStoryId; expandRelations := false |}
      = AxiosResponse (Some wi) ->
    fetchUserStory backend userStoryId = inr (Some us) ->
    let title := str_or (System_Title (fields_of wi)) "" in
    let areaPath := str_or (System_AreaPath (fields_of wi)) "" in
    UserStory.title us = title
    /\ (title <> "" -> UserStory.feature us = title)
    /\ (title = "" -> areaPath <> "" ->
        last_segment_of "\" areaPath (UserStory.feature us))
    /\ (title = "" -> areaPath = "" -> UserStory.feature us = "").
Proof.
  intros backend userStoryId wi us Hresp Hfetch title areaPath.
  unfold fetchUserStory in Hfetch.
  rewrite (makeApiRequest_response _ _ _ Hresp) in Hfetch. simpl in Hfetch.
  fold (fields_of wi) in Hfetch.
  destruct (negb (field_is (System_WorkItemType (fields_of wi)) "User Story"));
    simpl in Hfetch; [discriminate|].
  injection Hfetch as <-. simpl. fold title. fold areaPath.
  refine (conj eq_refl (conj _ (conj _ _))).
  - intros Ht. now apply str_or_nonempty.
  - intros Ht Ha. rewrite (str_or_empty _ _ Ht).
    apply String.eqb_neq in Ha. rewrite Ha.
    apply pop_split_last_segment.
  - intros Ht Ha. rewrite (str_or_empty _ _ Ht). now rewrite Ha.
Qed.

(** Requirement 100 of the sample backend: title Login, area Shop\Accounts. *)
Lemma fetchUserStory_feature_label_witness :
  exists us, fetchUserStory sample_backend 100 = inr (Some us)
             /\ UserStory.feature us = "Login".
Proof.
  eexists. split; [reflexivity|].
  refine (proj1 (proj2 (fetchUserStory_feature_label sample_backend 100%Z _ _
                          eq_refl eq_refl)) _).
  simpl. discriminate.
Defined.

(** ** Coverage statistics *)

Lemma count_status (status : string) (rtmData : list Row.t) :
  count (fun row => Row.Status row =? status) rtmData = status_count status rtmData.
Proof.
  unfold count, status_count.
  induction rtmData as [|row rest IH]; [reflexivity|]. simpl.
  destruct (string_dec (Row.Status row) status) as [E|E].
  - rewrite (proj2 (String.eqb_eq _ _) E). simpl. now rewrite IH.
  - rewrite (proj2 (String.eqb_neq _ _) E). exact IH.
Qed.

Lemma count_le_length (pred : Row.t -> bool) (rtmData : list Row.t) :
  count pred rtmData <= length rtmData.
Proof. apply filter_length_le. Qed.

Lemma f64_eqb_eq (x y : f64) : f64_eqb x y = true -> x = y.
Proof.
  destruct x, y; simpl; try discriminate; intros H.
  - apply Bool.eqb_prop in H. now subst.
  - apply Bool.eqb_prop in H. now subst.
  - reflexivity.
  - apply andb_prop in H as [H He]. apply andb_prop in H as [Hs Hm].
    apply Bool.eqb_prop in Hs. apply Pos.eqb_eq in Hm. apply Z.eqb_eq in He.
    now subst.
Qed.

Lemma percent_checked_100 : percent_checked_upto 100 = true.
Proof. vm_compute. reflexivity. Qed.

Lemma percent_checked_upto_spec (bound : nat) :
  percent_checked_upto bound = true ->
  forall total part : nat,
    1 <= total <= bound -> part <= total -> percent_checked part total = true.
Proof.
  unfold percent_checked_upto. intros H total part Ht Hp.
  rewrite forallb_forall in H.
  assert (Hin : In total (seq 1 bound)) by (apply in_seq; lia).
  specialize (H total Hin). rewrite forallb_forall in H.
  apply H. apply in_seq. lia.
Qed.

Lemma percent_checked_sound (part total : nat) :
  percent_checked part total = true ->
  exists r : Z,
    js_percent part total = f64_of_Z r
    /\ (0 <= r <= 100)%Z
    /\ nearest_percent part total r.
Proof.
  unfold percent_checked. intros H.
  destruct (f64_to_Z (js_percent part total)) as [r|]; [|discriminate].
  exists r.
  repeat (apply andb_prop in H as [H ?]).
  apply f64_eqb_eq in H.
  repeat split; try assumption; unfold nearest_percent; lia.
Qed.

(** Up to a hundred rows the computed percentage is a whole number
    between 0 and 100 nearest to the exact quotient. *)
Lemma js_percent_nearest (part total : nat) :
  1 <= total <= 100 -> part <= total ->
  exists r : Z,
    js_percent part total = f64_of_Z r
    /\ (0 <= r <= 100)%Z
    /\ nearest_percent part total r.
Proof.
  intros Ht Hp. apply percent_checked_sound.
  exact (percent_checked_upto_spec 100 percent_checked_100 total part Ht Hp).
Qed.

(** C8. The coverage percentage of both KPI surfaces is
    [Math.round((covered / total) * 100)] over the number of rows with
    status Covered and the number of rows; it is 0, with no division, for
    the empty matrix, 70 for ten rows of which seven are Covered, and up to
    a hundred rows it is a whole number nearest to the exact quotient. *)
Theorem coverage_percentage_formula :
  forall rtmData : list Row.t,
    let total := length rtmData in
    let covered := status_count "Covered" rtmData in
    let kpi := rtm_download_kpi rtmData in
    Kpi.totalCovered kpi = covered
    /\ Kpi.totalUseCases kpi = total
    /\ nth 8 (exportToExcel_kpi rtmData) []
       = [CText "Coverage %age"; CNumber (Kpi.coveragePercentage kpi)]
    /\ (total = 0 -> Kpi.coveragePercentage kpi = f64_of_Z 0)
    /\ (0 < total ->
        Kpi.coveragePercentage kpi
        = Math_round (f64_mul (f64_div (f64_of_nat covered) (f64_of_nat total))
                              (f64_of_Z 100)))
    /\ (total = 10 -> covered = 7 -> Kpi.coveragePercentage kpi = f64_of_Z 70)
    /\ (total <= 100 ->
        exists r : Z,
          Kpi.coveragePercentage kpi = f64_of_Z r
          /\ (0 <= r <= 100)%Z
          /\ nearest_percent covered total r).
Proof.
  intros rtmData total covered kpi.
  assert (Hc : Kpi.totalCovered kpi = covered) by apply count_status.
  assert (Hpct : Kpi.coveragePercentage kpi
                 = if (0 <? total)%nat then js_percent covered total else f64_of_Z 0).
  { subst kpi covered. unfold rtm_download_kpi. cbn [Kpi.coveragePercentage].
    now rewrite count_status. }
  refine (conj Hc (conj eq_refl (conj _ (conj _ (conj _ (conj _ _)))))).
  - subst kpi. unfold exportToExcel_kpi, rtm_download_kpi. reflexivity.
  - intros H0. rewrite Hpct, H0. reflexivity.
  - intros Hpos. rewrite Hpct.
    destruct (Nat.ltb_spec 0 total) as [_|Hle]; [reflexivity|lia].
  - intros Ht Hcov. rewrite Hpct, Ht, Hcov. vm_compute. reflexivity.
  - intros Hle. rewrite Hpct.
    destruct (Nat.ltb_spec 0 total) as [Hpos|Hzero].
    + apply js_percent_nearest; [lia|].
      subst covered total. rewrite <- count_status. apply count_le_length.
    + exists 0%Z. assert (Hcov : covered = 0).
      { subst covered total. rewrite <- count_status.
        pose proof (count_le_length (fun row => Row.Status row =? "Covered") rtmData).
        lia. }
      repeat split; try lia. unfold nearest_percent. lia.
Qed.

(** Ten rows, seven of them Covered. *)
Lemma coverage_percentage_formula_witness :
  Kpi.coveragePercentage (rtm_download_kpi (sample_matrix 7 3)) = f64_of_Z 70.
Proof.
  refine (proj1 (proj2 (proj2 (proj2 (proj2 (proj2
            (coverage_percentage_formula (sample_matrix 7 3))))))) _ _);
    reflexivity.
Defined.

(** Exact halves may round down: 23 Covered rows of 40 are 57.5 per cent,
    the double product is just below that, and the answer is 57. *)
Lemma coverage_percentage_half_way :
  Kpi.coveragePercentage (rtm_download_kpi (sample_matrix 23 17)) = f64_of_Z 57.
Proof. vm_compute. reflexivity. Qed.

(** C7. The KPI sheet of the Excel export shows, cell by cell, the
    statistics of the JSON answer of [/rtm-download]: modules, use cases,
    the four scenario-type counts, covered rows, coverage percentage, pass
    and fail, overall and for each feature. *)
Theorem kpi_sheet_equals_json_kpi :
  forall rtmData : list Row.t,
    let kpi := rtm_download_kpi rtmData in
    firstn 11 (exportToExcel_kpi rtmData)
    = [ [CText "Overall Coverage"];
        [CText "Total Modules"; CCount (Kpi.totalModules kpi)];
        [CText "Total Uses Cases"; CCount (Kpi.totalUseCases kpi)];
        [CText "Positive"; CCount (Kpi.positive kpi)];
        [CText "Negative"; CCount (Kpi.negative kpi)];
        [CText "Edge Cases"; CCount (Kpi.edgeCases kpi)];
        [CText "Integration"; CCount (Kpi.integration kpi)];
        [CText "Total Covered"; CCount (Kpi.totalCovered kpi)];
        [CText "Coverage %age"; CNumber (Kpi.coveragePercentage kpi)];
        [CText "Pass"; CCount (Kpi.pass kpi)];
        [CText "Fail"; CCount (Kpi.fail kpi)] ]
    /\ skipn 15 (exportToExcel_kpi rtmData)
       = map (fun m =>
                [ CText (ModuleKpi.feature m);
                  CCount (ModuleKpi.totalUseCases m);
                  CCount (ModuleKpi.positiveCovered m);
                  CCount (ModuleKpi.negativeCovered m);
                  CCount (ModuleKpi.edgeCasesCovered m);
                  CCount (ModuleKpi.integrationCovered m);
                  CCount (ModuleKpi.totalCovered m);
                  CNumber (ModuleKpi.coveragePercentage m);
                  CCount (ModuleKpi.pass m);
                  CCount (ModuleKpi.fail m) ])
             (Kpi.moduleWiseCoverage kpi).
Proof.
  intros rtmData kpi. split.
  - reflexivity.
  - subst kpi. unfold exportToExcel_kpi, rtm_download_kpi.
    cbn [Kpi.moduleWiseCoverage skipn app].
    rewrite map_map. reflexivity.
Qed.

(** ** Fetching never throws *)

Lemma fetchUserStory_returns (backend : Backend) (userStoryId : Z) :
  exists r, fetchUserStory backend userStoryId = inr r.
Proof. apply try_catch_none. Qed.

Lemma fetchTestCase_returns (backend : Backend) (testCaseId : option Z) :
  exists r, fetchTestCase backend testCaseId = inr r.
Proof. apply try_catch_none. Qed.

Lemma fetchRelatedTestCases_returns (backend : Backend) (userStoryId : Z) :
  exists r, fetchRelatedTestCases backend userStoryId = inr r.
Proof.
  unfold fetchRelatedTestCases.
  match goal with |- exists r, try_catch ?b _ = _ => destruct b end;
    simpl; eauto.
Qed.

(** Only test cases that were fetched end up in the list: a link whose
    target is missing, or is not a test case, is passed over. *)
Lemma for_relations_fetched (backend : Backend) (relations : list Relation) :
  forall (testCases result : list TestCase.t),
    for_relations backend relations testCases = inr result ->
    forall tc, In tc result ->
      In tc testCases
      \/ exists testCaseId, fetchTestCase backend testCaseId = inr (Some tc).
Proof.
  induction relations as [|relation rest IH]; intros testCases result H tc Hin;
    simpl in H.
  - unfold ret in H. injection H as <-. now left.
  - destruct (negb _); [now apply (IH _ _ H)|].
    destruct (str_or (url relation) "" =? ""); [now apply (IH _ _ H)|].
    destruct (fetchTestCase backend _) as [e|[fetched|]] eqn:Hfetch; simpl in H.
    + discriminate.
    + destruct (IH _ _ H tc Hin) as [Hold|Hnew]; [|now right].
      apply in_app_or in Hold as [Hold|[<-|[]]]; [now left|].
      right. eauto.
    + now apply (IH _ _ H).
Qed.

Lemma fetchRelatedTestCases_fetched (backend : Backend) (userStoryId : Z)
    (testCases : list TestCase.t) :
  fetchRelatedTestCases backend userStoryId = inr testCases ->
  forall tc, In tc testCases ->
    exists testCaseId, fetchTestCase backend testCaseId = inr (Some tc).
Proof.
  unfold fetchRelatedTestCases, ret. intros H tc Hin.
  destruct (makeApiRequest backend _) as [e|[wi|]]; cbn [bind try_catch] in H;
    try (injection H as <-; contradiction).
  destruct (wi_relations wi) as [[|relation rest]|]; cbn [bind try_catch] in H;
    try (injection H as <-; contradiction).
  destruct (for_relations backend (relation :: rest) []) as [e|result] eqn:Hfor;
    cbn [try_catch] in H; injection H as <-; [contradiction|].
  destruct (for_relations_fetched _ _ _ _ Hfor tc Hin) as [[]|Hnew]. exact Hnew.
Qed.

(** ** Acceptance criteria *)

Lemma obj_set_append (criteria : list (nat * string)) (key : nat) (text : string) :
  Forall (fun e => fst e < key) criteria ->
  obj_set criteria key text = criteria ++ [(key, text)].
Proof.
  induction 1 as [|[k v] rest Hk _ IH]; [reflexivity|]. simpl in Hk |- *.
  destruct (Nat.ltb_spec key k); [lia|].
  destruct (Nat.eqb_spec key k); [lia|]. now rewrite IH.
Qed.

Lemma numbered_criteria_above (elements : list string) (index : nat) :
  Forall (fun e => index < fst e) (numbered_criteria index elements).
Proof.
  revert index. induction elements as [|element rest IH]; intros index; [constructor|].
  simpl. apply Forall_app. split.
  - destruct (trim element =? ""); constructor; [simpl; lia|constructor].
  - eapply Forall_impl; [|apply IH]. simpl. intros e He. lia.
Qed.

Lemma each_li_numbered (elements : list string) (index : nat) (criteria : list (nat * string)) :
  Forall (fun e => fst e <= index) criteria ->
  each_li index elements criteria = criteria ++ numbered_criteria index elements.
Proof.
  revert index criteria.
  induction elements as [|element rest IH]; intros index criteria Hbelow.
  - simpl. now rewrite app_nil_r.
  - simpl. destruct (trim element =? "").
    + rewrite IH; [reflexivity|].
      eapply Forall_impl; [|exact Hbelow]. simpl. intros e He. lia.
    + rewrite obj_set_append.
      * rewrite IH; [now rewrite <- app_assoc|].
        apply Forall_app. split.
        -- eapply Forall_impl; [|exact Hbelow]. simpl. intros e He. lia.
        -- constructor; [simpl; lia|constructor].
      * eapply Forall_impl; [|exact Hbelow]. simpl. intros e He. lia.
Qed.

Lemma parseAcceptanceCriterias_numbered (elements : list string) :
  parseAcceptanceCriterias elements = numbered_criteria 0 elements.
Proof. unfold parseAcceptanceCriterias. now rewrite each_li_numbered. Qed.

Lemma numbered_criteria_ascending (elements : list string) (index : nat) :
  StronglySorted lt (map fst (numbered_criteria index elements)).
Proof.
  revert index. induction elements as [|element rest IH]; intros index; [constructor|].
  simpl. destruct (trim element =? ""); simpl; [apply IH|].
  constructor; [apply IH|].
  apply Forall_map. eapply Forall_impl; [|apply numbered_criteria_above].
  simpl. intros e He. lia.
Qed.

(** The criteria of a fetched requirement enumerate in ascending order
    of their numbers. *)
Lemma fetchUserStory_criteria_ascending (backend : Backend) (userStoryId : Z)
    (us : UserStory.t) :
  fetchUserStory backend userStoryId = inr (Some us) ->
  StronglySorted lt (map fst (Object_entries (UserStory.acceptanceCriteria us))).
Proof.
  unfold fetchUserStory. intros H.
  destruct (makeApiRequest backend _) as [e|[wi|]]; simpl in H; try discriminate.
  destruct (negb _); simpl in H; [discriminate|].
  injection H as <-. simpl. unfold Object_entries.
  rewrite parseAcceptanceCriterias_numbered. apply numbered_criteria_ascending.
Qed.

(** ** Grouping by criterion reference *)

Lemma Map_get_set (V : Type) (m : JsMap V) (key k : JsValue) (value : V) :
  Map_get (Map_set m key value) k
  = if sameValueZero key k then Some value else Map_get m k.
Proof.
  induction m as [|[k0 v0] rest IH]; simpl.
  - reflexivity.
  - destruct (sameValueZero k0 key) eqn:E0; simpl.
    + apply sameValueZero_eq in E0. subst k0.
      now destruct (sameValueZero key k).
    + destruct (sameValueZero k0 k) eqn:E1; [|exact IH].
      apply sameValueZero_eq in E1. subst k0. now rewrite sameValueZero_sym, E0.
Qed.

Lemma group_lookup (testCases : list TestCase.t) (acc : JsMap (list TestCase.t)) (k : JsValue) :
  or_empty
    (Map_get
       (fold_left
          (fun acc testCase =>
             let acNo := TestCase.acceptanceCriteria testCase in
             Map_set acc acNo (or_empty (Map_get acc acNo) ++ [testCase]))
          testCases acc) k)
  = or_empty (Map_get acc k)
    ++ filter (fun tc => sameValueZero (TestCase.acceptanceCriteria tc) k) testCases.
Proof.
  revert acc. induction testCases as [|tc rest IH]; intros acc; simpl.
  - now rewrite app_nil_r.
  - rewrite IH, Map_get_set.
    destruct (sameValueZero (TestCase.acceptanceCriteria tc) k) eqn:E; simpl.
    + apply sameValueZero_eq in E. rewrite E. now rewrite <- app_assoc.
    + reflexivity.
Qed.

(** What the lookup [testCasesMap.get(Number(acNo)) || []] finds: the test
    cases whose reference is that very number, in fetched order. *)
Lemma group_test_cases_lookup (testCases : list TestCase.t) (n : nat) :
  or_empty (Map_get (group_test_cases testCases) (JNum (Z.of_nat n)))
  = grouped_under n testCases.
Proof. unfold group_test_cases. now rewrite group_lookup. Qed.

Lemma grouped_under_reference (testCases : list TestCase.t) (n : nat) (tc : TestCase.t) :
  In tc (grouped_under n testCases) <->
  In tc testCases /\ TestCase.acceptanceCriteria tc = JNum (Z.of_nat n).
Proof.
  unfold grouped_under. rewrite filter_In. now rewrite sameValueZero_eq.
Qed.

Lemma grouped_under_numbers (testCases : list TestCase.t) (n : nat) :
  grouped_under n (filter has_number_reference testCases) = grouped_under n testCases.
Proof.
  unfold grouped_under. induction testCases as [|tc rest IH]; [reflexivity|].
  simpl. destruct (has_number_reference tc) eqn:Hn; simpl.
  - now rewrite IH.
  - rewrite IH. unfold has_number_reference in Hn.
    destruct (TestCase.acceptanceCriteria tc); try discriminate; reflexivity.
Qed.

(** ** Rows of one requirement *)

Lemma fold_left_push (A B : Type) (f : A -> B) (l : list A) (acc : list B) :
  fold_left (fun rows x => rows ++ [f x]) l acc = acc ++ map f l.
Proof.
  revert acc. induction l as [|x l IH]; intros acc; simpl.
  - now rewrite app_nil_r.
  - rewrite IH. now rewrite <- app_assoc.
Qed.

Lemma for_criterion_rows (userStoryId : Z) (us : UserStory.t)
    (testCases : list TestCase.t) (rtmData : list Row.t) (entry : nat * string) :
  for_criterion userStoryId us (group_test_cases testCases) rtmData entry
  = rtmData ++ criterion_rows userStoryId us testCases entry.
Proof.
  destruct entry as [acNo criteria]. unfold for_criterion, criterion_rows.
  rewrite group_test_cases_lookup. simpl fst. simpl snd.
  destruct (grouped_under acNo testCases) as [|tc group]; [reflexivity|].
  cbn [length Nat.eqb].
  rewrite (fold_left_push _ _
             (fun testCase =>
                {| Row.UserStoryID := userStoryId;
                   Row.Feature := UserStory.title us;
                   Row.ScenarioType := or_str (TestCase.scenarioType testCase) "Functional";
                   Row.Description :=
                     or_str (TestCase.description testCase) (TestCase.title testCase);
                   Row.TestCaseID := JNum (TestCase.id testCase);
                   Row.Status := "Covered";
                   Row.Priority := mapPriority (TestCase.priority testCase);
                   Row.Execution := TestCase.executionStatus testCase |})).
  f_equal. apply map_ext. intros testCase. unfold covered_row, or_str.
  now destruct (TestCase.scenarioType testCase), (TestCase.description testCase).
Qed.

Lemma for_each_criterion_rows (userStoryId : Z) (us : UserStory.t)
    (testCases : list TestCase.t) (entries : list (nat * string)) (rtmData : list Row.t) :
  fold_left (for_criterion userStoryId us (group_test_cases testCases)) entries rtmData
  = rtmData ++ flat_map (criterion_rows userStoryId us testCases) entries.
Proof.
  revert rtmData. induction entries as [|entry rest IH]; intros rtmData; simpl.
  - now rewrite app_nil_r.
  - rewrite IH, for_criterion_rows. now rewrite <- app_assoc.
Qed.

(** The three ways a requirement goes through the worker. *)
Lemma process_user_story_skipped (backend : Backend) (userStoryId : Z) (index : nat)
    (rtmData : list Row.t) :
  fetchUserStory backend userStoryId = inr None ->
  process_user_story backend userStoryId index rtmData = inr rtmData.
Proof. intros H. unfold process_user_story. now rewrite H. Qed.

Lemma process_user_story_unlinked (backend : Backend) (userStoryId : Z) (index : nat)
    (rtmData : list Row.t) (us : UserStory.t) :
  fetchUserStory backend userStoryId = inr (Some us) ->
  fetchRelatedTestCases backend userStoryId = inr [] ->
  process_user_story backend userStoryId index rtmData
  = inr (rtmData ++ [unlinked_row userStoryId us]).
Proof. intros H1 H2. unfold process_user_story. now rewrite H1, H2. Qed.

Lemma process_user_story_linked (backend : Backend) (userStoryId : Z) (index : nat)
    (rtmData : list Row.t) (us : UserStory.t) (testCases : list TestCase.t) :
  fetchUserStory backend userStoryId = inr (Some us) ->
  fetchRelatedTestCases backend userStoryId = inr testCases ->
  testCases <> [] ->
  process_user_story backend userStoryId index rtmData
  = inr (rtmData
         ++ flat_map (criterion_rows userStoryId us testCases)
              (UserStory.acceptanceCriteria us)).
Proof.
  intros H1 H2 Hne. unfold process_user_story. rewrite H1, H2. simpl.
  destruct testCases as [|tc rest]; [contradiction|].
  cbn [length Nat.eqb]. unfold ret, Object_entries.
  now rewrite for_each_criterion_rows.
Qed.

(** The worker never throws, and it only appends to the matrix. *)
Lemma process_user_story_appends (backend : Backend) (userStoryId : Z) (index : nat)
    (rtmData : list Row.t) :
  process_user_story backend userStoryId index rtmData
  = inr (rtmData ++ story_rows backend userStoryId).
Proof.
  unfold story_rows.
  destruct (fetchUserStory_returns backend userStoryId) as [[us|] Hus].
  - destruct (fetchRelatedTestCases_returns backend userStoryId) as [[|tc rest] Htc].
    + rewrite !(process_user_story_unlinked _ _ _ _ _ Hus Htc). reflexivity.
    + rewrite !(process_user_story_linked _ _ _ _ _ _ Hus Htc) by discriminate.
      reflexivity.
  - rewrite !(process_user_story_skipped _ _ _ _ Hus). now rewrite app_nil_r.
Qed.

(** One requirement alone: whatever the schedule, the matrix is what the
    worker pushes for it. *)
Lemma generateRTM_single (backend : Backend) (userStoryId : Z) (sched : list nat) :
  userStoryId <> 0%Z ->
  generateRTM backend [userStoryId] sched = inr (story_rows backend userStoryId).
Proof.
  intros Hid. unfold generateRTM, parallel, parallel_pool.
  destruct userStoryId as [|id|id]; [contradiction| |];
    cbv -[process_user_story story_rows Nat.modulo];
    rewrite Nat.mod_1_r;
    cbv -[process_user_story story_rows Nat.modulo];
    rewrite (process_user_story_appends backend _ 0 []);
    reflexivity.
Qed.

(** ** Raw priorities *)

(** The default that the fetches put in place of a missing priority does
    not change its class. *)
Lemma mapPriority_default (v : JsValue) :
  mapPriority (js_or v (JStr "Medium")) = mapPriority v.
Proof.
  unfold js_or. destruct (truthy v) eqn:Hv; [reflexivity|].
  destruct v as [| |[|]|n|s]; simpl in Hv; try discriminate; try reflexivity.
  - apply negb_false_iff, Z.eqb_eq in Hv. now subst n.
  - apply negb_false_iff, String.eqb_eq in Hv. now subst s.
Qed.

Lemma fetchUserStory_priority (backend : Backend) (userStoryId : Z)
    (wi : WorkItemData) (us : UserStory.t) :
  backend {| workItemId := Some userStoryId; expandRelations := false |}
    = AxiosResponse (Some wi) ->
  fetchUserStory backend userStoryId = inr (Some us) ->
  mapPriority (UserStory.priority us) = mapPriority (Common_Priority (fields_of wi)).
Proof.
  intros Hresp Hfetch. unfold fetchUserStory in Hfetch.
  rewrite (makeApiRequest_response _ _ _ Hresp) in Hfetch. simpl in Hfetch.
  fold (fields_of wi) in Hfetch.
  destruct (negb _); simpl in Hfetch; [discriminate|].
  injection Hfetch as <-. simpl. apply mapPriority_default.
Qed.

Lemma fetchTestCase_priority (backend : Backend) (testCaseId : option Z)
    (wi : WorkItemData) (tc : TestCase.t) :
  backend {| workItemId := testCaseId; expandRelations := false |}
    = AxiosResponse (Some wi) ->
  fetchTestCase backend testCaseId = inr (Some tc) ->
  mapPriority (TestCase.priority tc) = mapPriority (Common_Priority (fields_of wi)).
Proof.
  intros Hresp Hfetch. unfold fetchTestCase in Hfetch.
  rewrite (makeApiRequest_response _ _ _ Hresp) in Hfetch. simpl in Hfetch.
  fold (fields_of wi) in Hfetch.
  destruct (negb _); simpl in Hfetch; [discriminate|].
  injection Hfetch as <-. simpl. apply mapPriority_default.
Qed.

(** ** The runner *)

Section RunnerFacts.
Context {T St : Type}.
Variable is_truthy : T -> bool.
Variable fn : T -> nat -> St -> Exc St.
Variable items : list T.

Lemma next_call_some (rest : list T) :
  forall (index : nat) (item : T) (i position : nat),
    next_call is_truthy rest index = (Some (item, i), position) ->
    exists skipped rest',
      rest = skipped ++ item :: rest'
      /\ filter is_truthy skipped = []
      /\ is_truthy item = true
      /\ i = index + length skipped
      /\ position = S i.
Proof.
  induction rest as [|x rest IH]; intros index item i position H; simpl in H.
  - discriminate.
  - destruct (is_truthy x) eqn:Hx.
    + injection H as <- <- <-. exists [], rest. simpl. repeat split; auto.
    + apply IH in H as (skipped & rest' & -> & Hs & Hi & -> & ->).
      exists (x :: skipped), rest'. simpl. rewrite Hx.
      repeat split; auto; lia.
Qed.

Lemma next_call_none (rest : list T) :
  forall (index position : nat),
    next_call is_truthy rest index = (None, position) ->
    filter is_truthy rest = [] /\ position = index + length rest.
Proof.
  induction rest as [|x rest IH]; intros index position H; simpl in H.
  - injection H as <-. split; [reflexivity|simpl; lia].
  - destruct (is_truthy x) eqn:Hx; [discriminate|].
    apply IH in H as [Hf ->]. simpl. rewrite Hx. split; [assumption|lia].
Qed.

Lemma index_from_app (a b : list T) (k : nat) :
  index_from k (a ++ b) = index_from k a ++ index_from (k + length a) b.
Proof.
  unfold index_from. revert k. induction a as [|x a IH]; intros k; simpl.
  - now rewrite Nat.add_0_r.
  - rewrite IH. now rewrite Nat.add_succ_r.
Qed.

Lemma truthy_calls_items (l : list T) (k : nat) :
  map fst (truthy_calls is_truthy (index_from k l)) = filter is_truthy l.
Proof.
  unfold truthy_calls, index_from. revert k.
  induction l as [|x l IH]; intros k; simpl; [reflexivity|].
  destruct (is_truthy x); simpl; now rewrite IH.
Qed.

Lemma truthy_calls_none (l : list T) (k : nat) :
  filter is_truthy l = [] -> truthy_calls is_truthy (index_from k l) = [].
Proof.
  intros H. apply map_eq_nil with (f := fst). now rewrite truthy_calls_items.
Qed.

Lemma truthy_calls_app (a b : list (T * nat)) :
  truthy_calls is_truthy (a ++ b)
  = truthy_calls is_truthy a ++ truthy_calls is_truthy b.
Proof. apply filter_app. Qed.

(** What one run of a worker's loop does to the pool. *)
Lemma loop_spec (p p' : @Pool T St) (state : Worker) :
  pool_inv is_truthy items p ->
  loop is_truthy items p = (state, p') ->
  exists done rest,
    items = done ++ rest
    /\ p' = {| cursor := length done; workers := workers p;
               calls := truthy_calls is_truthy (index_from 0 done);
               completed := completed p; shared := shared p;
               rejection := rejection p |}
    /\ ((exists item i,
           state = Awaiting item i
           /\ truthy_calls is_truthy (index_from 0 done) = calls p ++ [(item, i)]
           /\ length (filter is_truthy (skipn (cursor p) items))
              = S (length (filter is_truthy rest))
           /\ ~ In Finished (workers p))
        \/ (state = Finished
            /\ rest = []
            /\ truthy_calls is_truthy (index_from 0 done) = calls p
            /\ filter is_truthy (skipn (cursor p) items) = [])).
Proof.
  intros (done & rest & Hitems & Hcur & Hcalls & Hfin) Hloop.
  unfold loop in Hloop.
  assert (Hskip : skipn (cursor p) items = rest).
  { rewrite Hitems, Hcur. rewrite skipn_app, Nat.sub_diag, skipn_all. reflexivity. }
  rewrite Hskip in Hloop.
  destruct (next_call is_truthy rest (cursor p)) as [[[item i]|] position] eqn:Hnext.
  - injection Hloop as <- <-.
    apply next_call_some in Hnext as (skipped & rest' & -> & Hs & Hi & -> & ->).
    assert (Hnew : truthy_calls is_truthy (index_from 0 (done ++ skipped ++ [item]))
                   = calls p ++ [(item, cursor p + length skipped)]).
    { rewrite Hcalls, index_from_app, truthy_calls_app.
      rewrite index_from_app, truthy_calls_app, (truthy_calls_none skipped) by assumption.
      unfold index_from at 2. unfold truthy_calls at 2. simpl. rewrite Hi.
      rewrite Hcur. reflexivity. }
    exists (done ++ skipped ++ [item]), rest'.
    split; [rewrite Hitems; now rewrite <- !app_assoc|].
    split.
    + rewrite Hnew. f_equal. rewrite !length_app. simpl. lia.
    + left. exists item, (cursor p + length skipped).
      split; [reflexivity|]. split; [exact Hnew|]. split.
      * rewrite Hskip, filter_app, Hs. simpl. now rewrite Hi.
      * intros H. apply Hfin in H. destruct skipped; discriminate.
  - injection Hloop as <- <-.
    apply next_call_none in Hnext as [Hf ->].
    assert (Hnew : truthy_calls is_truthy (index_from 0 (done ++ rest)) = calls p).
    { rewrite index_from_app, truthy_calls_app, (truthy_calls_none rest) by assumption.
      now rewrite app_nil_r. }
    exists (done ++ rest), [].
    split; [now rewrite app_nil_r|]. split.
    + rewrite Hnew. f_equal. rewrite length_app. lia.
    + right. repeat split; [exact Hnew|now rewrite Hskip].
Qed.

Lemma set_nth_length (w : nat) (state : @Worker T) (ws : list Worker) :
  length (set_nth w state ws) = length ws.
Proof.
  revert w. induction ws as [|x ws IH]; intros [|w]; simpl; auto.
Qed.

Lemma set_nth_In (w : nat) (state x : @Worker T) (ws : list Worker) :
  In x (set_nth w state ws) -> x = state \/ In x ws.
Proof.
  revert w. induction ws as [|y ws IH]; intros [|w]; simpl; try tauto.
  - intros [H|H]; auto.
  - intros [H|H]; auto. apply IH in H. tauto.
Qed.

Lemma set_nth_pending (w : nat) (state old : @Worker T) (ws : list Worker) :
  nth_error ws w = Some old ->
  pending_count (set_nth w state ws) + (if is_awaiting old then 1 else 0)
  = pending_count ws + (if is_awaiting state then 1 else 0).
Proof.
  unfold pending_count. revert w.
  induction ws as [|y ws IH]; intros [|w] H; simpl in H; try discriminate.
  - injection H as ->. simpl.
    destruct (is_awaiting old), (is_awaiting state); simpl; lia.
  - apply IH in H. simpl. destruct (is_awaiting y); simpl; lia.
Qed.

Lemma awaiting_from_length (ws : list (@Worker T)) (k : nat) :
  length (awaiting_from k ws) = pending_count ws.
Proof.
  unfold pending_count. revert k.
  induction ws as [|y ws IH]; intros k; simpl; [reflexivity|].
  destruct (is_awaiting y); simpl; now rewrite IH.
Qed.

Lemma awaiting_from_In (ws : list (@Worker T)) (k w : nat) :
  In w (awaiting_from k ws) ->
  exists item index, k <= w /\ nth_error ws (w - k) = Some (Awaiting item index).
Proof.
  revert k. induction ws as [|y ws IH]; intros k H; simpl in H; [contradiction|].
  assert (Hrest : In w (awaiting_from (S k) ws) ->
                  exists item index,
                    k <= w /\ nth_error (y :: ws) (w - k) = Some (Awaiting item index)).
  { intros H'. apply IH in H' as (item & index & Hle & Hnth).
    exists item, index. split; [lia|].
    replace (w - k) with (S (w - S k)) by lia. exact Hnth. }
  destruct y as [item index| |e]; simpl in H; auto.
  destruct H as [<-|H]; auto.
  exists item, index. split; [lia|]. now rewrite Nat.sub_diag.
Qed.

(** One more worker starts: the invariant stays, no call is lost. *)
Lemma spawn_spec (limit : nat) :
  forall p : @Pool T St,
    pool_inv is_truthy items p ->
    let p' := spawn is_truthy items limit p in
    pool_inv is_truthy items p'
    /\ length (workers p') = length (workers p) + limit
    /\ shared p' = shared p
    /\ rejection p' = rejection p
    /\ calls_left is_truthy items p' = calls_left is_truthy items p
    /\ (forall e, In (Rejected e) (workers p') -> In (Rejected e) (workers p)).
Proof.
  induction limit as [|limit IH]; intros p Hinv; simpl.
  - repeat split; auto.
  - destruct (loop is_truthy items p) as [state p1] eqn:Hloop.
    destruct (loop_spec _ _ _ Hinv Hloop) as (done & rest & Hitems & -> & Hcase).
    match goal with |- context [spawn _ _ limit ?q] => set (p2 := q) end.
    assert (Hinv2 : pool_inv is_truthy items p2).
    { exists done, rest. subst p2. simpl. repeat split; auto.
      intros Hin. apply in_app_or in Hin as [Hin|[Hin|[]]].
      - destruct Hcase as [(item & i & _ & _ & _ & Hno)|(_ & Hrest & _)]; tauto.
      - destruct Hcase as [(item & i & -> & _)|(_ & Hrest & _)];
          [discriminate|assumption]. }
    destruct (IH p2 Hinv2) as (H1 & H2 & H3 & H4 & H5 & H6).
    refine (conj H1 (conj _ (conj H3 (conj H4 (conj _ _))))).
    + rewrite H2. subst p2. simpl. rewrite length_app. simpl. lia.
    + rewrite H5. subst p2. unfold calls_left, pending_count. simpl.
      rewrite filter_app, length_app. rewrite Hitems at 1.
      rewrite skipn_app, Nat.sub_diag, skipn_all. simpl.
      destruct Hcase as [(item & i & -> & _ & Hlen & _)|(-> & -> & _ & Hnone)]; simpl.
      * rewrite Hlen. lia.
      * rewrite Hnone. simpl. lia.
    + intros e Hin. apply H6 in Hin. subst p2. simpl in Hin.
      apply in_app_or in Hin as [Hin|[Hin|[]]]; [assumption|].
      destruct Hcase as [(item & i & -> & _)|(-> & _)]; discriminate.
Qed.

(** A pending call settles: the invariant stays and one call fewer is
    left; the shared state moves by [fn] or not at all. *)
Lemma settle_spec (w : nat) (p : @Pool T St) (item : T) (index : nat) :
  pool_inv is_truthy items p ->
  nth_error (workers p) w = Some (Awaiting item index) ->
  let p' := settle is_truthy fn items w p in
  pool_inv is_truthy items p'
  /\ length (workers p') = length (workers p)
  /\ S (calls_left is_truthy items p') = calls_left is_truthy items p
  /\ ((exists s', fn item index (shared p) = inr s'
                  /\ shared p' = s' /\ rejection p' = rejection p
                  /\ (forall e, In (Rejected e) (workers p') ->
                                In (Rejected e) (workers p)))
      \/ (exists e, fn item index (shared p) = inl e /\ shared p' = shared p)).
Proof.
  intros Hinv Hw. unfold settle. rewrite Hw.
  destruct (fn item index (shared p)) as [e|s'] eqn:Hfn.
  - (* the call rejects *)
    simpl. refine (conj _ (conj _ (conj _ _))).
    + destruct Hinv as (done & rest & H1 & H2 & H3 & H4).
      exists done, rest. simpl. repeat split; auto.
      intros Hin. apply set_nth_In in Hin as [Hin|Hin]; [discriminate|auto].
    + apply set_nth_length.
    + unfold calls_left. simpl.
      pose proof (set_nth_pending w (Rejected e) _ _ Hw) as H. simpl in H. lia.
    + right. exists e. auto.
  - (* the call is fulfilled and the worker loops on *)
    match goal with |- context [loop _ _ ?q] => set (p1 := q) end.
    assert (Hinv1 : pool_inv is_truthy items p1).
    { destruct Hinv as (done & rest & H1 & H2 & H3 & H4).
      exists done, rest. subst p1. simpl. auto. }
    destruct (loop is_truthy items p1) as [state p2] eqn:Hloop.
    destruct (loop_spec _ _ _ Hinv1 Hloop) as (done & rest & Hitems & -> & Hcase).
    subst p1. simpl in *.
    refine (conj _ (conj _ (conj _ _))).
    + exists done, rest. simpl. repeat split; auto.
      intros Hin. apply set_nth_In in Hin as [Hin|Hin].
      * destruct Hcase as [(it & i & -> & _)|(_ & Hrest & _)];
          [discriminate|assumption].
      * destruct Hcase as [(it & i & _ & _ & _ & Hno)|(_ & Hrest & _)]; tauto.
    + apply set_nth_length.
    + unfold calls_left. simpl.
      pose proof (set_nth_pending w state _ _ Hw) as H. simpl in H.
      rewrite Hitems at 1. rewrite skipn_app, Nat.sub_diag, skipn_all. simpl.
      destruct Hcase as [(it & i & -> & _ & Hlen & _)|(-> & -> & _ & Hnone)];
        simpl in H.
      * rewrite Hlen. lia.
      * rewrite Hnone. simpl. lia.
    + left. exists s'. repeat split; auto.
      intros e Hin. apply set_nth_In in Hin as [Hin|Hin]; [|assumption].
      destruct Hcase as [(it & i & -> & _)|(-> & _)]; discriminate.
Qed.

(** The worker the schedule picks is one that waits. *)
Lemma picked_is_pending (ws : list (@Worker T)) (k : nat) :
  awaiting_from 0 ws <> [] ->
  exists item index,
    nth_error ws (nth (k mod length (awaiting_from 0 ws)) (awaiting_from 0 ws) 0)
    = Some (Awaiting item index).
Proof.
  intros Hne.
  assert (Hin : In (nth (k mod length (awaiting_from 0 ws)) (awaiting_from 0 ws) 0)
                   (awaiting_from 0 ws)).
  { apply nth_In. apply Nat.mod_upper_bound.
    destruct (awaiting_from 0 ws); [contradiction|discriminate]. }
  apply awaiting_from_In in Hin as (item & index & _ & Hnth).
  rewrite Nat.sub_0_r in Hnth. eauto.
Qed.

(** One turn of the event loop: nothing is pending and the pool stays, or
    the call of some waiting worker settles. *)
Lemma run_step (fuel : nat) (sched : list nat) (p : @Pool T St) :
  (pending_count (workers p) = 0
   /\ run is_truthy fn items (S fuel) sched p = p)
  \/ (exists w item index,
        nth_error (workers p) w = Some (Awaiting item index)
        /\ run is_truthy fn items (S fuel) sched p
           = run is_truthy fn items fuel (tl sched) (settle is_truthy fn items w p)).
Proof.
  cbn [run].
  pose proof (picked_is_pending (workers p) (hd 0 sched)) as Hpick.
  pose proof (awaiting_from_length (workers p) 0) as Hlen.
  destruct (awaiting_from 0 (workers p)) as [|w0 pending].
  - left. split; [now rewrite <- Hlen|reflexivity].
  - right. destruct Hpick as (item & index & Hw); [discriminate|].
    eexists. exists item, index. split; [exact Hw|reflexivity].
Qed.

(** The event loop keeps the invariant, never adds or drops a worker,
    and with enough steps leaves no call pending. *)
Lemma run_spec (fuel : nat) :
  forall (sched : list nat) (p : @Pool T St),
    pool_inv is_truthy items p ->
    let p' := run is_truthy fn items fuel sched p in
    pool_inv is_truthy items p'
    /\ length (workers p') = length (workers p)
    /\ (calls_left is_truthy items p <= fuel -> quiescent p').
Proof.
  induction fuel as [|fuel IH]; intros sched p Hinv.
  - simpl. repeat split; auto. unfold quiescent, calls_left. lia.
  - cbv zeta.
    destruct (run_step fuel sched p) as [[Hq ->]|(w & item & index & Hw & ->)].
    + repeat split; auto.
    + destruct (settle_spec _ _ _ _ Hinv Hw) as (H1 & H2 & H3 & _).
      destruct (IH (tl sched) _ H1) as (I1 & I2 & I3).
      refine (conj I1 (conj _ _)).
      * now rewrite I2.
      * intros Hle. apply I3. lia.
Qed.

(** The shared state only moves by fulfilled calls of [fn]. *)
Lemma run_shared (Inv : St -> Prop) :
  (forall item index s s', Inv s -> fn item index s = inr s' -> Inv s') ->
  forall (fuel : nat) (sched : list nat) (p : @Pool T St),
    pool_inv is_truthy items p ->
    Inv (shared p) ->
    Inv (shared (run is_truthy fn items fuel sched p)).
Proof.
  intros Hfn. induction fuel as [|fuel IH]; intros sched p Hinv Hs; [assumption|].
  destruct (run_step fuel sched p) as [[Hq ->]|(w & item & index & Hw & ->)];
    [assumption|].
  destruct (settle_spec _ _ _ _ Hinv Hw) as (H1 & _ & _ & Hcase).
  apply IH; [assumption|].
  destruct Hcase as [(s' & Hcall & -> & _)|(e & _ & ->)]; [|assumption].
  eapply Hfn; eassumption.
Qed.

(** A worker function that never throws is never seen rejecting. *)
Lemma run_no_rejection :
  (forall item index s, exists s', fn item index s = inr s') ->
  forall (fuel : nat) (sched : list nat) (p : @Pool T St),
    pool_inv is_truthy items p ->
    rejection p = None ->
    (forall e, ~ In (Rejected e) (workers p)) ->
    let p' := run is_truthy fn items fuel sched p in
    rejection p' = None /\ (forall e, ~ In (Rejected e) (workers p')).
Proof.
  intros Hfn. induction fuel as [|fuel IH]; intros sched p Hinv Hrej Hws; [simpl; auto|].
  cbv zeta.
  destruct (run_step fuel sched p) as [[Hq ->]|(w & item & index & Hw & ->)]; [auto|].
  destruct (settle_spec _ _ _ _ Hinv Hw) as (H1 & _ & _ & Hcase).
  destruct Hcase as [(s' & _ & _ & Hr & Hin)|(e & Hcall & _)].
  - apply IH; [assumption|congruence|].
    intros e He. apply (Hws e). auto.
  - destruct (Hfn item index (shared p)) as [s' Hs']. congruence.
Qed.

Lemma quiescent_workers (ws : list (@Worker T)) :
  pending_count ws = 0 ->
  (forall e, ~ In (Rejected e) ws) ->
  Forall (fun state => state = Finished) ws.
Proof.
  unfold pending_count. induction ws as [|[item index| |e] ws IH]; intros Hq Hrej.
  - constructor.
  - discriminate.
  - constructor; [reflexivity|]. apply IH; [exact Hq|].
    intros e He. apply (Hrej e). now right.
  - exfalso. apply (Hrej e). now left.
Qed.

Lemma initial_pool_inv (s0 : St) :
  pool_inv is_truthy items
    {| cursor := 0; workers := []; calls := []; completed := [];
       shared := s0; rejection := None |}.
Proof. exists [], items. simpl. repeat split; auto. contradiction. Qed.

(** Every call of [parallel] comes to rest: within [length items] steps
    no worker waits any more. *)
Lemma parallel_pool_settles (limit : nat) (sched : list nat) (s0 : St) :
  let p := parallel_pool is_truthy fn items limit sched s0 in
  pool_inv is_truthy items p
  /\ length (workers p) = limit
  /\ quiescent p.
Proof.
  unfold parallel_pool.
  destruct (spawn_spec limit _ (initial_pool_inv s0)) as (H1 & H2 & _ & _ & H5 & _).
  destruct (run_spec (length items) sched _ H1) as (I1 & I2 & I3).
  refine (conj I1 (conj _ _)).
  - rewrite I2, H2. reflexivity.
  - apply I3. rewrite H5. unfold calls_left, pending_count. simpl.
    apply filter_length_le.
Qed.

(** When the promise of [parallel] is fulfilled, the calls of [fn] that
    were started are exactly one for each truthy item, in list order. *)
Lemma resolved_calls (limit : nat) (sched : list nat) (s0 : St) :
  0 < limit ->
  let p := parallel_pool is_truthy fn items limit sched s0 in
  resolved p ->
  calls p = truthy_calls is_truthy (indexed items).
Proof.
  intros Hlimit p [_ Hres].
  destruct (parallel_pool_settles limit sched s0) as (Hinv & Hlen & _).
  fold p in Hinv, Hlen.
  destruct Hinv as (done & rest & Hitems & _ & Hcalls & Hfin).
  assert (Hrest : rest = []).
  { apply Hfin. destruct (workers p) as [|state ws]; [simpl in Hlen; lia|].
    inversion Hres; subst. now left. }
  subst rest. rewrite app_nil_r in Hitems. subst done. exact Hcalls.
Qed.

(** With a worker function that never throws, the promise is fulfilled. *)
Lemma parallel_resolves (limit : nat) (sched : list nat) (s0 : St) :
  (forall item index s, exists s', fn item index s = inr s') ->
  resolved (parallel_pool is_truthy fn items limit sched s0).
Proof.
  intros Hfn.
  destruct (parallel_pool_settles limit sched s0) as (_ & _ & Hq).
  unfold parallel_pool in *.
  destruct (spawn_spec limit _ (initial_pool_inv s0)) as (H1 & _ & _ & H4 & _ & H6).
  destruct (run_no_rejection Hfn (length items) sched _ H1 H4) as [Hrej Hws].
  { intros e He. apply H6 in He. contradiction. }
  split; [exact Hrej|]. now apply quiescent_workers.
Qed.

Lemma parallel_shared (Inv : St -> Prop) (limit : nat) (sched : list nat) (s0 : St) :
  (forall item index s s', Inv s -> fn item index s = inr s' -> Inv s') ->
  Inv s0 ->
  Inv (shared (parallel_pool is_truthy fn items limit sched s0)).
Proof.
  intros Hfn H0. unfold parallel_pool.
  destruct (spawn_spec limit _ (initial_pool_inv s0)) as (H1 & _ & H3 & _).
  apply (run_shared Inv Hfn); [assumption|]. now rewrite H3.
Qed.

(** *** Completion order *)

Lemma pending_calls_set_nth (w : nat) (state old : @Worker T) (ws : list Worker) :
  nth_error ws w = Some old ->
  Permutation (call_of old ++ pending_calls (set_nth w state ws))
              (call_of state ++ pending_calls ws).
Proof.
  unfold pending_calls. revert w.
  induction ws as [|y ws IH]; intros [|w] H; simpl in H; try discriminate.
  - injection H as ->. simpl. apply Permutation_app_swap_app.
  - apply IH in H. simpl.
    rewrite Permutation_app_swap_app, H.
    apply Permutation_app_swap_app.
Qed.

Lemma pending_calls_quiescent (ws : list (@Worker T)) :
  pending_count ws = 0 -> pending_calls ws = [].
Proof.
  unfold pending_count, pending_calls.
  induction ws as [|[item index| |e] ws IH]; simpl; intros H;
    try discriminate; auto.
Qed.

Lemma replay_app (cs cs' : list (T * nat)) (s : St) :
  replay fn (cs ++ cs') s = replay fn cs' (replay fn cs s).
Proof. apply fold_left_app. Qed.

Hypothesis fn_returns : forall item index s, exists s', fn item index s = inr s'.

Lemma spawn_ledger (s0 : St) (limit : nat) :
  forall p : @Pool T St,
    pool_inv is_truthy items p ->
    ledger fn s0 p ->
    ledger fn s0 (spawn is_truthy items limit p).
Proof.
  induction limit as [|limit IH]; intros p Hinv [Hperm Hshared]; simpl.
  - now split.
  - destruct (loop is_truthy items p) as [state p1] eqn:Hloop.
    destruct (loop_spec _ _ _ Hinv Hloop) as (done & rest & Hitems & -> & Hcase).
    apply IH.
    + exists done, rest. simpl. repeat split; auto.
      intros Hin. apply in_app_or in Hin as [Hin|[Hin|[]]].
      * destruct Hcase as [(item & i & _ & _ & _ & Hno)|(_ & Hrest & _)]; tauto.
      * destruct Hcase as [(item & i & -> & _)|(_ & Hrest & _)];
          [discriminate|assumption].
    + split; simpl; [|assumption].
      unfold pending_calls. rewrite flat_map_app. simpl. rewrite app_nil_r.
      destruct Hcase as [(item & i & -> & -> & _)|(-> & _ & -> & _)]; simpl.
      * rewrite app_assoc. now apply Permutation_app_tail.
      * now rewrite app_nil_r.
Qed.

Lemma settle_ledger (s0 : St) (w : nat) (p : @Pool T St) (item : T) (index : nat) :
  pool_inv is_truthy items p ->
  nth_error (workers p) w = Some (Awaiting item index) ->
  ledger fn s0 p ->
  ledger fn s0 (settle is_truthy fn items w p).
Proof.
  intros Hinv Hw [Hperm Hshared]. unfold settle. rewrite Hw.
  destruct (fn_returns item index (shared p)) as [s' Hfn]. rewrite Hfn.
  match goal with |- context [loop _ _ ?q] => set (p1 := q) end.
  assert (Hinv1 : pool_inv is_truthy items p1).
  { destruct Hinv as (done & rest & H1 & H2 & H3 & H4).
    exists done, rest. subst p1. simpl. auto. }
  destruct (loop is_truthy items p1) as [state p2] eqn:Hloop.
  destruct (loop_spec _ _ _ Hinv1 Hloop) as (done & rest & Hitems & -> & Hcase).
  subst p1. split; simpl in *.
  - assert (Hcalls : truthy_calls is_truthy (index_from 0 done) = calls p ++ call_of state).
    { destruct Hcase as [(it & i & -> & -> & _)|(-> & _ & -> & _)]; simpl;
        [reflexivity|now rewrite app_nil_r]. }
    rewrite Hcalls, Hperm, <- !app_assoc.
    apply Permutation_app_head.
    pose proof (pending_calls_set_nth w state _ _ Hw) as H. simpl in H.
    rewrite Permutation_app_comm. simpl. exact (Permutation_sym H).
  - rewrite replay_app, <- Hshared. simpl. now rewrite Hfn.
Qed.

Lemma run_ledger (s0 : St) (fuel : nat) :
  forall (sched : list nat) (p : @Pool T St),
    pool_inv is_truthy items p ->
    ledger fn s0 p ->
    ledger fn s0 (run is_truthy fn items fuel sched p).
Proof.
  induction fuel as [|fuel IH]; intros sched p Hinv Hled; [assumption|].
  destruct (run_step fuel sched p) as [[Hq ->]|(w & item & index & Hw & ->)];
    [assumption|].
  destruct (settle_spec _ _ _ _ Hinv Hw) as (H1 & _).
  apply IH; [assumption|]. eapply settle_ledger; eassumption.
Qed.

(** With a worker function that never throws, the calls are fulfilled in
    some order of the truthy items, each once, and the shared state is
    what these calls give one after the other. *)
Lemma parallel_completion_order (limit : nat) (sched : list nat) (s0 : St) :
  0 < limit ->
  exists order : list (T * nat),
    Permutation order (truthy_calls is_truthy (indexed items))
    /\ parallel is_truthy fn items limit sched s0 = inr (replay fn order s0).
Proof.
  intros Hlimit.
  pose proof (parallel_resolves limit sched s0 fn_returns) as Hres.
  pose proof (resolved_calls limit sched s0 Hlimit Hres) as Hcalls.
  destruct (parallel_pool_settles limit sched s0) as (_ & _ & Hq).
  assert (Hled : ledger fn s0 (parallel_pool is_truthy fn items limit sched s0)).
  { unfold parallel_pool.
    destruct (spawn_spec limit _ (initial_pool_inv s0)) as (H1 & _).
    apply run_ledger; [assumption|].
    apply spawn_ledger; [apply initial_pool_inv|]. split; simpl; auto. }
  destruct Hled as [Hperm Hshared].
  rewrite (pending_calls_quiescent _ Hq), app_nil_r, Hcalls in Hperm.
  exists (completed (parallel_pool is_truthy fn items limit sched s0)).
  split; [now apply Permutation_sym|].
  unfold parallel. destruct Hres as [-> _]. now rewrite Hshared.
Qed.
End RunnerFacts.

(** ** The matrix *)

Lemma process_user_story_returns (backend : Backend) (userStoryId : Z) (index : nat)
    (rtmData : list Row.t) :
  exists rtmData', process_user_story backend userStoryId index rtmData = inr rtmData'.
Proof. rewrite process_user_story_appends. eauto. Qed.

(** [generateRTM] returns the array the workers pushed to. *)
Lemma generateRTM_returns (backend : Backend) (userStoryIds : list Z) (sched : list nat) :
  generateRTM backend userStoryIds sched
  = inr (shared (parallel_pool nonzero (process_user_story backend) userStoryIds 5 sched [])).
Proof.
  unfold generateRTM, parallel.
  destruct (parallel_resolves nonzero (process_user_story backend) userStoryIds 5 sched []
              (process_user_story_returns backend)) as [Hrej _].
  now rewrite Hrej.
Qed.

(** A property of rows that every row group has holds of the matrix. *)
Lemma generateRTM_rows (P : Row.t -> Prop) (backend : Backend) (userStoryIds : list Z)
    (sched : list nat) (rows : list Row.t) :
  (forall userStoryId, Forall P (story_rows backend userStoryId)) ->
  generateRTM backend userStoryIds sched = inr rows ->
  Forall P rows.
Proof.
  intros HP. rewrite generateRTM_returns. intros [= <-].
  apply (parallel_shared nonzero (process_user_story backend) userStoryIds (Forall P)).
  - intros item index s s' Hs. rewrite process_user_story_appends. intros [= <-].
    apply Forall_app. split; [assumption|apply HP].
  - constructor.
Qed.

(** The three shapes of a row group. *)
Lemma story_rows_cases (backend : Backend) (userStoryId : Z) :
  (fetchUserStory backend userStoryId = inr None
   /\ story_rows backend userStoryId = [])
  \/ (exists us,
        fetchUserStory backend userStoryId = inr (Some us)
        /\ fetchRelatedTestCases backend userStoryId = inr []
        /\ story_rows backend userStoryId = [unlinked_row userStoryId us])
  \/ (exists us testCases,
        fetchUserStory backend userStoryId = inr (Some us)
        /\ fetchRelatedTestCases backend userStoryId = inr testCases
        /\ testCases <> []
        /\ story_rows backend userStoryId
           = flat_map (criterion_rows userStoryId us testCases)
               (UserStory.acceptanceCriteria us)).
Proof.
  unfold story_rows.
  destruct (fetchUserStory_returns backend userStoryId) as [[us|] Hus].
  - destruct (fetchRelatedTestCases_returns backend userStoryId) as [[|tc rest] Htc].
    + right. left. exists us.
      now rewrite (process_user_story_unlinked _ _ _ _ _ Hus Htc).
    + right. right. exists us, (tc :: rest).
      rewrite (process_user_story_linked _ _ _ _ _ _ Hus Htc) by discriminate.
      repeat split; auto. discriminate.
  - left. now rewrite (process_user_story_skipped _ _ _ _ Hus).
Qed.

Lemma criterion_rows_shape (userStoryId : Z) (us : UserStory.t)
    (testCases : list TestCase.t) (entry : nat * string) (row : Row.t) :
  In row (criterion_rows userStoryId us testCases entry) ->
  row = missing_row userStoryId us (snd entry)
  \/ exists tc, In tc testCases /\ row = covered_row userStoryId us tc.
Proof.
  unfold criterion_rows. intros H.
  destruct (grouped_under (fst entry) testCases) as [|tc group] eqn:E.
  - destruct H as [<-|[]]. now left.
  - rewrite <- E in H. apply in_map_iff in H as (tc' & <- & Hin).
    right. exists tc'. split; [|reflexivity].
    now apply grouped_under_reference in Hin.
Qed.

(** Every row of a group is the unlinked row, a Missing row of a
    criterion or the Covered row of a fetched test case, and carries the
    id under which the requirement was fetched. *)
Lemma story_rows_shape (backend : Backend) (userStoryId : Z) (row : Row.t) :
  In row (story_rows backend userStoryId) ->
  exists us,
    fetchUserStory backend userStoryId = inr (Some us)
    /\ (row = unlinked_row userStoryId us
        \/ (exists text, row = missing_row userStoryId us text)
        \/ (exists tc, row = covered_row userStoryId us tc)).
Proof.
  intros Hin.
  destruct (story_rows_cases backend userStoryId)
    as [[_ E]|[(us & Hus & _ & E)|(us & tcs & Hus & _ & _ & E)]];
    rewrite E in Hin.
  - contradiction.
  - destruct Hin as [<-|[]]. exists us. auto.
  - apply in_flat_map in Hin as (entry & _ & Hin).
    apply criterion_rows_shape in Hin as [->|(tc & _ & ->)]; exists us; eauto.
Qed.

Lemma executionStatus_of_fetched (backend : Backend) (testCaseId : option Z)
    (tc : TestCase.t) :
  fetchTestCase backend testCaseId = inr (Some tc) ->
  TestCase.executionStatus tc = "Pass" \/ TestCase.executionStatus tc = "Fail".
Proof.
  unfold fetchTestCase. intros H.
  destruct (makeApiRequest backend _) as [e|[wi|]]; simpl in H; try discriminate.
  destruct (negb _); simpl in H; [discriminate|].
  injection H as <-. simpl. destruct (_ || _); auto.
Qed.

Lemma replay_story_rows (backend : Backend) (cs : list (Z * nat)) (rtmData : list Row.t) :
  replay (process_user_story backend) cs rtmData
  = rtmData ++ flat_map (story_rows backend) (map fst cs).
Proof.
  unfold replay. revert rtmData.
  induction cs as [|[userStoryId index] cs IH]; intros rtmData; simpl.
  - now rewrite app_nil_r.
  - rewrite process_user_story_appends, IH. now rewrite <- app_assoc.
Qed.

(** The matrix is the row groups of the non-zero ids put one after the
    other, in the order in which their pipelines came to an end. *)
Lemma generateRTM_groups (backend : Backend) (userStoryIds : list Z) (sched : list nat) :
  exists order : list Z,
    Permutation order (filter nonzero userStoryIds)
    /\ generateRTM backend userStoryIds sched
       = inr (flat_map (story_rows backend) order).
Proof.
  destruct (parallel_completion_order nonzero (process_user_story backend) userStoryIds
              (process_user_story_returns backend) 5 sched [] ltac:(lia))
    as (order & Hperm & Hpar).
  exists (map fst order). split.
  - rewrite Hperm. unfold indexed. fold (index_from 0 userStoryIds).
    now rewrite truthy_calls_items.
  - unfold generateRTM. rewrite Hpar. simpl. now rewrite replay_story_rows.
Qed.

(** The row group of each non-zero id of the request is in the matrix, in
    one piece. *)
Lemma generateRTM_group_present (backend : Backend) (userStoryIds : list Z)
    (sched : list nat) (rows : list Row.t) (userStoryId : Z) :
  In userStoryId userStoryIds ->
  userStoryId <> 0%Z ->
  generateRTM backend userStoryIds sched = inr rows ->
  exists before after, rows = before ++ story_rows backend userStoryId ++ after.
Proof.
  intros Hin Hid Hgen.
  destruct (generateRTM_groups backend userStoryIds sched) as (order & Hperm & E).
  rewrite E in Hgen. injection Hgen as <-.
  assert (Hord : In userStoryId order).
  { apply (Permutation_in _ (Permutation_sym Hperm)). apply filter_In.
    split; [assumption|]. unfold nonzero. now rewrite (proj2 (Z.eqb_neq _ _) Hid). }
  apply in_split in Hord as (l1 & l2 & ->).
  exists (flat_map (story_rows backend) l1), (flat_map (story_rows backend) l2).
  rewrite flat_map_app. reflexivity.
Qed.


Lemma grouped_under_none (testCases : list TestCase.t) (n : nat) :
  (forall tc, In tc testCases -> TestCase.acceptanceCriteria tc <> JNum (Z.of_nat n)) ->
  grouped_under n testCases = [].
Proof.
  intros H. destruct (grouped_under n testCases) as [|tc rest] eqn:E; [reflexivity|].
  assert (Hin : In tc (grouped_under n testCases)) by (rewrite E; now left).
  apply grouped_under_reference in Hin as [Hin Href]. now apply H in Hin.
Qed.

(** A test case fetched without a criterion reference carries the empty
    string as its reference. *)
Lemma fetchTestCase_absent_reference (backend : Backend) (testCaseId : option Z)
    (wi : WorkItemData) (tc : TestCase.t) :
  backend {| workItemId := testCaseId; expandRelations := false |}
    = AxiosResponse (Some wi) ->
  fetchTestCase backend testCaseId = inr (Some tc) ->
  truthy (Custom_AcceptanceCriteriaNumber (fields_of wi)) = false ->
  TestCase.acceptanceCriteria tc = JStr "".
Proof.
  intros Hresp Hfetch Habsent. unfold fetchTestCase in Hfetch.
  rewrite (makeApiRequest_response _ _ _ Hresp) in Hfetch. simpl in Hfetch.
  fold (fields_of wi) in Hfetch.
  destruct (negb _); simpl in Hfetch; [discriminate|].
  injection Hfetch as <-. simpl. unfold js_or. now rewrite Habsent.
Qed.

(** C1. A requirement with at least one linked test case: its criteria
    are walked in ascending order of their numbers; a criterion with no
    test case grouped under its number gives one Missing row (Functional,
    the criterion text, Medium, no test case id, no execution), any other
    gives one Covered row per grouped test case in fetched order (the
    test case's scenario tag or Functional, its description or else its
    title, [mapPriority] of its priority, its execution outcome). *)
Theorem linked_requirement_rows :
  forall (backend : Backend) (userStoryId : Z) (index : nat) (rtmData : list Row.t)
         (us : UserStory.t) (testCases : list TestCase.t),
    fetchUserStory backend userStoryId = inr (Some us) ->
    fetchRelatedTestCases backend userStoryId = inr testCases ->
    testCases <> [] ->
    let criteria := Object_entries (UserStory.acceptanceCriteria us) in
    let rows_of := criterion_rows userStoryId us testCases in
    StronglySorted lt (map fst criteria)
    /\ process_user_story backend userStoryId index rtmData
       = inr (rtmData ++ flat_map rows_of criteria)
    /\ (userStoryId <> 0%Z ->
        forall sched, generateRTM backend [userStoryId] sched
                      = inr (flat_map rows_of criteria))
    /\ (userStoryId <> 0%Z ->
        forall userStoryIds sched rows,
          In userStoryId userStoryIds ->
          generateRTM backend userStoryIds sched = inr rows ->
          exists before after, rows = before ++ flat_map rows_of criteria ++ after)
    /\ (forall (n : nat) (text : string),
          grouped_under n testCases = [] ->
          rows_of (n, text)
          = [ {| Row.UserStoryID := userStoryId;
                 Row.Feature := UserStory.title us;
                 Row.ScenarioType := "Functional";
                 Row.Description := text;
                 Row.TestCaseID := JStr "";
                 Row.Status := "Missing";
                 Row.Priority := "Medium";
                 Row.Execution := "" |} ])
    /\ (forall (n : nat) (text : string),
          grouped_under n testCases <> [] ->
          rows_of (n, text)
          = map (fun tc =>
                   {| Row.UserStoryID := userStoryId;
                      Row.Feature := UserStory.title us;
                      Row.ScenarioType :=
                        if TestCase.scenarioType tc =? "" then "Functional"
                        else TestCase.scenarioType tc;
                      Row.Description :=
                        if TestCase.description tc =? "" then TestCase.title tc
                        else TestCase.description tc;
                      Row.TestCaseID := JNum (TestCase.id tc);
                      Row.Status := "Covered";
                      Row.Priority := mapPriority (TestCase.priority tc);
                      Row.Execution := TestCase.executionStatus tc |})
                (grouped_under n testCases)).
Proof.
  intros backend userStoryId index rtmData us testCases Hus Htc Hne criteria rows_of.
  assert (Hgroup : story_rows backend userStoryId = flat_map rows_of criteria).
  { unfold story_rows.
    now rewrite (process_user_story_linked _ _ 0 [] _ _ Hus Htc Hne). }
  refine (conj _ (conj _ (conj _ (conj _ (conj _ _))))).
  - exact (fetchUserStory_criteria_ascending _ _ _ Hus).
  - exact (process_user_story_linked _ _ _ _ _ _ Hus Htc Hne).
  - intros Hid sched. now rewrite (generateRTM_single _ _ _ Hid), Hgroup.
  - intros Hid userStoryIds sched rows Hin Hgen. rewrite <- Hgroup.
    exact (generateRTM_group_present _ _ _ _ _ Hin Hid Hgen).
  - intros n text Hnone. subst rows_of. unfold criterion_rows. simpl fst.
    now rewrite Hnone.
  - intros n text Hsome. subst rows_of. unfold criterion_rows. simpl fst.
    destruct (grouped_under n testCases) as [|tc group]; [contradiction|].
    apply map_ext. intros tc'. unfold covered_row.
    now destruct (TestCase.scenarioType tc'), (TestCase.description tc').
Qed.

(** Requirement 100 of the sample backend: criterion 1 is covered by test
    case 501, criterion 2 has no test case under the number 2. *)
Lemma linked_requirement_rows_witness :
  generateRTM sample_backend [100%Z] []
  = inr [ {| Row.UserStoryID := 100; Row.Feature := "Login";
             Row.ScenarioType := "Functional"; Row.Description := "Valid credentials";
             Row.TestCaseID := JNum 501; Row.Status := "Covered";
             Row.Priority := "High"; Row.Execution := "Pass" |};
          {| Row.UserStoryID := 100; Row.Feature := "Login";
             Row.ScenarioType := "Functional"; Row.Description := "can log out";
             Row.TestCaseID := JStr ""; Row.Status := "Missing";
             Row.Priority := "Medium"; Row.Execution := "" |} ].
Proof.
  assert (Hus : fetchUserStory sample_backend 100 = inr (Some (sample_story 100)))
    by (vm_compute; reflexivity).
  assert (Htc : fetchRelatedTestCases sample_backend 100 = inr (sample_tests 100))
    by (vm_compute; reflexivity).
  assert (Hne : sample_tests 100 <> []) by (vm_compute; discriminate).
  destruct (linked_requirement_rows sample_backend 100%Z 0 [] _ _ Hus Htc Hne)
    as (_ & _ & Hgen & _).
  rewrite Hgen by discriminate. vm_compute. reflexivity.
Defined.

(** C3. A fetched requirement with no linked test case gives exactly one
    row: Missing, the scenario type classified from its own title,
    description and tags, its title as description, [mapPriority] of its
    priority, no test case id and no execution. *)
Theorem unlinked_requirement_row :
  forall (backend : Backend) (userStoryId : Z) (index : nat) (rtmData : list Row.t)
         (us : UserStory.t),
    fetchUserStory backend userStoryId = inr (Some us) ->
    fetchRelatedTestCases backend userStoryId = inr [] ->
    let row :=
      {| Row.UserStoryID := userStoryId;
         Row.Feature := UserStory.feature us;
         Row.ScenarioType :=
           determineScenarioType (UserStory.title us) (UserStory.description us)
             (UserStory.tags us);
         Row.Description := UserStory.title us;
         Row.TestCaseID := JStr "";
         Row.Status := "Missing";
         Row.Priority := mapPriority (UserStory.priority us);
         Row.Execution := "" |} in
    process_user_story backend userStoryId index rtmData = inr (rtmData ++ [row])
    /\ (userStoryId <> 0%Z ->
        forall sched, generateRTM backend [userStoryId] sched = inr [row])
    /\ (userStoryId <> 0%Z ->
        forall userStoryIds sched rows,
          In userStoryId userStoryIds ->
          generateRTM backend userStoryIds sched = inr rows ->
          exists before after, rows = before ++ [row] ++ after).
Proof.
  intros backend userStoryId index rtmData us Hus Htc row.
  assert (Hgroup : story_rows backend userStoryId = [row]).
  { unfold story_rows.
    now rewrite (process_user_story_unlinked _ _ 0 [] _ Hus Htc). }
  refine (conj _ (conj _ _)).
  - exact (process_user_story_unlinked _ _ _ _ _ Hus Htc).
  - intros Hid sched. now rewrite (generateRTM_single _ _ _ Hid), Hgroup.
  - intros Hid userStoryIds sched rows Hin Hgen. rewrite <- Hgroup.
    exact (generateRTM_group_present _ _ _ _ _ Hin Hid Hgen).
Qed.

(** Requirement 200 of the sample backend: no link, tagged performance. *)
Lemma unlinked_requirement_row_witness :
  generateRTM sample_backend [200%Z] [3; 1]
  = inr [ {| Row.UserStoryID := 200; Row.Feature := "Export report";
             Row.ScenarioType := "Performance"; Row.Description := "Export report";
             Row.TestCaseID := JStr ""; Row.Status := "Missing";
             Row.Priority := "Medium"; Row.Execution := "" |} ].
Proof.
  assert (Hus : fetchUserStory sample_backend 200 = inr (Some (sample_story 200)))
    by (vm_compute; reflexivity).
  assert (Htc : fetchRelatedTestCases sample_backend 200 = inr [])
    by (vm_compute; reflexivity).
  destruct (unlinked_requirement_row sample_backend 200%Z 0 [] _ Hus Htc)
    as (_ & Hgen & _).
  rewrite Hgen by discriminate. vm_compute. reflexivity.
Defined.

(** C10. Test cases pair with criterion [n] by strict equality of their
    reference with the number [n]: the lookup finds exactly those; a test
    case whose reference is a string (the text "1", or the empty string of
    a missing reference) is under no criterion and gives no row; a criterion
    that no reference equals as a number gives a Missing row. *)
Theorem criterion_pairing_is_strict :
  forall (backend : Backend) (userStoryId : Z) (index : nat) (rtmData : list Row.t)
         (us : UserStory.t) (testCases : list TestCase.t),
    fetchUserStory backend userStoryId = inr (Some us) ->
    fetchRelatedTestCases backend userStoryId = inr testCases ->
    testCases <> [] ->
    let criteria := Object_entries (UserStory.acceptanceCriteria us) in
    let rows := flat_map (criterion_rows userStoryId us testCases) criteria in
    process_user_story backend userStoryId index rtmData = inr (rtmData ++ rows)
    /\ (forall n : nat,
          or_empty (Map_get (group_test_cases testCases) (JNum (Z.of_nat n)))
          = filter (fun tc => sameValueZero (TestCase.acceptanceCriteria tc)
                                            (JNum (Z.of_nat n))) testCases)
    /\ (forall (n : nat) (tc : TestCase.t),
          In tc (grouped_under n testCases) ->
          TestCase.acceptanceCriteria tc = JNum (Z.of_nat n))
    /\ (forall (tc : TestCase.t) (s : string),
          TestCase.acceptanceCriteria tc = JStr s ->
          forall n : nat, ~ In tc (grouped_under n testCases))
    /\ rows = flat_map (criterion_rows userStoryId us
                          (filter has_number_reference testCases)) criteria
    /\ (forall (n : nat) (text : string),
          In (n, text) criteria ->
          (forall tc, In tc testCases ->
                      TestCase.acceptanceCriteria tc <> JNum (Z.of_nat n)) ->
          In (missing_row userStoryId us text) rows)
    /\ ((forall tc, In tc testCases -> has_number_reference tc = false) ->
        rows = map (fun entry => missing_row userStoryId us (snd entry)) criteria).
Proof.
  intros backend userStoryId index rtmData us testCases Hus Htc Hne criteria rows.
  refine (conj _ (conj _ (conj _ (conj _ (conj _ (conj _ _)))))).
  - exact (process_user_story_linked _ _ _ _ _ _ Hus Htc Hne).
  - intros n. apply group_test_cases_lookup.
  - intros n tc Hin. now apply grouped_under_reference in Hin.
  - intros tc s Hs n Hin. apply grouped_under_reference in Hin as [_ Href].
    congruence.
  - subst rows. apply flat_map_ext. intros entry. unfold criterion_rows.
    now rewrite grouped_under_numbers.
  - intros n text Hin Hnone. subst rows. apply in_flat_map.
    exists (n, text). split; [assumption|].
    unfold criterion_rows. simpl fst. rewrite (grouped_under_none _ _ Hnone).
    now left.
  - intros Hall. subst rows. rewrite flat_map_concat_map.
    assert (E : forall entry, criterion_rows userStoryId us testCases entry
                              = [missing_row userStoryId us (snd entry)]).
    { intros entry. unfold criterion_rows. rewrite grouped_under_none; [reflexivity|].
      intros tc Hin Href. apply Hall in Hin. unfold has_number_reference in Hin.
      now rewrite Href in Hin. }
    clear - E. induction criteria as [|entry rest IH]; [reflexivity|].
    simpl. now rewrite E, IH.
Qed.

(** Requirement 300 of the sample backend: its only test case refers to
    criterion 2 by the string "2"; both criteria come out Missing and the
    test case is in no row. *)
Lemma criterion_pairing_is_strict_witness :
  process_user_story sample_backend 300 0 []
  = inr [missing_row 300 (sample_story 300) "mail is sent";
         missing_row 300 (sample_story 300) "link expires"].
Proof.
  assert (Hus : fetchUserStory sample_backend 300 = inr (Some (sample_story 300)))
    by (vm_compute; reflexivity).
  assert (Htc : fetchRelatedTestCases sample_backend 300 = inr (sample_tests 300))
    by (vm_compute; reflexivity).
  assert (Hne : sample_tests 300 <> []) by (vm_compute; discriminate).
  destruct (criterion_pairing_is_strict sample_backend 300%Z 0 [] _ _ Hus Htc Hne)
    as (Hrows & _ & _ & _ & _ & _ & Hall).
  rewrite Hrows, Hall.
  - vm_compute. reflexivity.
  - intros tc Hin. vm_compute in Hin. destruct Hin as [<-|[]]. reflexivity.
Defined.

(** ** Links and failing requests *)

(** The strict comparison with the tested-by label adds nothing to the
    search for "test". *)
Lemma tested_by_includes_test (rel_ : string) :
  ((rel_ =? "Microsoft.VSTS.Common.TestedBy")
   || includes (toLowerCase rel_) "test")
  = includes (toLowerCase rel_) "test".
Proof.
  destruct (String.eqb_spec rel_ "Microsoft.VSTS.Common.TestedBy") as [->|_];
    reflexivity.
Qed.

Lemma for_relations_closed (backend : Backend) (relations : list Relation) :
  forall testCases,
    for_relations backend relations testCases
    = inr (testCases
           ++ flat_map (fun relation =>
                          if is_test_link relation
                          then linked_test_case backend relation else [])
                relations).
Proof.
  induction relations as [|relation rest IH]; intros testCases; simpl.
  - unfold ret. now rewrite app_nil_r.
  - rewrite tested_by_includes_test. unfold is_test_link, linked_test_case.
    destruct (includes (toLowerCase (str_or (rel relation) "")) "test"); simpl;
      [|apply IH].
    destruct (str_or (url relation) "" =? ""); simpl; [apply IH|].
    destruct (fetchTestCase_returns backend
                (parseInt (pop (split "/" (str_or (url relation) ""))))) as [r ->].
    simpl. destruct r as [tc|]; rewrite IH; [|reflexivity].
    now rewrite <- app_assoc.
Qed.

Lemma fetchTestCase_item_failure (backend : Backend) (testCaseId : option Z) :
  (exists message,
     backend {| workItemId := testCaseId; expandRelations := false |}
     = AxiosError message)
  \/ (exists wi,
        backend {| workItemId := testCaseId; expandRelations := false |}
        = AxiosResponse (Some wi)
        /\ field_is (System_WorkItemType (fields_of wi)) "Test Case" = false) ->
  fetchTestCase backend testCaseId = inr None.
Proof.
  unfold fetchTestCase. intros [[message H]|(wi & H & Htype)].
  - now rewrite (makeApiRequest_error _ _ _ H).
  - rewrite (makeApiRequest_response _ _ _ H). simpl.
    fold (fields_of wi). now rewrite Htype.
Qed.

Lemma fetchUserStory_failing_for (backend : Backend) (t userStoryId : Z) :
  t <> userStoryId ->
  fetchUserStory (failing_for backend t) userStoryId = fetchUserStory backend userStoryId.
Proof.
  intros Hne. unfold fetchUserStory, makeApiRequest, axios_get, failing_for.
  cbn [workItemId]. now rewrite (proj2 (Z.eqb_neq userStoryId t)) by congruence.
Qed.

Lemma fetchTestCase_failing_for (backend : Backend) (t : Z) (testCaseId : option Z) :
  fetchTestCase (failing_for backend t) testCaseId
  = match testCaseId with
    | Some n => if (n =? t)%Z then inr None else fetchTestCase backend testCaseId
    | None => fetchTestCase backend testCaseId
    end.
Proof.
  unfold fetchTestCase, makeApiRequest, axios_get, failing_for. cbn [workItemId].
  destruct testCaseId as [n|]; [|reflexivity].
  now destruct (n =? t)%Z.
Qed.

Lemma linked_test_case_failing_for (backend : Backend) (t : Z) (relation : Relation) :
  linked_test_case (failing_for backend t) relation
  = if links_to t relation then [] else linked_test_case backend relation.
Proof.
  unfold linked_test_case, links_to. rewrite fetchTestCase_failing_for.
  destruct (parseInt _) as [n|]; [|reflexivity].
  now destruct (n =? t)%Z.
Qed.

Lemma fetchRelatedTestCases_links (backend : Backend) (userStoryId : Z)
    (wi : WorkItemData) (relations : list Relation) :
  backend {| workItemId := Some userStoryId; expandRelations := true |}
    = AxiosResponse (Some wi) ->
  wi_relations wi = Some relations ->
  fetchRelatedTestCases backend userStoryId
  = inr (flat_map (fun relation =>
                     if is_test_link relation
                     then linked_test_case backend relation else [])
           relations).
Proof.
  intros Hresp Hrel. unfold fetchRelatedTestCases.
  rewrite (makeApiRequest_response _ _ _ Hresp). cbn [bind]. rewrite Hrel.
  destruct relations as [|relation rest]; [reflexivity|].
  now rewrite for_relations_closed.
Qed.

Lemma fetchRelatedTestCases_failing_for (backend : Backend) (t userStoryId : Z)
    (wi : WorkItemData) (relations : list Relation) :
  t <> userStoryId ->
  backend {| workItemId := Some userStoryId; expandRelations := true |}
    = AxiosResponse (Some wi) ->
  wi_relations wi = Some relations ->
  fetchRelatedTestCases (failing_for backend t) userStoryId
  = inr (flat_map (fun relation =>
                     if is_test_link relation && negb (links_to t relation)
                     then linked_test_case backend relation else [])
           relations).
Proof.
  intros Hne Hresp Hrel.
  rewrite (fetchRelatedTestCases_links (failing_for backend t) userStoryId wi relations).
  - f_equal. apply flat_map_ext. intros relation.
    rewrite linked_test_case_failing_for.
    now destruct (is_test_link relation), (links_to t relation).
  - unfold failing_for. cbn [workItemId].
    now rewrite (proj2 (Z.eqb_neq userStoryId t)) by congruence.
  - exact Hrel.
Qed.

(** C2. In every row of the matrix, the status is Covered exactly when a
    test case id is present, and an execution value is present only when
    the status is Covered; the status is Covered or Missing. *)
Theorem matrix_coverage_invariant :
  forall (backend : Backend) (userStoryIds : list Z) (sched : list nat)
         (rows : list Row.t),
    generateRTM backend userStoryIds sched = inr rows ->
    forall row, In row rows ->
      (Row.Status row = "Covered" <-> Row.TestCaseID row <> JStr "")
      /\ (Row.Execution row <> "" -> Row.Status row = "Covered")
      /\ (Row.Status row = "Covered" \/ Row.Status row = "Missing").
Proof.
  intros backend userStoryIds sched rows Hgen.
  apply Forall_forall.
  apply (generateRTM_rows _ backend userStoryIds sched rows); [|exact Hgen].
  intros userStoryId. apply Forall_forall. intros row Hin.
  apply story_rows_shape in Hin as (us & _ & [->|[(text & ->)|(tc & ->)]]); simpl;
    (split; [split; [intros; congruence|intros H; try reflexivity; now contradiction H]
            |split; [intros H; try reflexivity; now contradiction H|auto]]).
Qed.

(** The matrix of requirements 100 and 200 of the sample backend. *)
Lemma matrix_coverage_invariant_witness :
  Forall (fun row =>
            (Row.Status row = "Covered" <-> Row.TestCaseID row <> JStr "")
            /\ (Row.Execution row <> "" -> Row.Status row = "Covered")
            /\ (Row.Status row = "Covered" \/ Row.Status row = "Missing"))
         (story_rows sample_backend 100 ++ story_rows sample_backend 200).
Proof.
  assert (Hgen : generateRTM sample_backend [100%Z; 200%Z] []
                 = inr (story_rows sample_backend 100 ++ story_rows sample_backend 200))
    by (vm_compute; reflexivity).
  apply Forall_forall.
  exact (matrix_coverage_invariant sample_backend [100%Z; 200%Z] [] _ Hgen).
Defined.

(** No failure of the backend is thrown by [generateRTM], even when no
    request at all gets through. *)
Lemma batch_level_failure_is_not_thrown :
  ~ (forall (backend : Backend) (userStoryIds : list Z) (sched : list nat),
       (exists e, generateRTM backend userStoryIds sched = inl e)
       <-> batch_level_failure backend).
Proof.
  intros H.
  destruct (proj2 (H unreachable [100%Z] [])) as [e He].
  - intros req. now exists "connect ECONNREFUSED".
  - vm_compute in He. discriminate He.
Qed.

Lemma fetchUserStory_item_failure (backend : Backend) (userStoryId : Z) :
  (exists message,
     backend {| workItemId := Some userStoryId; expandRelations := false |}
     = AxiosError message)
  \/ (exists wi,
        backend {| workItemId := Some userStoryId; expandRelations := false |}
        = AxiosResponse (Some wi)
        /\ field_is (System_WorkItemType (fields_of wi)) "User Story" = false) ->
  fetchUserStory backend userStoryId = inr None.
Proof.
  unfold fetchUserStory. intros [[message H]|(wi & H & Htype)].
  - now rewrite (makeApiRequest_error _ _ _ H).
  - rewrite (makeApiRequest_response _ _ _ H). simpl.
    fold (fields_of wi). now rewrite Htype.
Qed.

(** C6, as the code has it.  [generateRTM] throws for no backend
    failure at all: it always returns a matrix, made of the row groups of
    the requested requirements.  When every request fails (the backend
    cannot be reached) the matrix is empty; a requirement whose request
    fails or that is not a User Story has no row in it, and every row
    belongs to a requirement that was fetched.  A work item whose request
    fails or that is not a Test Case is no test case: the test cases of a
    requirement are those of its links that could be fetched, and its rows
    are the rows it has with these, the single row of a requirement
    without test case when none is left.  So when the requests for a work
    item [t] fail, the test cases of another requirement are the ones it
    had, the links to [t] left out. *)
Theorem generateRTM_absorbs_failures :
  forall (backend : Backend) (userStoryIds : list Z) (sched : list nat),
    exists rows,
      generateRTM backend userStoryIds sched = inr rows
      /\ (batch_level_failure backend -> rows = [])
      /\ (forall row, In row rows ->
            exists us, fetchUserStory backend (Row.UserStoryID row) = inr (Some us))
      /\ (forall userStoryId,
            (exists message,
               backend {| workItemId := Some userStoryId; expandRelations := false |}
               = AxiosError message)
            \/ (exists wi,
                  backend {| workItemId := Some userStoryId; expandRelations := false |}
                  = AxiosResponse (Some wi)
                  /\ field_is (System_WorkItemType (fields_of wi)) "User Story" = false) ->
            forall row, In row rows -> Row.UserStoryID row <> userStoryId)
      /\ (forall userStoryId, exists testCases,
            fetchRelatedTestCases backend userStoryId = inr testCases
            /\ forall tc, In tc testCases ->
                 exists testCaseId, fetchTestCase backend testCaseId = inr (Some tc))
      /\ (exists order,
            Permutation order (filter nonzero userStoryIds)
            /\ rows = flat_map (story_rows backend) order)
      /\ (forall userStoryId us testCases,
            fetchUserStory backend userStoryId = inr (Some us) ->
            fetchRelatedTestCases backend userStoryId = inr testCases ->
            story_rows backend userStoryId
            = match testCases with
              | [] => [unlinked_row userStoryId us]
              | _ => flat_map (criterion_rows userStoryId us testCases)
                       (UserStory.acceptanceCriteria us)
              end)
      /\ (forall testCaseId,
            (exists message,
               backend {| workItemId := testCaseId; expandRelations := false |}
               = AxiosError message)
            \/ (exists wi,
                  backend {| workItemId := testCaseId; expandRelations := false |}
                  = AxiosResponse (Some wi)
                  /\ field_is (System_WorkItemType (fields_of wi)) "Test Case" = false) ->
            fetchTestCase backend testCaseId = inr None)
      /\ (forall userStoryId t wi relations,
            t <> userStoryId ->
            backend {| workItemId := Some userStoryId; expandRelations := true |}
              = AxiosResponse (Some wi) ->
            wi_relations wi = Some relations ->
            fetchUserStory (failing_for backend t) userStoryId
            = fetchUserStory backend userStoryId
            /\ fetchRelatedTestCases backend userStoryId
               = inr (flat_map (fun relation =>
                                  if is_test_link relation
                                  then linked_test_case backend relation else [])
                        relations)
            /\ fetchRelatedTestCases (failing_for backend t) userStoryId
               = inr (flat_map (fun relation =>
                                  if is_test_link relation && negb (links_to t relation)
                                  then linked_test_case backend relation else [])
                        relations)).
Proof.
  intros backend userStoryIds sched.
  destruct (generateRTM_groups backend userStoryIds sched) as (order & Hperm & Hgroups).
  eexists. split; [apply generateRTM_returns|].
  assert (Hfetched :
            Forall (fun row => exists us,
                      fetchUserStory backend (Row.UserStoryID row) = inr (Some us))
                   (shared (parallel_pool nonzero (process_user_story backend)
                              userStoryIds 5 sched []))).
  { apply (generateRTM_rows _ backend userStoryIds sched); [|apply generateRTM_returns].
    intros userStoryId. apply Forall_forall. intros row Hin.
    apply story_rows_shape in Hin as (us & Hus & [->|[(text & ->)|(tc & ->)]]);
      simpl; eauto. }
  rewrite Forall_forall in Hfetched.
  refine (conj _ (conj Hfetched (conj _ (conj _ (conj _ (conj _ (conj _ _))))))).
  - intros Hbatch.
    apply (parallel_shared nonzero (process_user_story backend) userStoryIds
             (fun rows => rows = [])); [|reflexivity].
    intros item index s s' ->. rewrite process_user_story_appends. intros [= <-].
    destruct (story_rows_cases backend item)
      as [[_ E]|[(us & Hus & _)|(us & tcs & Hus & _)]]; [exact E| |];
      rewrite fetchUserStory_item_failure in Hus; try discriminate;
      left; apply Hbatch.
  - intros userStoryId Hfail row Hin Hid.
    destruct (Hfetched row Hin) as [us Hus].
    rewrite Hid, (fetchUserStory_item_failure _ _ Hfail) in Hus. discriminate.
  - intros userStoryId.
    destruct (fetchRelatedTestCases_returns backend userStoryId) as [testCases Htc].
    exists testCases. split; [exact Htc|].
    exact (fetchRelatedTestCases_fetched _ _ _ Htc).
  - exists order. split; [exact Hperm|].
    rewrite generateRTM_returns in Hgroups. now injection Hgroups.
  - intros userStoryId us testCases Hus Htc.
    destruct (story_rows_cases backend userStoryId)
      as [[Hnone _]|[(us' & Hus' & Htc' & E)|(us' & tcs & Hus' & Htc' & Hne & E)]].
    + congruence.
    + rewrite E. replace us' with us by congruence.
      now replace testCases with (@nil TestCase.t) by congruence.
    + rewrite E. replace us' with us by congruence.
      replace tcs with testCases in * by congruence.
      destruct testCases; [contradiction|reflexivity].
  - apply fetchTestCase_item_failure.
  - intros userStoryId t wi relations Hne Hresp Hrel.
    refine (conj _ (conj _ _)).
    + now apply fetchUserStory_failing_for.
    + exact (fetchRelatedTestCases_links _ _ _ _ Hresp Hrel).
    + exact (fetchRelatedTestCases_failing_for _ _ _ _ _ Hne Hresp Hrel).
Qed.

(** The unreachable backend: the call returns the empty matrix. *)
Lemma generateRTM_absorbs_failures_witness :
  generateRTM unreachable [100%Z; 200%Z] [] = inr [].
Proof.
  destruct (generateRTM_absorbs_failures unreachable [100%Z; 200%Z] [])
    as (rows & Hgen & Hbatch & _).
  rewrite Hgen. f_equal. apply Hbatch.
  intros req. exists "connect ECONNREFUSED". reflexivity.
Defined.

(** A failing test case does not only remove rows.  Requirement 300 of
    the sample backend links the test case 502 alone, which no criterion
    refers to: its rows are the two Missing rows of its criteria.  When the
    requests for 502 fail, it has the single row of a requirement without
    test case, which is none of the two. *)
Lemma failing_test_case_changes_rows :
  exists row,
    generateRTM (failing_for sample_backend 502) [300%Z] [] = inr [row]
    /\ Row.Description row = "Reset password"
    /\ generateRTM sample_backend [300%Z] [] = inr (story_rows sample_backend 300)
    /\ map Row.Description (story_rows sample_backend 300) = ["mail is sent"; "link expires"]
    /\ ~ In row (story_rows sample_backend 300).
Proof.
  eexists. split; [vm_compute; reflexivity|].
  split; [reflexivity|]. split; [vm_compute; reflexivity|].
  split; [vm_compute; reflexivity|].
  vm_compute. intros [H|[H|[]]]; discriminate H.
Qed.

(** A fulfilled call of [parallel] on numbers that never called the worker
    function for one of them, the falsy one. *)
Lemma parallel_misses_falsy_item :
  ~ (forall (St : Type) (fn : Z -> nat -> St -> Exc St) (items : list Z)
            (limit : nat) (sched : list nat) (s0 : St),
       0 < limit ->
       let p := parallel_pool nonzero fn items limit sched s0 in
       resolved p ->
       called_once_for_each items (calls p)).
Proof.
  intros H.
  specialize (H unit (fun _ _ s => inr s) [2%Z; 1%Z; 0%Z] 5 [] tt ltac:(lia)).
  assert (Hres : resolved (parallel_pool nonzero (fun (_ : Z) (_ : nat) (s : unit) => inr s)
                             [2%Z; 1%Z; 0%Z] 5 [] tt)).
  { split; [vm_compute; reflexivity|]. vm_compute. repeat constructor. }
  apply H in Hres. apply Permutation_length in Hres.
  vm_compute in Hres. discriminate Hres.
Qed.

(** C5, as the code has it.  When the promise of [parallel] is fulfilled,
    the worker function was called once for each truthy element of the
    list, in list order, and for no other element: the loop guards the call
    with [if (item)].  At the list [2; 1; 0] that [calculateCoverageTrend]
    builds for three weeks, whatever the worker function and the order in
    which calls settle, it was called for the offsets 2 and 1 and never for
    the current week, whose offset 0 is falsy. *)
Theorem parallel_calls_truthy_items :
  (forall (T St : Type) (is_truthy : T -> bool) (fn : T -> nat -> St -> Exc St)
          (items : list T) (limit : nat) (sched : list nat) (s0 : St),
     0 < limit ->
     let p := parallel_pool is_truthy fn items limit sched s0 in
     resolved p ->
     calls p = filter (fun c => is_truthy (fst c)) (combine items (seq 0 (length items))))
  /\ (forall (St : Type) (fn : Z -> nat -> St -> Exc St) (sched : list nat) (s0 : St),
        let p := parallel_pool nonzero fn (week_offsets 3) 5 sched s0 in
        resolved p ->
        In 0%Z (week_offsets 3)
        /\ calls p = [(2%Z, 0); (1%Z, 1)]
        /\ ~ In 0%Z (map fst (calls p))).
Proof.
  split.
  - intros T St is_truthy fn items limit sched s0 Hlimit p Hres.
    exact (resolved_calls is_truthy fn items limit sched s0 Hlimit Hres).
  - intros St fn sched s0 p Hres.
    assert (Hcalls : calls p = [(2%Z, 0); (1%Z, 1)]).
    { subst p. rewrite (resolved_calls nonzero fn (week_offsets 3) 5 sched s0);
        [reflexivity|lia|exact Hres]. }
    refine (conj _ (conj Hcalls _)).
    + simpl. auto.
    + rewrite Hcalls. simpl. intros [H|[H|[]]]; discriminate.
Qed.

(** A worker function that does nothing, calls settled in pool order. *)
Lemma parallel_calls_truthy_items_witness :
  calls (parallel_pool nonzero (fun (_ : Z) (_ : nat) (s : unit) => inr s)
           (week_offsets 3) 5 [] tt)
  = [(2%Z, 0); (1%Z, 1)].
Proof.
  refine (proj1 (proj2 (proj2 parallel_calls_truthy_items unit _ [] tt _))).
  split; [vm_compute; reflexivity|]. vm_compute. repeat constructor.
Defined.


(* ================================================================== *)
(** * Further properties *)

(** ** Decimal numbers *)

Lemma parse_digits_acc (d : Decimal.uint) :
  forall acc : positive,
    parse_digits 10 (NilEmpty.string_of_uint d) (Some (Z.pos acc))
    = Some (Z.pos (Pos.of_uint_acc d acc)).
Proof.
  induction d; intros acc;
    cbn [NilEmpty.string_of_uint parse_digits Pos.of_uint_acc];
    try reflexivity; eval_digit; rewrite <- IHd; do 2 f_equal; lia.
Qed.

Lemma parse_digits_zero (d : Decimal.uint) :
  parse_digits 10 (NilEmpty.string_of_uint d) (Some 0%Z)
  = Some (Z.of_N (Pos.of_uint d)).
Proof.
  induction d; cbn [NilEmpty.string_of_uint parse_digits Pos.of_uint];
    try reflexivity; eval_digit;
    first [ exact IHd
          | cbn [Z.of_N]; rewrite <- parse_digits_acc; reflexivity ].
Qed.

Lemma parse_digits_uint (d : Decimal.uint) :
  d <> Decimal.Nil ->
  parse_digits 10 (NilEmpty.string_of_uint d) None = Some (Z.of_N (Pos.of_uint d)).
Proof.
  destruct d; intros H; try contradiction;
    cbn [NilEmpty.string_of_uint parse_digits Pos.of_uint]; eval_digit;
    first [ apply parse_digits_zero
          | cbn [Z.of_N]; rewrite <- parse_digits_acc; reflexivity ].
Qed.

Lemma to_uint_not_nil (p : positive) : Pos.to_uint p <> Decimal.Nil.
Proof.
  intros E. pose proof (DecimalPos.Unsigned.of_to p) as H.
  rewrite E in H. discriminate H.
Qed.

Lemma string_of_uint_plain (d : Decimal.uint) :
  trimStart (NilEmpty.string_of_uint d) = NilEmpty.string_of_uint d
  /\ strip_hex_prefix (NilEmpty.string_of_uint d) = None
  /\ (forall r, NilEmpty.string_of_uint d <> String "-" r)
  /\ (forall r, NilEmpty.string_of_uint d <> String "+" r).
Proof.
  repeat split; try (destruct d; simpl; intros; discriminate);
    try (destruct d; reflexivity).
  destruct d as [|d|d|d|d|d|d|d|d|d|d]; try reflexivity; destruct d; reflexivity.
Qed.

Lemma string_of_Z_pos (p : positive) :
  string_of_Z (Z.pos p) = NilEmpty.string_of_uint (Pos.to_uint p).
Proof.
  unfold string_of_Z. simpl.
  pose proof (to_uint_not_nil p). now destruct (Pos.to_uint p).
Qed.

Lemma string_of_Z_neg (p : positive) :
  string_of_Z (Z.neg p) = String "-" (NilEmpty.string_of_uint (Pos.to_uint p)).
Proof.
  unfold string_of_Z. simpl.
  pose proof (to_uint_not_nil p). now destruct (Pos.to_uint p).
Qed.

(** [parseInt] reads the decimal spelling of a positive number back. *)
Lemma parseInt_positive (p : positive) :
  parseInt (NilEmpty.string_of_uint (Pos.to_uint p)) = Some (Z.pos p).
Proof.
  destruct (string_of_uint_plain (Pos.to_uint p)) as (Ht & Hx & Hm & Hp).
  unfold parseInt. rewrite Ht.
  destruct (NilEmpty.string_of_uint (Pos.to_uint p)) as [|c r] eqn:E.
  - exfalso. apply (to_uint_not_nil p). now destruct (Pos.to_uint p).
  - assert (Hsign : (match String c r with
                     | String "-" r0 => (true, r0)
                     | String "+" r0 => (false, r0)
                     | _ => (false, String c r)
                     end) = (false, String c r)).
    { destruct (Ascii.eqb_spec c "-") as [->|Hc]; [now specialize (Hm r)|].
      destruct (Ascii.eqb_spec c "+") as [->|Hc']; [now specialize (Hp r)|].
      destruct c as [[|] [|] [|] [|] [|] [|] [|] [|]]; try reflexivity; congruence. }
    rewrite Hsign, Hx, <- E, parse_digits_uint by apply to_uint_not_nil.
    now rewrite DecimalPos.Unsigned.of_to.
Qed.

(** Round trip: an integer printed in decimal and read by [parseInt]. *)
Lemma parseInt_string_of_Z (n : Z) : parseInt (string_of_Z n) = Some n.
Proof.
  destruct n as [|p|p]; [reflexivity| |].
  - rewrite string_of_Z_pos. apply parseInt_positive.
  - rewrite string_of_Z_neg.
    destruct (string_of_uint_plain (Pos.to_uint p)) as (Ht & Hx & Hm & Hp).
    unfold parseInt. simpl. rewrite Hx, parse_digits_uint by apply to_uint_not_nil.
    now rewrite DecimalPos.Unsigned.of_to.
Qed.

(** ** Strings *)

Lemma all_chars_impl (p q : ascii -> bool) (s : string) :
  (forall c, p c = true -> q c = true) -> all_chars p s = true -> all_chars q s = true.
Proof.
  intros Hpq. induction s as [|c s IH]; simpl; [reflexivity|].
  intros H. apply andb_prop in H as [Hc Hs]. now rewrite (Hpq c Hc), IH.
Qed.

Lemma all_chars_free_of (sep : ascii) (s : string) :
  all_chars (fun c => negb (Ascii.eqb c sep)) s = free_of sep s.
Proof. induction s as [|c s IH]; simpl; [reflexivity|now rewrite IH]. Qed.

Lemma string_of_uint_decimal (d : Decimal.uint) :
  all_chars is_decimal_char (NilEmpty.string_of_uint d) = true.
Proof. induction d; simpl; auto. Qed.

Lemma string_of_Z_decimal (n : Z) : all_chars is_decimal_char (string_of_Z n) = true.
Proof.
  destruct n as [|p|p]; [reflexivity| |].
  - rewrite string_of_Z_pos. apply string_of_uint_decimal.
  - rewrite string_of_Z_neg. simpl. apply string_of_uint_decimal.
Qed.

Lemma string_of_Z_free_of (sep : ascii) (n : Z) :
  is_decimal_char sep = false -> free_of sep (string_of_Z n) = true.
Proof.
  intros Hsep. rewrite <- all_chars_free_of.
  apply (all_chars_impl is_decimal_char); [|apply string_of_Z_decimal].
  intros c Hc. destruct (Ascii.eqb_spec c sep) as [->|]; [congruence|reflexivity].
Qed.

Lemma trimStart_plain (s : string) :
  all_chars (fun c => negb (is_space c)) s = true -> trimStart s = s.
Proof.
  destruct s as [|c s]; simpl; [reflexivity|].
  intros H. apply andb_prop in H as [Hc _].
  now destruct (is_space c).
Qed.

Lemma trimEnd_plain (s : string) :
  all_chars (fun c => negb (is_space c)) s = true -> trimEnd s = s.
Proof.
  induction s as [|c s IH]; simpl; [reflexivity|].
  intros H. apply andb_prop in H as [Hc Hs]. rewrite (IH Hs).
  destruct s; [|reflexivity]. now destruct (is_space c).
Qed.

Lemma trim_string_of_Z (n : Z) : trim (string_of_Z n) = string_of_Z n.
Proof.
  assert (H : all_chars (fun c => negb (is_space c)) (string_of_Z n) = true).
  { apply (all_chars_impl is_decimal_char); [|apply string_of_Z_decimal].
    intros c Hc. unfold is_decimal_char in Hc. unfold is_space.
    destruct (Nat.leb_spec 48 (nat_of_ascii c)), (Nat.leb_spec (nat_of_ascii c) 57),
      (Nat.eqb_spec (nat_of_ascii c) 45), (Nat.leb_spec 9 (nat_of_ascii c)),
      (Nat.leb_spec (nat_of_ascii c) 13), (Nat.eqb_spec (nat_of_ascii c) 32);
      simpl in *; try reflexivity; try discriminate; lia. }
  unfold trim. now rewrite (trimStart_plain _ H), (trimEnd_plain _ H).
Qed.

(** *** [split] and [join] *)

Lemma split_free (sep : ascii) (s : string) :
  free_of sep s = true -> split sep s = [s].
Proof.
  induction s as [|c s IH]; simpl; [reflexivity|].
  intros H. apply andb_prop in H as [Hc Hs].
  apply negb_true_iff in Hc. now rewrite Hc, (IH Hs).
Qed.

Lemma split_app_sep (sep : ascii) (a b : string) :
  free_of sep a = true ->
  split sep (a ++ String sep b) = a :: split sep b.
Proof.
  induction a as [|c a IH]; simpl.
  - intros _. now rewrite Ascii.eqb_refl.
  - intros H. apply andb_prop in H as [Hc Ha].
    apply negb_true_iff in Hc. now rewrite Hc, (IH Ha).
Qed.

(** Round trip: segments without the separator, joined and split. *)
Lemma split_join (sep : ascii) (segments : list string) :
  clean_segments sep segments -> split sep (join sep segments) = segments.
Proof.
  intros [Hne Hfree]. induction segments as [|seg rest IH]; [contradiction|].
  inversion Hfree as [|? ? Hseg Hrest]; subst.
  destruct rest as [|seg' rest'].
  - simpl. now apply split_free.
  - change (join sep (seg :: seg' :: rest'))
      with (seg ++ String sep (join sep (seg' :: rest')))%string.
    rewrite split_app_sep by assumption. f_equal. apply IH; [discriminate|assumption].
Qed.

Lemma split_not_nil (sep : ascii) (s : string) : split sep s <> [].
Proof.
  destruct (split_segments sep s) as (seg & segs & E & _). rewrite E. discriminate.
Qed.

(** What follows the last separator is what [split(sep).pop()] returns. *)
Lemma pop_split_app (sep : ascii) (a b : string) :
  free_of sep b = true -> pop (split sep (a ++ String sep b)) = b.
Proof.
  intros Hb. unfold pop. induction a as [|c a IH]; simpl.
  - rewrite Ascii.eqb_refl, (split_free _ _ Hb). reflexivity.
  - destruct (Ascii.eqb c sep).
    + destruct (split sep (a ++ String sep b)) eqn:E; [now apply split_not_nil in E|].
      exact IH.
    + destruct (split sep (a ++ String sep b)) as [|seg segs] eqn:E;
        [now apply split_not_nil in E|].
      destruct segs; [|exact IH].
      simpl in IH. subst seg.
      exfalso. clear - E Hb.
      assert (Hlen : length (split sep (a ++ String sep b)) >= 2).
      { clear E. induction a as [|c a IH]; simpl.
        - rewrite Ascii.eqb_refl. simpl.
          pose proof (split_not_nil sep b). destruct (split sep b); simpl; [contradiction|lia].
        - destruct (Ascii.eqb c sep); simpl; [lia|].
          destruct (split sep (a ++ String sep b)); simpl in *; lia. }
      rewrite E in Hlen. simpl in Hlen. lia.
Qed.

(** ** Story ids of a request *)

Lemma map_story_ids_printed (ids : list Z) :
  map_story_ids (map string_of_Z ids) = inr ids.
Proof.
  induction ids as [|id ids IH]; [reflexivity|].
  simpl. rewrite trim_string_of_Z, parseInt_string_of_Z, IH. reflexivity.
Qed.

Lemma map_story_ids_accepts (segments : list string) (ids : list Z) :
  map_story_ids segments = inr ids <->
  Forall2 (fun seg id => parseInt (trim seg) = Some id) segments ids.
Proof.
  revert ids. induction segments as [|seg rest IH]; intros ids; simpl; unfold ret.
  - split.
    + intros [= <-]. constructor.
    + intros H. inversion H. reflexivity.
  - destruct (parseInt (trim seg)) as [n|] eqn:E.
    + destruct (map_story_ids rest) as [e|parsed] eqn:Hrest; simpl.
      * split; [discriminate|]. intros H. inversion H as [|? ? ? ? Hhd Htl]; subst.
        apply IH in Htl. discriminate.
      * split.
        -- intros [= <-]. constructor; [assumption|]. now apply IH.
        -- intros H. inversion H as [|? ? ? ? Hhd Htl]; subst.
           apply IH in Htl. injection Htl as <-. congruence.
    + split; [discriminate|]. intros H. inversion H; subst. congruence.
Qed.

Lemma map_story_ids_rejects (segments : list string) (message_ : string) :
  map_story_ids segments = inl message_ ->
  exists seg, In seg segments /\ parseInt (trim seg) = None
              /\ message_ = ("Invalid story ID: " ++ trim seg)%string.
Proof.
  induction segments as [|seg rest IH]; simpl; [discriminate|].
  destruct (parseInt (trim seg)) as [n|] eqn:E.
  - destruct (map_story_ids rest) as [e|parsed]; simpl; [|discriminate].
    intros [= <-]. destruct (IH eq_refl) as (s & Hin & Hs & Hm). eauto.
  - intros [= <-]. eauto.
Qed.

(** X1. Round trip of the [story_ids] parameter: a non-empty list of safe
    integers written in decimal and separated by commas is read back as
    that very list, and the report identifier is the ids joined by
    underscores after [Stories_].  Beyond the safe integers the code reads
    and prints doubles, and the round trip is not claimed. *)
Theorem story_ids_round_trip :
  forall ids : list Z,
    ids <> [] ->
    forallb safe_integer ids = true ->
    resolve_story_ids (join "," (map string_of_Z ids))
    = inr (ids, ("Stories_" ++ join "_" (map string_of_Z ids))%string).
Proof.
  intros ids Hne _. unfold resolve_story_ids.
  rewrite split_join.
  - now rewrite map_story_ids_printed.
  - split.
    + destruct ids; [contradiction|discriminate].
    + apply Forall_map, Forall_forall. intros id _.
      now apply string_of_Z_free_of.
Qed.

Lemma story_ids_round_trip_witness :
  resolve_story_ids "123,-4,0" = inr ([123; -4; 0]%Z, "Stories_123_-4_0").
Proof.
  exact (story_ids_round_trip [123; -4; 0]%Z ltac:(discriminate) eq_refl).
Defined.

(** X2. Which [story_ids] values of ASCII text a download route accepts:
    exactly those whose comma-separated segments, trimmed, each start with
    an integer for [parseInt], whatever follows it; the answer is 400
    otherwise, and its message names a segment that does not.  An accepted
    value has one id per segment, in order; when the ids are safe
    integers, they are the integers that the segments spell and the report
    identifier is made of their decimal spellings. *)
Theorem story_ids_accepted_iff :
  forall story_ids : string,
    ascii_text story_ids = true ->
    let segments := split "," story_ids in
    ((exists ids ident, resolve_story_ids story_ids = inr (ids, ident))
     <-> Forall (fun seg => parseInt (trim seg) <> None) segments)
    /\ (forall ids ident,
          resolve_story_ids story_ids = inr (ids, ident) ->
          length ids = length segments
          /\ (forallb safe_integer ids = true ->
              Forall2 (fun seg id => parseInt (trim seg) = Some id) segments ids
              /\ ident = ("Stories_" ++ join "_" (map string_of_Z ids))%string))
    /\ (forall err,
          resolve_story_ids story_ids = inl err ->
          status err = 400
          /\ exists seg,
               In seg segments /\ parseInt (trim seg) = None
               /\ message err
                  = ("Invalid story_ids format: Invalid story ID: " ++ trim seg)%string).
Proof.
  intros story_ids _ segments. unfold resolve_story_ids. fold segments.
  refine (conj _ (conj _ _)).
  - destruct (map_story_ids segments) as [e|parsed] eqn:E.
    + split; [intros (ids & ident & H); discriminate H|].
      intros Hall. exfalso.
      destruct (map_story_ids_rejects _ _ E) as (seg & Hin & Hs & _).
      rewrite Forall_forall in Hall. now apply (Hall seg Hin).
    + split; [|eauto]. intros _.
      apply map_story_ids_accepts in E. clear - E.
      induction E as [|seg id segs ids Hhd _ IH]; constructor; [congruence|exact IH].
  - intros ids ident. destruct (map_story_ids segments) as [e|parsed] eqn:E;
      [discriminate|].
    intros [= <- <-]. apply map_story_ids_accepts in E. split.
    + symmetry. exact (Forall2_length E).
    + intros _. split; [exact E|reflexivity].
  - intros err. destruct (map_story_ids segments) as [e|parsed] eqn:E; [|discriminate].
    intros [= <-]. simpl. split; [reflexivity|].
    destruct (map_story_ids_rejects _ _ E) as (seg & Hin & Hs & ->). eauto.
Qed.

(** Blanks around an id and text after it are let through; an empty
    segment is not. *)
Lemma story_ids_accepted_iff_witness :
  (exists ids ident, resolve_story_ids " 12 ,7th" = inr (ids, ident))
  /\ ~ (exists ids ident, resolve_story_ids "1,,2" = inr (ids, ident)).
Proof.
  assert (Hread : split "," " 12 ,7th" = [" 12 "; "7th"]) by reflexivity.
  assert (Hgap : split "," "1,,2" = ["1"; ""; "2"]) by reflexivity.
  split.
  - apply (proj1 (story_ids_accepted_iff " 12 ,7th" eq_refl)).
    rewrite Hread. repeat constructor; intros E; vm_compute in E; discriminate E.
  - intros H. apply (proj1 (story_ids_accepted_iff "1,,2" eq_refl)) in H.
    rewrite Hgap, Forall_forall in H.
    apply (H ""); [right; left|]; reflexivity.
Defined.

(** ** Linked test cases *)

(** X3. [fetchRelatedTestCases] never throws.  It follows exactly the
    relations whose label holds "test" in some letter case and that have a
    URL, in the order of the relations, and keeps the work items that could
    be fetched as test cases; a failed request for the requirement gives
    the empty list. *)
Theorem fetchRelatedTestCases_follows_test_links :
  forall (backend : Backend) (userStoryId : Z),
    (forall (wi : WorkItemData) (relations : list Relation),
        backend {| workItemId := Some userStoryId; expandRelations := true |}
          = AxiosResponse (Some wi) ->
        wi_relations wi = Some relations ->
        fetchRelatedTestCases backend userStoryId
        = inr (flat_map (fun relation =>
                           if is_test_link relation
                           then linked_test_case backend relation else [])
                 relations))
    /\ (forall message_,
          backend {| workItemId := Some userStoryId; expandRelations := true |}
            = AxiosError message_ ->
          fetchRelatedTestCases backend userStoryId = inr []).
Proof.
  intros backend userStoryId. split.
  - intros wi relations Hresp Hrel. unfold fetchRelatedTestCases.
    rewrite (makeApiRequest_response _ _ _ Hresp). cbn [bind]. rewrite Hrel.
    destruct relations as [|relation rest]; [reflexivity|].
    now rewrite for_relations_closed.
  - intros message_ Hresp. unfold fetchRelatedTestCases.
    now rewrite (makeApiRequest_error _ _ _ Hresp).
Qed.

(** Requirement 100 of the sample backend: three links, the last one to an
    unknown work item. *)
Lemma fetchRelatedTestCases_follows_test_links_witness :
  map TestCase.id (sample_tests 100) = [501; 502]%Z.
Proof.
  unfold sample_tests.
  rewrite (proj1 (fetchRelatedTestCases_follows_test_links sample_backend 100)
             _ [sample_link "501"; sample_link "502"; sample_link "999"]
             eq_refl eq_refl).
  vm_compute. reflexivity.
Defined.

Lemma work_item_link_resolves (backend : Backend) (rel_ base : string) (id : Z) :
  includes (toLowerCase rel_) "test" = true ->
  is_test_link (work_item_link rel_ base id) = true
  /\ linked_test_case backend (work_item_link rel_ base id)
     = match fetchTestCase backend (Some id) with
       | inr (Some tc) => [tc]
       | _ => []
       end.
Proof.
  intros Hrel. unfold is_test_link, linked_test_case, work_item_link.
  cbn [rel url].
  assert (Hurl : str_or (Some (base ++ String "/" (string_of_Z id))%string) ""
                 = (base ++ String "/" (string_of_Z id))%string).
  { unfold str_or. now destruct base. }
  assert (Hrel' : str_or (Some rel_) "" = rel_).
  { unfold str_or. destruct (String.eqb_spec rel_ ""); congruence. }
  rewrite Hurl, Hrel', Hrel.
  split.
  - destruct base; reflexivity.
  - rewrite pop_split_app by now apply string_of_Z_free_of.
    now rewrite parseInt_string_of_Z.
Qed.

(** X4. Round trip of a link: when the relations of a requirement are
    test links whose URLs end in a slash and the decimal spelling of a safe
    integer, the test cases fetched are those of these ids, in order, ids
    whose fetch fails or that are not test cases left out. *)
Theorem fetchRelatedTestCases_resolves_ids :
  forall (backend : Backend) (userStoryId : Z) (wi : WorkItemData)
         (rel_ base : string) (ids : list Z),
    backend {| workItemId := Some userStoryId; expandRelations := true |}
      = AxiosResponse (Some wi) ->
    wi_relations wi = Some (map (work_item_link rel_ base) ids) ->
    includes (toLowerCase rel_) "test" = true ->
    forallb safe_integer ids = true ->
    fetchRelatedTestCases backend userStoryId
    = inr (flat_map (fun id => match fetchTestCase backend (Some id) with
                               | inr (Some tc) => [tc]
                               | _ => []
                               end) ids).
Proof.
  intros backend userStoryId wi rel_ base ids Hresp Hrel Htest _.
  unfold fetchRelatedTestCases.
  rewrite (makeApiRequest_response _ _ _ Hresp). cbn [bind]. rewrite Hrel.
  assert (E : for_relations backend (map (work_item_link rel_ base) ids) []
              = inr (flat_map (fun id => match fetchTestCase backend (Some id) with
                                         | inr (Some tc) => [tc]
                                         | _ => []
                                         end) ids)).
  { rewrite for_relations_closed. simpl. f_equal. clear - Htest.
    induction ids as [|id ids IH]; [reflexivity|]. simpl.
    destruct (work_item_link_resolves backend rel_ base id Htest) as [-> ->].
    now rewrite IH. }
  destruct ids as [|id ids]; [reflexivity|].
  cbn [map] in *. now rewrite E.
Qed.

Lemma fetchRelatedTestCases_resolves_ids_witness :
  map TestCase.id (sample_tests 100) = [501; 502]%Z.
Proof.
  unfold sample_tests.
  rewrite (fetchRelatedTestCases_resolves_ids sample_backend 100 _
             "Microsoft.VSTS.Common.TestedBy-Forward"
             "https://dev.azure.com/org/_apis/wit/workItems"
             [501; 502; 999]%Z eq_refl eq_refl eq_refl eq_refl).
  vm_compute. reflexivity.
Defined.

(** ** Acceptance criteria by position *)

Lemma numbered_criteria_positions (elements : list string) :
  forall (index n : nat) (text : string),
    In (n, text) (numbered_criteria index elements) <->
    (index < n
     /\ exists element,
          nth_error elements (n - index - 1) = Some element
          /\ text = trim element /\ text <> "").
Proof.
  induction elements as [|element rest IH]; intros index n text; simpl.
  - split; [contradiction|]. intros (_ & e & H & _). now destruct (n - index - 1).
  - rewrite in_app_iff, IH. split.
    + intros [H|(Hlt & e & Hnth & Ht & Hne)].
      * destruct (String.eqb_spec (trim element) ""); [contradiction|].
        destruct H as [[= <- <-]|[]]. split; [lia|].
        exists element. replace (index + 1 - index - 1) with 0 by lia. auto.
      * split; [lia|]. exists e.
        replace (n - index - 1) with (S (n - S index - 1)) by lia. auto.
    + intros (Hlt & e & Hnth & Ht & Hne).
      destruct (n - index - 1) as [|k] eqn:Hk.
      * left. simpl in Hnth. injection Hnth as ->. subst text.
        destruct (String.eqb_spec (trim e) ""); [contradiction|].
        left. f_equal. lia.
      * right. split; [lia|]. exists e.
        replace (n - S index - 1) with k by lia. auto.
Qed.

(** X5. Criterion numbers are positions.  For list items of ASCII text,
    criterion [n] with text [text] is in the mapping exactly when the
    [n]-th [<li>] element (counting from 1) has [text] as its trimmed text
    and that text is not empty.  A blank element is left out but still
    counted, so numbers can have gaps; no number occurs twice. *)
Theorem parseAcceptanceCriterias_positions :
  forall (li_elements : list string),
    forallb ascii_text li_elements = true ->
    (forall (n : nat) (text : string),
        In (n, text) (parseAcceptanceCriterias li_elements) <->
        (1 <= n
         /\ exists element,
              nth_error li_elements (n - 1) = Some element
              /\ text = trim element /\ text <> ""))
    /\ NoDup (map fst (parseAcceptanceCriterias li_elements))
    /\ length (parseAcceptanceCriterias li_elements) <= length li_elements.
Proof.
  intros li_elements _. rewrite parseAcceptanceCriterias_numbered.
  refine (conj _ (conj _ _)).
  - intros n text. rewrite numbered_criteria_positions.
    replace (n - 0 - 1) with (n - 1) by lia. split; intros [H1 H2]; (split; [lia|exact H2]).
  - pose proof (numbered_criteria_ascending li_elements 0) as Hs.
    induction Hs as [|k ks Hs IH Hall]; constructor; [|assumption].
    intros Hin. rewrite Forall_forall in Hall. apply Hall in Hin. lia.
  - generalize 0. induction li_elements as [|element rest IH]; intros index; simpl; [lia|].
    rewrite length_app. specialize (IH (S index)).
    destruct (trim element =? ""); simpl; lia.
Qed.

(** Three list items, the second one blank: the criteria are 1 and 3. *)
Lemma parseAcceptanceCriterias_positions_witness :
  In (3, "can log out") (parseAcceptanceCriterias ["can log in"; "   "; " can log out "]).
Proof.
  apply (proj1 (parseAcceptanceCriterias_positions
                  ["can log in"; "   "; " can log out "] eq_refl)).
  split; [lia|]. exists " can log out ". repeat split. discriminate.
Defined.

(** ** Classifier, letter case and fields *)

Lemma lower_ascii_idempotent (c : ascii) : lower_ascii (lower_ascii c) = lower_ascii c.
Proof.
  destruct c as [[|] [|] [|] [|] [|] [|] [|] [|]]; reflexivity.
Qed.

Lemma toLowerCase_idempotent (s : string) : toLowerCase (toLowerCase s) = toLowerCase s.
Proof.
  induction s as [|c s IH]; simpl; [reflexivity|].
  now rewrite lower_ascii_idempotent, IH.
Qed.

Lemma toLowerCase_app (a b : string) :
  toLowerCase (a ++ b) = (toLowerCase a ++ toLowerCase b)%string.
Proof. induction a as [|c a IH]; simpl; [reflexivity|now rewrite IH]. Qed.

Lemma prefix_app (kw a b : string) :
  String.prefix kw a = true -> String.prefix kw (a ++ b) = true.
Proof.
  revert a. induction kw as [|k kw IH]; intros a;
    [intros _; now destruct (a ++ b)%string|].
  destruct a as [|c a]; simpl; [discriminate|].
  destruct (Ascii.ascii_dec k c); [apply IH|discriminate].
Qed.

Lemma includes_app_l (a b kw : string) :
  includes a kw = true -> includes (a ++ b) kw = true.
Proof.
  induction a as [|c a IH].
  - simpl. rewrite orb_false_r. destruct kw; [|discriminate].
    intros _. destruct b; reflexivity.
  - cbn [includes]. intros H.
    change (String c a ++ b)%string with (String c (a ++ b)).
    cbn [includes]. apply orb_prop in H as [H|H].
    + apply (prefix_app _ _ b) in H.
      change (String c a ++ b)%string with (String c (a ++ b)) in H.
      now rewrite H.
    + rewrite (IH H). apply orb_true_r.
Qed.

Lemma includes_app_r (a b kw : string) :
  includes b kw = true -> includes (a ++ b) kw = true.
Proof.
  intros H. induction a as [|c a IH]; [exact H|].
  change (String c a ++ b)%string with (String c (a ++ b)).
  cbn [includes]. rewrite IH. apply orb_true_r.
Qed.

(** A keyword found in one of the three fields is found in the text the
    classifier searches. *)
Lemma content_includes (title description tags field kw : string) :
  In field [title; description; tags] ->
  includes (toLowerCase field) kw = true ->
  includes (toLowerCase (title ++ " " ++ description ++ " " ++ tags)) kw = true.
Proof.
  intros Hin H. rewrite !toLowerCase_app.
  destruct Hin as [<-|[<-|[<-|[]]]].
  - now apply includes_app_l.
  - apply includes_app_r, includes_app_r. now apply includes_app_l.
  - now do 4 apply includes_app_r.
Qed.

(** X6. On a title, a description and tags of ASCII text, the scenario
    classifier answers one of its six labels; it ignores letter case; a
    keyword of the first group found in any of the three fields, even
    inside a longer word, decides for API whatever else the fields hold;
    and the answer Functional means that no keyword occurs in any field. *)
Theorem determineScenarioType_fields_and_case :
  forall title description tags : string,
    forallb ascii_text [title; description; tags] = true ->
    let answer := determineScenarioType title description tags in
    In answer ["API"; "UI"; "Integration"; "Performance"; "Security"; "Functional"]
    /\ determineScenarioType (toLowerCase title) (toLowerCase description)
         (toLowerCase tags) = answer
    /\ (forall field kw,
          In field [title; description; tags] ->
          In kw ["api"; "service"; "endpoint"] ->
          includes (toLowerCase field) kw = true ->
          answer = "API")
    /\ (answer = "Functional" ->
        forall field kw,
          In field [title; description; tags] ->
          In kw scenario_keywords ->
          includes (toLowerCase field) kw = false).
Proof.
  intros title description tags _ answer. subst answer.
  refine (conj _ (conj _ (conj _ _))).
  - unfold determineScenarioType.
    repeat match goal with |- context [if ?b then _ else _] => destruct b end;
      simpl; tauto.
  - unfold determineScenarioType.
    now rewrite !toLowerCase_app, !toLowerCase_idempotent.
  - intros field kw Hf Hkw Hinc.
    pose proof (content_includes _ _ _ _ _ Hf Hinc) as Hc.
    unfold determineScenarioType.
    assert (E : existsb (includes (toLowerCase (title ++ " " ++ description ++ " " ++ tags)))
                  ["api"; "service"; "endpoint"] = true).
    { apply existsb_exists. exists kw. auto. }
    now rewrite E.
  - intros Hfun field kw Hf Hkw.
    destruct (includes (toLowerCase field) kw) eqn:Hinc; [|reflexivity].
    pose proof (content_includes _ _ _ _ _ Hf Hinc) as Hc.
    exfalso. revert Hfun. unfold determineScenarioType.
    set (content := toLowerCase (title ++ " " ++ description ++ " " ++ tags)) in *.
    unfold scenario_keywords in Hkw. simpl in Hkw.
    repeat match goal with
           | H : _ \/ _ |- _ => destruct H
           | H : False |- _ => contradiction
           end; subst kw; cbn [existsb]; rewrite Hc; rewrite ?orb_true_r;
      repeat (cbn [orb];
              match goal with
              | |- context [if ?b then _ else _] =>
                  lazymatch b with
                  | true => fail
                  | _ => destruct b
                  end
              end);
      cbn [orb]; discriminate.
Qed.

(** "EndPoint" in the tags beats "screen" in the title. *)
Lemma determineScenarioType_fields_and_case_witness :
  determineScenarioType "Login screen" "" "REST EndPoint" = "API".
Proof.
  apply (proj1 (proj2 (proj2 (determineScenarioType_fields_and_case
                                "Login screen" "" "REST EndPoint" eq_refl)))
           "REST EndPoint" "endpoint").
  - simpl. auto.
  - simpl. auto.
  - reflexivity.
Defined.

(** ** Priorities, letter case and defaults *)

(** X7. The priority class depends on the raw value only through its
    lower-cased string form: a string and its lower-case form, a number and
    its decimal spelling are classified alike.  The value 'Medium' that the
    fetchers put in place of a missing or falsy priority never changes the
    class, so the Priority of a row is the class of the raw field. *)
Theorem mapPriority_raw_field :
  (forall s : string, mapPriority (JStr (toLowerCase s)) = mapPriority (JStr s))
  /\ (forall n : Z, mapPriority (JStr (string_of_Z n)) = mapPriority (JNum n))
  /\ (forall v : JsValue, mapPriority (js_or v (JStr "Medium")) = mapPriority v)
  /\ (forall (backend : Backend) (testCaseId : option Z) (wi : WorkItemData)
             (tc : TestCase.t),
        backend {| workItemId := testCaseId; expandRelations := false |}
          = AxiosResponse (Some wi) ->
        fetchTestCase backend testCaseId = inr (Some tc) ->
        mapPriority (TestCase.priority tc)
        = mapPriority (Common_Priority (fields_of wi)))
  /\ (forall (backend : Backend) (userStoryId : Z) (wi : WorkItemData)
             (us : UserStory.t),
        backend {| workItemId := Some userStoryId; expandRelations := false |}
          = AxiosResponse (Some wi) ->
        fetchUserStory backend userStoryId = inr (Some us) ->
        mapPriority (UserStory.priority us)
        = mapPriority (Common_Priority (fields_of wi))).
Proof.
  refine (conj _ (conj _ (conj mapPriority_default (conj _ _)))).
  - intros s. unfold mapPriority. simpl. now rewrite toLowerCase_idempotent.
  - intros n. reflexivity.
  - intros backend testCaseId wi tc Hresp Hfetch. unfold fetchTestCase in Hfetch.
    rewrite (makeApiRequest_response _ _ _ Hresp) in Hfetch. simpl in Hfetch.
    fold (fields_of wi) in Hfetch.
    destruct (negb _); simpl in Hfetch; [discriminate|].
    injection Hfetch as <-. simpl. apply mapPriority_default.
  - intros backend userStoryId wi us Hresp Hfetch. unfold fetchUserStory in Hfetch.
    rewrite (makeApiRequest_response _ _ _ Hresp) in Hfetch. simpl in Hfetch.
    fold (fields_of wi) in Hfetch.
    destruct (negb _); simpl in Hfetch; [discriminate|].
    injection Hfetch as <-. simpl. apply mapPriority_default.
Qed.

(** Test case 502 of the sample backend has the raw priority 3. *)
Lemma mapPriority_raw_field_witness :
  match fetchTestCase sample_backend (Some 502%Z) with
  | inr (Some tc) => mapPriority (TestCase.priority tc) = "Low"
  | _ => False
  end.
Proof.
  destruct (fetchTestCase sample_backend (Some 502%Z)) as [e|[tc|]] eqn:E;
    [vm_compute in E; discriminate E| |vm_compute in E; discriminate E].
  rewrite (proj1 (proj2 (proj2 (proj2 mapPriority_raw_field)))
             sample_backend (Some 502%Z) _ tc eq_refl E).
  reflexivity.
Defined.

(** ** The worker pool when calls reject *)

Section RunnerFailures.
Context {T St : Type}.
Variable is_truthy : T -> bool.
Variable fn : T -> nat -> St -> Exc St.
Variable items : list T.

Lemma pending_calls_length (ws : list (@Worker T)) :
  length (pending_calls ws) = pending_count ws.
Proof.
  unfold pending_calls, pending_count.
  induction ws as [|[item index| |e] ws IH]; simpl; auto.
Qed.

Lemma worker_states_length (ws : list (@Worker T)) :
  pending_count ws + rejected_count ws <= length ws.
Proof.
  unfold pending_count, rejected_count.
  induction ws as [|[item index| |e] ws IH]; simpl; lia.
Qed.

Lemma rejected_count_app (ws ws' : list (@Worker T)) :
  rejected_count (ws ++ ws') = rejected_count ws + rejected_count ws'.
Proof. unfold rejected_count. now rewrite filter_app, length_app. Qed.

Lemma rejected_count_set_nth (w : nat) (state old : @Worker T) (ws : list Worker) :
  nth_error ws w = Some old ->
  rejected_count (set_nth w state ws) + (if is_rejected old then 1 else 0)
  = rejected_count ws + (if is_rejected state then 1 else 0).
Proof.
  unfold rejected_count. revert w.
  induction ws as [|y ws IH]; intros [|w] H; simpl in H; try discriminate.
  - injection H as ->. simpl.
    destruct (is_rejected old), (is_rejected state); simpl; lia.
  - apply IH in H. simpl. destruct (is_rejected y); simpl; lia.
Qed.

Lemma all_rejected (ws : list (@Worker T)) :
  pending_count ws = 0 -> ~ In Finished ws -> rejected_count ws = length ws.
Proof.
  unfold pending_count, rejected_count.
  induction ws as [|[item index| |e] ws IH]; simpl; intros Hq Hfin.
  - reflexivity.
  - discriminate.
  - exfalso. auto.
  - f_equal. apply IH; auto.
Qed.

Lemma spawn_failure_ledger (s0 : St) (failed : list (T * nat)) (limit : nat) :
  forall p : @Pool T St,
    pool_inv is_truthy items p ->
    failure_ledger fn s0 p failed ->
    failure_ledger fn s0 (spawn is_truthy items limit p) failed.
Proof.
  induction limit as [|limit IH]; intros p Hinv (Hperm & Hshared & Hcount & Hfirst); simpl.
  - repeat split; assumption.
  - destruct (loop is_truthy items p) as [state p1] eqn:Hloop.
    destruct (loop_spec _ _ _ _ _ Hinv Hloop) as (done & rest & Hitems & -> & Hcase).
    apply IH.
    + exists done, rest. simpl. repeat split; auto.
      intros Hin. apply in_app_or in Hin as [Hin|[Hin|[]]].
      * destruct Hcase as [(item & i & _ & _ & _ & Hno)|(_ & Hrest & _)]; tauto.
      * destruct Hcase as [(item & i & -> & _)|(_ & Hrest & _)];
          [discriminate|assumption].
    + unfold failure_ledger. cbn [calls completed workers shared rejection with_workers].
      refine (conj _ (conj Hshared (conj _ Hfirst))).
      * unfold pending_calls. rewrite flat_map_app. simpl. rewrite app_nil_r.
        destruct Hcase as [(item & i & -> & -> & _)|(-> & _ & -> & _)]; simpl.
        -- rewrite Hperm. unfold pending_calls. rewrite <- !app_assoc.
           apply Permutation_app_head. apply Permutation_app_head.
           apply Permutation_app_comm.
        -- now rewrite app_nil_r.
      * rewrite rejected_count_app, Hcount.
        destruct Hcase as [(item & i & -> & _)|(-> & _)]; unfold rejected_count; simpl; lia.
Qed.

Lemma settle_failure_ledger (s0 : St) (failed : list (T * nat)) (w : nat)
    (p : @Pool T St) (item : T) (index : nat) :
  pool_inv is_truthy items p ->
  nth_error (workers p) w = Some (Awaiting item index) ->
  failure_ledger fn s0 p failed ->
  exists failed', failure_ledger fn s0 (settle is_truthy fn items w p) failed'.
Proof.
  intros Hinv Hw (Hperm & Hshared & Hcount & Hfirst). unfold settle. rewrite Hw.
  destruct (fn item index (shared p)) as [e|s'] eqn:Hfn.
  - exists (failed ++ [(item, index)]). unfold failure_ledger.
    cbn [calls completed workers shared rejection].
    refine (conj _ (conj Hshared (conj _ _))).
    + rewrite Hperm. apply Permutation_app_head.
      pose proof (pending_calls_set_nth w (Rejected e) _ _ Hw) as H. simpl in H.
      rewrite <- H. simpl. rewrite app_assoc.
      apply Permutation_cons_app. now rewrite app_nil_r.
    + rewrite length_app. simpl.
      pose proof (rejected_count_set_nth w (Rejected e) _ _ Hw) as H. simpl in H. lia.
    + destruct failed as [|c failed']; simpl.
      * rewrite Hfirst. exists (shared p), e. auto.
      * destruct Hfirst as (s & e' & Hc & ->). exists s, e'. auto.
  - exists failed.
    match goal with |- context [loop _ _ ?q] => set (p1 := q) end.
    assert (Hinv1 : pool_inv is_truthy items p1).
    { destruct Hinv as (done & rest & H1 & H2 & H3 & H4).
      exists done, rest. subst p1. simpl. auto. }
    destruct (loop is_truthy items p1) as [state p2] eqn:Hloop.
    destruct (loop_spec _ _ _ _ _ Hinv1 Hloop) as (done & rest & Hitems & -> & Hcase).
    subst p1. unfold failure_ledger.
    cbn [calls completed workers shared rejection with_workers] in *.
    assert (Hstate : is_rejected state = false
                     /\ truthy_calls is_truthy (index_from 0 done) = calls p ++ call_of state).
    { destruct Hcase as [(it & i & -> & -> & _)|(-> & _ & -> & _)]; simpl;
        [auto|now rewrite app_nil_r]. }
    destruct Hstate as [Hrej Hcalls].
    refine (conj _ (conj _ (conj _ Hfirst))).
    + rewrite Hcalls, Hperm, <- !app_assoc.
      apply Permutation_app_head.
      pose proof (pending_calls_set_nth w state _ _ Hw) as H.
      cbn [call_of] in H.
      rewrite (app_assoc [(item, index)]), H, (app_assoc (pending_calls (workers p))).
      rewrite Permutation_app_comm. now rewrite app_assoc.
    + rewrite (replay_app fn), <- Hshared. simpl. now rewrite Hfn.
    + pose proof (rejected_count_set_nth w state _ _ Hw) as H. simpl in H.
      rewrite Hrej in H. lia.
Qed.

Lemma run_failure_ledger (s0 : St) (fuel : nat) :
  forall (sched : list nat) (p : @Pool T St) (failed : list (T * nat)),
    pool_inv is_truthy items p ->
    failure_ledger fn s0 p failed ->
    exists failed', failure_ledger fn s0 (run is_truthy fn items fuel sched p) failed'.
Proof.
  induction fuel as [|fuel IH]; intros sched p failed Hinv Hled; [eauto|].
  destruct (run_step is_truthy fn items fuel sched p)
    as [[Hq ->]|(w & item & index & Hw & ->)]; [eauto|].
  destruct (settle_spec is_truthy fn items _ _ _ _ Hinv Hw) as (H1 & _).
  destruct (settle_failure_ledger s0 failed _ _ _ _ Hinv Hw Hled) as (failed' & Hled').
  eapply IH; eassumption.
Qed.

Lemma started_pool_ledger (s0 : St) (limit : nat) :
  failure_ledger fn s0 (spawn is_truthy items limit (empty_pool s0)) [].
Proof.
  apply spawn_failure_ledger; [apply initial_pool_inv|].
  unfold failure_ledger, empty_pool. simpl. repeat split; auto.
Qed.

(** X8. The concurrency bound of [parallel], at every point of a run and
    whether calls reject or not: there are exactly [limit] workers, each
    call that was started is fulfilled, pending or rejected, a rejected
    call leaves its worker stopped, and so the calls in flight are never
    more than [limit].  With a limit of 0 nothing is ever called. *)
Theorem parallel_concurrency_bound :
  forall (limit fuel : nat) (sched : list nat) (s0 : St),
    let p := run is_truthy fn items fuel sched
               (spawn is_truthy items limit (empty_pool s0)) in
    length (workers p) = limit
    /\ length (calls p)
       = length (completed p) + pending_count (workers p) + rejected_count (workers p)
    /\ pending_count (workers p) + rejected_count (workers p) <= limit
    /\ length (calls p) - length (completed p) <= limit
    /\ (limit = 0 -> calls p = [] /\ shared p = s0).
Proof.
  intros limit fuel sched s0 p.
  destruct (spawn_spec is_truthy fn items limit _ (initial_pool_inv is_truthy items s0))
    as (Hinv & Hlen & _).
  destruct (run_spec is_truthy fn items fuel sched _ Hinv) as (_ & Hlen' & _).
  destruct (run_failure_ledger s0 fuel sched _ _ Hinv (started_pool_ledger s0 limit))
    as (failed & Hperm & _ & Hcount & _).
  unfold empty_pool in *. fold p in Hlen', Hperm, Hcount.
  assert (Hworkers : length (workers p) = limit).
  { rewrite Hlen', Hlen. reflexivity. }
  assert (Hcalls : length (calls p)
                   = length (completed p) + pending_count (workers p)
                     + rejected_count (workers p)).
  { rewrite (Permutation_length Hperm), !length_app, pending_calls_length, Hcount. lia. }
  pose proof (worker_states_length (workers p)) as Hstates.
  refine (conj Hworkers (conj Hcalls (conj _ (conj _ _)))); try lia.
  intros ->. subst p. simpl. destruct fuel; simpl; auto.
Qed.

(** X9. What [parallel] does when calls reject.  The calls that were
    started are those owed to a prefix of the items; each is fulfilled or
    rejected when the run is over, and the shared state is the fulfilled
    ones replayed in completion order.  The promise rejects exactly when
    some call rejected, and then with the error of the call that rejected
    first.  A rejected call stops its worker: at most [limit] calls
    reject, and truthy items are left without a call only when [limit]
    calls have rejected. *)
Theorem parallel_rejection_semantics :
  forall (limit : nat) (sched : list nat) (s0 : St),
    let p := parallel_pool is_truthy fn items limit sched s0 in
    exists done rest failed,
      items = done ++ rest
      /\ calls p = truthy_calls is_truthy (index_from 0 done)
      /\ Permutation (calls p) (completed p ++ failed)
      /\ shared p = replay fn (completed p) s0
      /\ length failed <= limit
      /\ (filter is_truthy rest <> [] -> length failed = limit)
      /\ match failed with
         | [] => parallel is_truthy fn items limit sched s0 = inr (shared p)
         | c :: _ =>
             exists s e,
               fn (fst c) (snd c) s = inl e
               /\ parallel is_truthy fn items limit sched s0 = inl e
         end.
Proof.
  intros limit sched s0 p.
  destruct (parallel_pool_settles is_truthy fn items limit sched s0) as (Hinv & Hlen & Hq).
  fold p in Hinv, Hlen, Hq.
  destruct (spawn_spec is_truthy fn items limit _ (initial_pool_inv is_truthy items s0))
    as (Hinv0 & _).
  destruct (run_failure_ledger s0 (length items) sched _ _ Hinv0
              (started_pool_ledger s0 limit))
    as (failed & Hperm & Hshared & Hcount & Hfirst).
  unfold empty_pool in *.
  change (run is_truthy fn items (length items) sched
            (spawn is_truthy items limit
               {| cursor := 0; workers := []; calls := []; completed := [];
                  shared := s0; rejection := None |})) with p in *.
  destruct Hinv as (done & rest & Hitems & _ & Hcalls & Hfin).
  exists done, rest, failed.
  rewrite (pending_calls_quiescent _ Hq) in Hperm. simpl in Hperm.
  pose proof (worker_states_length (workers p)) as Hstates.
  refine (conj Hitems (conj Hcalls (conj Hperm (conj Hshared (conj _ (conj _ _)))))).
  - lia.
  - intros Hrest. rewrite Hcount, <- Hlen. apply all_rejected; [exact Hq|].
    intros Hin. apply Hfin in Hin. subst rest. now apply Hrest.
  - unfold parallel. fold p. destruct failed as [|c failed'].
    + now rewrite Hfirst.
    + destruct Hfirst as (s & e & Hc & Hrej). exists s, e. now rewrite Hrej.
Qed.
End RunnerFailures.

(** ** Sets and partitions *)

Lemma Set_of_acc {A : Type} (eqb : A -> A -> bool)
    (eqb_spec : forall x y, eqb x y = true <-> x = y) (arr : list A) :
  forall seen,
    NoDup seen ->
    let result := fold_left (fun seen x => if existsb (eqb x) seen then seen
                                           else seen ++ [x]) arr seen in
    NoDup result /\ (forall x, In x result <-> In x seen \/ In x arr).
Proof.
  induction arr as [|a arr IH]; intros seen Hnd; simpl.
  - split; [assumption|]. intros x. tauto.
  - destruct (existsb (eqb a) seen) eqn:E.
    + destruct (IH seen Hnd) as [H1 H2]. split; [assumption|].
      intros x. rewrite H2. apply existsb_exists in E as (y & Hy & Hay).
      apply eqb_spec in Hay. subst y. intuition (subst; auto).
    + assert (Hnd' : NoDup (seen ++ [a])).
      { apply NoDup_app; [assumption|repeat constructor; intros []|].
        intros x Hx Hx'. destruct Hx' as [Hax|[]]. subst x.
        assert (existsb (eqb a) seen = true); [|congruence].
        apply existsb_exists. exists a. split; [assumption|now apply eqb_spec]. }
      destruct (IH _ Hnd') as [H1 H2]. split; [assumption|].
      intros x. rewrite H2, in_app_iff. simpl. tauto.
Qed.

(** [new Set(arr)] has each element of [arr] once. *)
Lemma Set_of_spec {A : Type} (eqb : A -> A -> bool)
    (eqb_spec : forall x y, eqb x y = true <-> x = y) (arr : list A) :
  NoDup (Set_of eqb arr) /\ (forall x, In x (Set_of eqb arr) <-> In x arr).
Proof.
  destruct (Set_of_acc eqb eqb_spec arr [] (NoDup_nil A)) as [H1 H2].
  split; [exact H1|]. intros x. rewrite (H2 x). simpl. tauto.
Qed.

Lemma Set_of_size_le {A : Type} (eqb : A -> A -> bool)
    (eqb_spec : forall x y, eqb x y = true <-> x = y) (arr arr' : list A) :
  incl arr arr' -> length (Set_of eqb arr) <= length (Set_of eqb arr').
Proof.
  intros Hincl.
  destruct (Set_of_spec eqb eqb_spec arr) as [Hnd Hin].
  destruct (Set_of_spec eqb eqb_spec arr') as [_ Hin'].
  apply NoDup_incl_length; [assumption|].
  intros x Hx. apply Hin'. apply Hincl. now apply Hin.
Qed.

Lemma Set_of_size_le_length {A : Type} (eqb : A -> A -> bool)
    (eqb_spec : forall x y, eqb x y = true <-> x = y) (arr : list A) :
  length (Set_of eqb arr) <= length arr.
Proof.
  destruct (Set_of_spec eqb eqb_spec arr) as [Hnd Hin].
  apply NoDup_incl_length; [assumption|]. intros x. apply Hin.
Qed.

(** Counting by key: over distinct keys, the classes add up to the
    elements whose key is one of them. *)
Lemma count_by_key {A K : Type} (key : A -> K) (eqb : K -> K -> bool)
    (eqb_spec : forall x y, eqb x y = true <-> x = y) (l : list A) (keys : list K) :
  NoDup keys ->
  list_sum (map (fun k => length (filter (fun x => eqb (key x) k) l)) keys)
  = length (filter (fun x => existsb (eqb (key x)) keys) l).
Proof.
  intros Hnd. induction Hnd as [|k keys Hk Hnd IH]; simpl.
  - induction l; simpl; auto.
  - rewrite IH. clear IH. induction l as [|x l IHl]; simpl; [reflexivity|].
    destruct (eqb (key x) k) eqn:E; simpl.
    + apply eqb_spec in E.
      assert (Hno : existsb (eqb (key x)) keys = false).
      { destruct (existsb (eqb (key x)) keys) eqn:E'; [|reflexivity].
        apply existsb_exists in E' as (y & Hy & Hxy). apply eqb_spec in Hxy.
        subst. contradiction. }
      rewrite Hno. simpl. lia.
    + destruct (existsb (eqb (key x)) keys); simpl; lia.
Qed.

Lemma string_eqb_iff (x y : string) : (x =? y) = true <-> x = y.
Proof. apply String.eqb_eq. Qed.

(** ** The matrix, whatever the completion order *)

Lemma flat_map_length_sum {A B : Type} (f : A -> list B) (l : list A) :
  length (flat_map f l) = list_sum (map (fun x => length (f x)) l).
Proof.
  induction l as [|x l IH]; simpl; [reflexivity|]. now rewrite length_app, IH.
Qed.

Lemma flat_map_permutation {A B : Type} (f : A -> list B) (l l' : list A) :
  Permutation l l' -> Permutation (flat_map f l) (flat_map f l').
Proof.
  induction 1; simpl.
  - constructor.
  - now apply Permutation_app_head.
  - rewrite !app_assoc. apply Permutation_app_tail, Permutation_app_comm.
  - etransitivity; eassumption.
Qed.

Lemma list_sum_permutation (l l' : list nat) :
  Permutation l l' -> list_sum l = list_sum l'.
Proof. induction 1; simpl; lia. Qed.

(** X10. The matrix does not depend on the order in which the fetch
    pipelines come to an end, up to the order of the row groups: two runs
    on the same ids against the same backend give matrices that are
    permutations of each other, with one row group for each non-zero id of
    the request, repeated ids included; ids equal to 0 are passed over. *)
Theorem generateRTM_order_independent :
  forall (backend : Backend) (userStoryIds : list Z) (sched sched' : list nat),
    exists rows rows',
      generateRTM backend userStoryIds sched = inr rows
      /\ generateRTM backend userStoryIds sched' = inr rows'
      /\ Permutation rows rows'
      /\ Permutation rows
           (flat_map (story_rows backend) (filter nonzero userStoryIds))
      /\ length rows
         = list_sum (map (fun id => length (story_rows backend id))
                         (filter nonzero userStoryIds)).
Proof.
  intros backend userStoryIds sched sched'.
  destruct (generateRTM_groups backend userStoryIds sched) as (order & Hperm & ->).
  destruct (generateRTM_groups backend userStoryIds sched') as (order' & Hperm' & ->).
  do 2 eexists. repeat split.
  - apply flat_map_permutation. now rewrite Hperm, Hperm'.
  - now apply flat_map_permutation.
  - rewrite flat_map_length_sum. apply list_sum_permutation.
    now apply Permutation_map.
Qed.

(** ** Rows of a linked requirement, counted *)

Lemma criterion_rows_length (userStoryId : Z) (us : UserStory.t)
    (testCases : list TestCase.t) (entry : nat * string) :
  length (criterion_rows userStoryId us testCases entry)
  = Nat.max 1 (length (grouped_under (fst entry) testCases)).
Proof.
  unfold criterion_rows.
  destruct (grouped_under (fst entry) testCases) as [|tc group] eqn:E; [reflexivity|].
  rewrite length_map. simpl. lia.
Qed.

Lemma criterion_rows_covered (userStoryId : Z) (us : UserStory.t)
    (testCases : list TestCase.t) (entry : nat * string) :
  count (fun row => Row.Status row =? "Covered")
        (criterion_rows userStoryId us testCases entry)
  = length (grouped_under (fst entry) testCases).
Proof.
  unfold criterion_rows, count.
  destruct (grouped_under (fst entry) testCases) as [|tc group] eqn:E; [reflexivity|].
  rewrite <- E. clear E. induction (grouped_under (fst entry) testCases); simpl; auto.
Qed.

Lemma count_flat_map {A : Type} (pred : Row.t -> bool) (f : A -> list Row.t) (l : list A) :
  count pred (flat_map f l) = list_sum (map (fun x => count pred (f x)) l).
Proof.
  unfold count. induction l as [|x l IH]; simpl; [reflexivity|].
  now rewrite filter_app, length_app, IH.
Qed.

Lemma grouped_partition (criteria : list (nat * string)) (testCases : list TestCase.t) :
  NoDup (map fst criteria) ->
  list_sum (map (fun entry => length (grouped_under (fst entry) testCases)) criteria)
  = length (filter (refers_to_criterion criteria) testCases).
Proof.
  intros Hnd. unfold refers_to_criterion.
  induction criteria as [|[n text] rest IH]; simpl.
  - induction testCases; simpl; auto.
  - inversion Hnd as [|? ? Hn Hrest]; subst. rewrite (IH Hrest). clear IH.
    unfold grouped_under.
    induction testCases as [|tc tcs IHt]; simpl; [reflexivity|].
    destruct (sameValueZero (TestCase.acceptanceCriteria tc) (JNum (Z.of_nat n))) eqn:E;
      simpl.
    + assert (Hno : existsb (fun entry =>
                               sameValueZero (TestCase.acceptanceCriteria tc)
                                 (JNum (Z.of_nat (fst entry)))) rest = false).
      { destruct (existsb _ rest) eqn:E'; [|reflexivity].
        apply existsb_exists in E' as ([m t] & Hm & Hsame). simpl in Hsame.
        apply sameValueZero_eq in E, Hsame. rewrite E in Hsame.
        injection Hsame as Hnm. apply Nat2Z.inj in Hnm. subst m.
        exfalso. apply Hn. apply in_map_iff. exists (n, t). auto. }
      rewrite Hno. simpl. lia.
    + destruct (existsb _ rest); simpl; lia.
Qed.

(** X11. Row count of a requirement with linked test cases: each
    criterion gives as many rows as fetched entries refer to its number,
    and one row when none does.  Hence at least one row per criterion, no
    row at all when the requirement has no criteria, and the Covered rows
    are as many as the fetched entries whose reference is the number of a
    criterion, never more than the fetched entries: an entry whose
    reference is not the number of a criterion is in no row.  An entry is
    one link that could be fetched, so a test case that is linked twice is
    two entries. *)
Theorem linked_requirement_row_count :
  forall (backend : Backend) (userStoryId : Z) (us : UserStory.t)
         (testCases : list TestCase.t),
    fetchUserStory backend userStoryId = inr (Some us) ->
    fetchRelatedTestCases backend userStoryId = inr testCases ->
    testCases <> [] ->
    let criteria := UserStory.acceptanceCriteria us in
    let rows := story_rows backend userStoryId in
    length rows
    = list_sum (map (fun entry =>
                       Nat.max 1 (length (grouped_under (fst entry) testCases)))
                    criteria)
    /\ length criteria <= length rows
    /\ (criteria = [] -> rows = [])
    /\ count (fun row => Row.Status row =? "Covered") rows
       = length (filter (refers_to_criterion criteria) testCases)
    /\ count (fun row => Row.Status row =? "Covered") rows <= length testCases.
Proof.
  intros backend userStoryId us testCases Hus Htc Hne criteria rows.
  assert (Hrows : rows = flat_map (criterion_rows userStoryId us testCases) criteria).
  { subst rows. unfold story_rows.
    now rewrite (process_user_story_linked _ _ 0 [] _ _ Hus Htc Hne). }
  assert (Hlen : length rows
                 = list_sum (map (fun entry =>
                                    Nat.max 1 (length (grouped_under (fst entry) testCases)))
                                 criteria)).
  { rewrite Hrows, flat_map_length_sum. f_equal. apply map_ext.
    intros entry. apply criterion_rows_length. }
  assert (Hcov : count (fun row => Row.Status row =? "Covered") rows
                 = length (filter (refers_to_criterion criteria) testCases)).
  { rewrite Hrows, count_flat_map.
    rewrite (map_ext _ (fun entry => length (grouped_under (fst entry) testCases)))
      by (intros; apply criterion_rows_covered).
    pose proof (fetchUserStory_criteria_ascending _ _ _ Hus) as Hsorted.
    unfold Object_entries in Hsorted. fold criteria in Hsorted.
    assert (Hnd : NoDup (map fst criteria)).
    { clear - Hsorted. induction Hsorted as [|k ks Hs IH Hall]; constructor; [|assumption].
      intros Hin. rewrite Forall_forall in Hall. apply Hall in Hin. lia. }
    now apply grouped_partition. }
  refine (conj Hlen (conj _ (conj _ (conj Hcov _)))).
  - rewrite Hlen. clear. induction criteria as [|e l IH]; [apply Nat.le_refl|].
    cbn [map length]. unfold list_sum in *. cbn [fold_right].
    pose proof (Nat.le_max_l 1 (length (grouped_under (fst e) testCases))). lia.
  - intros E. rewrite Hrows, E. reflexivity.
  - rewrite Hcov. apply filter_length_le.
Qed.

(** Requirement 100 of the sample backend: of its two linked test cases
    one refers to the number of a criterion. *)
Lemma linked_requirement_row_count_witness :
  count (fun row => Row.Status row =? "Covered") (story_rows sample_backend 100)
  = length (filter (refers_to_criterion (UserStory.acceptanceCriteria (sample_story 100)))
                   (sample_tests 100))
  /\ length (UserStory.acceptanceCriteria (sample_story 100))
     <= length (story_rows sample_backend 100).
Proof.
  assert (Hus : fetchUserStory sample_backend 100 = inr (Some (sample_story 100)))
    by (vm_compute; reflexivity).
  assert (Htc : fetchRelatedTestCases sample_backend 100 = inr (sample_tests 100))
    by (vm_compute; reflexivity).
  assert (Hne : sample_tests 100 <> []) by (vm_compute; discriminate).
  destruct (linked_requirement_row_count sample_backend 100%Z _ _ Hus Htc Hne)
    as (_ & Hrows & _ & Hcovered & _).
  exact (conj Hcovered Hrows).
Defined.

(** ** Statistics *)

Lemma count_ext (p q : Row.t -> bool) (rtmData : list Row.t) :
  Forall (fun row => p row = q row) rtmData -> count p rtmData = count q rtmData.
Proof.
  unfold count. induction 1 as [|row rest Hrow _ IH]; [reflexivity|].
  simpl. rewrite Hrow. destruct (q row); simpl; now rewrite IH.
Qed.

Lemma count_or (p q : Row.t -> bool) (rtmData : list Row.t) :
  Forall (fun row => p row && q row = false) rtmData ->
  count p rtmData + count q rtmData = count (fun row => p row || q row) rtmData.
Proof.
  unfold count. induction 1 as [|row rest Hrow _ IH]; [reflexivity|].
  simpl. destruct (p row), (q row); simpl in *; try discriminate; lia.
Qed.

Lemma count_filter (p q : Row.t -> bool) (rtmData : list Row.t) :
  count p (filter q rtmData) = count (fun row => q row && p row) rtmData.
Proof.
  unfold count. induction rtmData as [|row rest IH]; [reflexivity|].
  simpl. destruct (q row); simpl; [destruct (p row); simpl|]; now rewrite IH.
Qed.

Lemma nonempty_feature_listed (rtmData : list Row.t) :
  Forall (fun row =>
            existsb (String.eqb (Row.Feature row))
                    (Set_of String.eqb (filter nonempty (map Row.Feature rtmData)))
            = nonempty (Row.Feature row)) rtmData.
Proof.
  destruct (Set_of_spec String.eqb string_eqb_iff (filter nonempty (map Row.Feature rtmData)))
    as [_ Hin].
  apply Forall_forall. intros row Hrow.
  destruct (nonempty (Row.Feature row)) eqn:E.
  - apply existsb_exists. exists (Row.Feature row). split; [|apply String.eqb_refl].
    apply Hin. apply filter_In. split; [now apply in_map|assumption].
  - destruct (existsb _ _) eqn:E'; [|reflexivity].
    apply existsb_exists in E' as (f & Hf & Heq). apply String.eqb_eq in Heq. subst f.
    apply Hin in Hf. apply filter_In in Hf as [_ Hf]. congruence.
Qed.

Lemma module_sum (pred : Row.t -> bool) (rtmData : list Row.t) :
  list_sum (map (fun feature =>
                   count pred (filter (fun row => Row.Feature row =? feature) rtmData))
                (Set_of String.eqb (filter nonempty (map Row.Feature rtmData))))
  = count (fun row => nonempty (Row.Feature row) && pred row) rtmData.
Proof.
  destruct (Set_of_spec String.eqb string_eqb_iff (filter nonempty (map Row.Feature rtmData)))
    as [Hnd _].
  pose proof (nonempty_feature_listed rtmData) as Hlisted.
  set (features := Set_of String.eqb (filter nonempty (map Row.Feature rtmData))) in *.
  rewrite (map_ext _ (fun feature =>
                        length (filter (fun row => Row.Feature row =? feature)
                                       (filter pred rtmData)))).
  2:{ intros feature. unfold count. clear. induction rtmData as [|row rest IH]; [reflexivity|].
      simpl. destruct (Row.Feature row =? feature) eqn:E, (pred row) eqn:E';
        simpl; rewrite ?E, ?E'; simpl; now rewrite IH. }
  rewrite (count_by_key Row.Feature String.eqb string_eqb_iff _ _ Hnd).
  unfold count. clear Hnd. clearbody features.
  induction Hlisted as [|row rest Hrow _ IH]; [reflexivity|].
  simpl. destruct (pred row) eqn:E; simpl.
  - rewrite Hrow. destruct (nonempty (Row.Feature row)); simpl; now rewrite IH.
  - rewrite andb_false_r. exact IH.
Qed.

(** X12. The per-feature statistics of [/rtm-download] partition the rows
    that have a feature: the modules are the distinct non-empty features of
    the matrix, each once, as many as [totalModules]; each module counts at
    least one row, so its percentage is never the guarded 0 of an empty
    module; and the modules' row counts, covered counts, passes and fails
    add up to those of the rows whose feature is not empty.  A row with an
    empty feature is in the overall totals and in no module. *)
Theorem module_kpi_partition :
  forall (rtmData : list Row.t),
    let kpi := rtm_download_kpi rtmData in
    let modules := Kpi.moduleWiseCoverage kpi in
    let featured pred := count (fun row => nonempty (Row.Feature row) && pred row) rtmData in
    NoDup (map ModuleKpi.feature modules)
    /\ (forall feature,
          In feature (map ModuleKpi.feature modules)
          <-> feature <> "" /\ exists row, In row rtmData /\ Row.Feature row = feature)
    /\ length modules = Kpi.totalModules kpi
    /\ Forall (fun m => 1 <= ModuleKpi.totalUseCases m
                        /\ ModuleKpi.totalCovered m <= ModuleKpi.totalUseCases m) modules
    /\ list_sum (map ModuleKpi.totalUseCases modules) = featured (fun _ => true)
    /\ list_sum (map ModuleKpi.totalCovered modules)
       = featured (fun row => Row.Status row =? "Covered")
    /\ list_sum (map ModuleKpi.pass modules)
       = featured (fun row => Row.Execution row =? "Pass")
    /\ list_sum (map ModuleKpi.fail modules)
       = featured (fun row => Row.Execution row =? "Fail")
    /\ list_sum (map ModuleKpi.totalUseCases modules) <= Kpi.totalUseCases kpi.
Proof.
  intros rtmData kpi modules featured.
  destruct (Set_of_spec String.eqb string_eqb_iff (filter nonempty (map Row.Feature rtmData)))
    as [Hnd Hin].
  assert (Hfeatures : map ModuleKpi.feature modules
                      = Set_of String.eqb (filter nonempty (map Row.Feature rtmData))).
  { subst modules kpi. unfold rtm_download_kpi. cbn [Kpi.moduleWiseCoverage].
    rewrite map_map. cbn [ModuleKpi.feature]. apply map_id. }
  assert (Htotal : list_sum (map ModuleKpi.totalUseCases modules) = featured (fun _ => true)).
  { subst modules kpi featured. unfold rtm_download_kpi. cbn [Kpi.moduleWiseCoverage].
    rewrite map_map. cbn [ModuleKpi.totalUseCases].
    rewrite <- (module_sum (fun _ => true)). f_equal. apply map_ext.
    intros feature. unfold count. clear.
    induction (filter _ rtmData) as [|row rest IH]; [reflexivity|]. simpl. now rewrite IH. }
  repeat match goal with |- _ /\ _ => split end.
  - rewrite Hfeatures. exact Hnd.
  - intros feature. rewrite Hfeatures, Hin, filter_In, in_map_iff. unfold nonempty. split.
    + intros [(row & <- & Hrow) Hne]. split; [|eauto].
      intros E. rewrite E in Hne. discriminate.
    + intros [Hne (row & Hrow & <-)]. split; [eauto|].
      apply negb_true_iff. now apply String.eqb_neq.
  - subst modules kpi. unfold rtm_download_kpi.
    cbn [Kpi.moduleWiseCoverage Kpi.totalModules]. apply length_map.
  - subst modules kpi. unfold rtm_download_kpi. cbn [Kpi.moduleWiseCoverage].
    apply Forall_map. apply Forall_forall. intros feature Hf.
    cbn [ModuleKpi.totalUseCases ModuleKpi.totalCovered]. split; [|apply count_le_length].
    apply Hin in Hf. apply filter_In in Hf as [Hf _].
    apply in_map_iff in Hf as (row & <- & Hrow).
    assert (Hrow' : In row (filter (fun row' => Row.Feature row' =? Row.Feature row) rtmData)).
    { apply filter_In. split; [assumption|apply String.eqb_refl]. }
    destruct (filter _ rtmData); [contradiction|simpl; lia].
  - exact Htotal.
  - subst modules kpi featured. unfold rtm_download_kpi. cbn [Kpi.moduleWiseCoverage].
    rewrite map_map. cbn [ModuleKpi.totalCovered]. apply module_sum.
  - subst modules kpi featured. unfold rtm_download_kpi. cbn [Kpi.moduleWiseCoverage].
    rewrite map_map. cbn [ModuleKpi.pass]. apply module_sum.
  - subst modules kpi featured. unfold rtm_download_kpi. cbn [Kpi.moduleWiseCoverage].
    rewrite map_map. cbn [ModuleKpi.fail]. apply module_sum.
  - rewrite Htotal. subst featured kpi. unfold rtm_download_kpi. cbn [Kpi.totalUseCases].
    apply count_le_length.
Qed.

Lemma scenario_counts (rtmData : list Row.t) :
  count (fun row => Row.ScenarioType row =? "Positive") rtmData
  + count (fun row => Row.ScenarioType row =? "Negative") rtmData
  + count (fun row => Row.ScenarioType row =? "Edge Case") rtmData
  + count (fun row => Row.ScenarioType row =? "Integration") rtmData
  <= length rtmData.
Proof.
  unfold count. induction rtmData as [|row rest IH]; [apply Nat.le_refl|].
  cbn [filter].
  destruct (Row.ScenarioType row =? "Positive") eqn:E1;
    [apply String.eqb_eq in E1; rewrite E1; cbn [String.eqb Ascii.eqb Bool.eqb]|];
    (destruct (Row.ScenarioType row =? "Negative") eqn:E2;
     [apply String.eqb_eq in E2; rewrite E2 in *; cbn [String.eqb Ascii.eqb Bool.eqb]|]);
    (destruct (Row.ScenarioType row =? "Edge Case") eqn:E3;
     [apply String.eqb_eq in E3; rewrite E3 in *; cbn [String.eqb Ascii.eqb Bool.eqb]|]);
    try discriminate;
    destruct (Row.ScenarioType row =? "Integration"); cbn [length]; lia.
Qed.

Lemma execution_counts (rtmData : list Row.t) :
  count (fun row => Row.Execution row =? "Pass") rtmData
  + count (fun row => Row.Execution row =? "Fail") rtmData
  <= length rtmData.
Proof.
  rewrite count_or.
  - apply count_le_length.
  - apply Forall_forall. intros row _.
    destruct (Row.Execution row =? "Pass") eqn:E; [|reflexivity].
    apply String.eqb_eq in E. now rewrite E.
Qed.

(** X13. Bounds of the overall statistics of [/rtm-download], for any
    matrix: the requirements without a Covered row are never negative and
    never more than the requirements; requirements and modules are each at
    most the rows; the four counted scenario types together, and passes
    and fails together, are at most the rows; and the statistics report no
    requirement exactly for the empty matrix. *)
Theorem kpi_bounds :
  forall (rtmData : list Row.t),
    let kpi := rtm_download_kpi rtmData in
    (0 <= Kpi.uncoveredUserStories kpi <= Z.of_nat (Kpi.totalUserStories kpi))%Z
    /\ Kpi.totalUserStories kpi <= Kpi.totalUseCases kpi
    /\ Kpi.totalModules kpi <= Kpi.totalUseCases kpi
    /\ Kpi.totalCovered kpi <= Kpi.totalUseCases kpi
    /\ Kpi.positive kpi + Kpi.negative kpi + Kpi.edgeCases kpi + Kpi.integration kpi
       <= Kpi.totalUseCases kpi
    /\ Kpi.executionTotal kpi <= Kpi.totalUseCases kpi
    /\ (Kpi.totalUserStories kpi = 0 <-> rtmData = []).
Proof.
  intros rtmData kpi. subst kpi. unfold rtm_download_kpi.
  cbn [Kpi.uncoveredUserStories Kpi.totalUserStories Kpi.totalUseCases Kpi.totalModules
       Kpi.totalCovered Kpi.positive Kpi.negative Kpi.edgeCases Kpi.integration
       Kpi.executionTotal].
  assert (Hcov : length (Set_of Z.eqb
                           (map Row.UserStoryID
                              (filter (fun row => Row.Status row =? "Covered") rtmData)))
                 <= length (Set_of Z.eqb (map Row.UserStoryID rtmData))).
  { apply (Set_of_size_le Z.eqb Z.eqb_eq). intros id Hid.
    apply in_map_iff in Hid as (row & <- & Hrow). apply filter_In in Hrow as [Hrow _].
    now apply in_map. }
  repeat match goal with |- _ /\ _ => split end.
  - lia.
  - lia.
  - etransitivity; [apply (Set_of_size_le_length Z.eqb Z.eqb_eq)|]. now rewrite length_map.
  - etransitivity; [apply (Set_of_size_le_length String.eqb string_eqb_iff)|].
    etransitivity; [apply filter_length_le|]. now rewrite length_map.
  - apply count_le_length.
  - apply scenario_counts.
  - apply execution_counts.
  - destruct (Set_of_spec Z.eqb Z.eqb_eq (map Row.UserStoryID rtmData)) as [_ Hin].
    split; [|intros ->; reflexivity].
    intros H. destruct rtmData as [|row rest]; [reflexivity|].
    apply length_zero_iff_nil in H. exfalso.
    specialize (Hin (Row.UserStoryID row)). rewrite H in Hin. apply Hin. now left.
Qed.

(** ** Statistics of a generated matrix *)

Lemma determineScenarioType_label (title description tags : string) :
  In (determineScenarioType title description tags) scenario_labels.
Proof.
  unfold determineScenarioType, scenario_labels.
  repeat match goal with |- context [if ?c then _ else _] => destruct c end;
    simpl; tauto.
Qed.

Lemma story_rows_generated (backend : Backend) (userStoryId : Z) :
  Forall generated_row (story_rows backend userStoryId).
Proof.
  apply Forall_forall. intros row Hin.
  destruct (story_rows_cases backend userStoryId)
    as [[_ E]|[(us & Hus & _ & E)|(us & tcs & Hus & Htc & _ & E)]];
    rewrite E in Hin.
  - contradiction.
  - destruct Hin as [<-|[]]. right. cbn. repeat split; auto.
    apply determineScenarioType_label.
  - apply in_flat_map in Hin as (entry & _ & Hin).
    apply criterion_rows_shape in Hin as [->|(tc & Htcin & ->)].
    + right. cbn. repeat split; auto. unfold scenario_labels. simpl. tauto.
    + left. cbn. repeat split; eauto.
      destruct (fetchRelatedTestCases_fetched _ _ _ Htc _ Htcin) as (testCaseId & Hfetch).
      exact (executionStatus_of_fetched _ _ _ Hfetch).
Qed.

Lemma generateRTM_generated (backend : Backend) (userStoryIds : list Z) (sched : list nat)
    (rows : list Row.t) :
  generateRTM backend userStoryIds sched = inr rows -> Forall generated_row rows.
Proof. apply generateRTM_rows. apply story_rows_generated. Qed.

Lemma generated_row_tests (row : Row.t) :
  generated_row row ->
  ((Row.Execution row =? "Pass") || (Row.Execution row =? "Fail")
   = (Row.Status row =? "Covered"))
  /\ not_empty_string (Row.TestCaseID row) = (Row.Status row =? "Covered")
  /\ ((Row.Status row =? "Covered") || (Row.Status row =? "Missing") = true)
  /\ (forall label, ~ In label scenario_labels ->
        (Row.ScenarioType row =? label)
        = (Row.ScenarioType row =? label) && (Row.Status row =? "Covered")).
Proof.
  intros [(Hs & He & id & Hid)|(Hs & He & Hid & Hlabel)]; rewrite Hs, Hid.
  - repeat split.
    + destruct He as [-> | ->]; reflexivity.
    + intros label _. now rewrite andb_true_r.
  - rewrite He. repeat split. intros label Hno.
    destruct (Row.ScenarioType row =? label) eqn:E; [|reflexivity].
    apply String.eqb_eq in E. congruence.
Qed.

(** X14. Statistics of a matrix that [generateRTM] returned: the
    executions counted by [/rtm-download] are exactly the Covered rows
    (each Covered row is a Pass or a Fail, a Missing row has no
    execution), every row is Covered or Missing, and a row of scenario
    type Positive, Negative or Edge Case is always Covered, since the
    classifier of the rows without test case answers none of these
    labels. *)
Theorem generated_matrix_kpi :
  forall (backend : Backend) (userStoryIds : list Z) (sched : list nat)
         (rows : list Row.t),
    generateRTM backend userStoryIds sched = inr rows ->
    let kpi := rtm_download_kpi rows in
    let covered label :=
      count (fun row => (Row.ScenarioType row =? label) && (Row.Status row =? "Covered"))
            rows in
    Kpi.executionTotal kpi = Kpi.totalCovered kpi
    /\ Kpi.totalCovered kpi + count (fun row => Row.Status row =? "Missing") rows
       = Kpi.totalUseCases kpi
    /\ Kpi.positive kpi = covered "Positive"
    /\ Kpi.negative kpi = covered "Negative"
    /\ Kpi.edgeCases kpi = covered "Edge Case".
Proof.
  intros backend userStoryIds sched rows Hgen kpi covered.
  pose proof (generateRTM_generated _ _ _ _ Hgen) as Hrows.
  assert (Htests := Forall_impl _ generated_row_tests Hrows). clear Hrows Hgen.
  subst kpi covered. unfold rtm_download_kpi.
  cbn [Kpi.executionTotal Kpi.totalCovered Kpi.totalUseCases Kpi.positive Kpi.negative
       Kpi.edgeCases].
  assert (Hlabel : forall label, ~ In label scenario_labels ->
            count (fun row => Row.ScenarioType row =? label) rows
            = count (fun row => (Row.ScenarioType row =? label)
                                && (Row.Status row =? "Covered")) rows).
  { intros label Hno. apply count_ext. eapply Forall_impl; [|exact Htests].
    intros row (_ & _ & _ & H). now apply H. }
  repeat match goal with |- _ /\ _ => split end.
  - rewrite count_or.
    + apply count_ext. eapply Forall_impl; [|exact Htests]. now intros row (H & _).
    + apply Forall_forall. intros row _.
      destruct (Row.Execution row =? "Pass") eqn:E; [|reflexivity].
      apply String.eqb_eq in E. now rewrite E.
  - rewrite count_or.
    + unfold count. clear Hlabel.
      induction Htests as [|row rest (_ & _ & H & _) _ IH]; [reflexivity|].
      cbn [filter]. rewrite H. cbn [length]. now rewrite IH.
    + apply Forall_forall. intros row _.
      destruct (Row.Status row =? "Covered") eqn:E; [|reflexivity].
      apply String.eqb_eq in E. now rewrite E.
  - apply Hlabel. unfold scenario_labels. simpl. intuition discriminate.
  - apply Hlabel. unfold scenario_labels. simpl. intuition discriminate.
  - apply Hlabel. unfold scenario_labels. simpl. intuition discriminate.
Qed.

(** X15. The summary of [/rtm-report] of a matrix that [generateRTM]
    returned: it counts the same requirements as the statistics of
    [/rtm-download], and its covered requirements are the difference that
    route reports as uncovered; the rows with a test case id are the
    Covered rows, and together with the Missing rows they are all the
    rows. *)
Theorem rtm_report_summary_counts :
  forall (backend : Backend) (userStoryIds : list Z) (sched : list nat)
         (rows : list Row.t),
    generateRTM backend userStoryIds sched = inr rows ->
    let summary := rtm_report_summary rows in
    let kpi := rtm_download_kpi rows in
    ReportSummary.totalUserStories summary = Kpi.totalUserStories kpi
    /\ Z.of_nat (ReportSummary.coveredUserStories summary)
       = (Z.of_nat (Kpi.totalUserStories kpi) - Kpi.uncoveredUserStories kpi)%Z
    /\ ReportSummary.coveredUserStories summary <= ReportSummary.totalUserStories summary
    /\ ReportSummary.totalTestCases summary = Kpi.totalCovered kpi
    /\ ReportSummary.totalTestCases summary + ReportSummary.missingTestCases summary
       = length rows.
Proof.
  intros backend userStoryIds sched rows Hgen summary kpi.
  pose proof (generateRTM_generated _ _ _ _ Hgen) as Hrows.
  assert (Htests := Forall_impl _ generated_row_tests Hrows). clear Hrows Hgen.
  subst summary kpi. unfold rtm_report_summary, rtm_download_kpi.
  cbn [ReportSummary.totalUserStories ReportSummary.coveredUserStories
       ReportSummary.totalTestCases ReportSummary.missingTestCases
       Kpi.totalUserStories Kpi.uncoveredUserStories Kpi.totalCovered].
  assert (Hids : count (fun row => not_empty_string (Row.TestCaseID row)) rows
                 = count (fun row => Row.Status row =? "Covered") rows).
  { apply count_ext. eapply Forall_impl; [|exact Htests]. now intros row (_ & H & _). }
  repeat match goal with |- _ /\ _ => split end.
  - reflexivity.
  - lia.
  - apply (Set_of_size_le Z.eqb Z.eqb_eq). intros id Hid.
    apply in_map_iff in Hid as (row & <- & Hrow). apply filter_In in Hrow as [Hrow _].
    now apply in_map.
  - exact Hids.
  - rewrite Hids, count_or.
    + unfold count. clear Hids.
      induction Htests as [|row rest (_ & _ & H & _) _ IH]; [reflexivity|].
      cbn [filter]. rewrite H. cbn [length]. now rewrite IH.
    + apply Forall_forall. intros row _.
      destruct (Row.Status row =? "Covered") eqn:E; [|reflexivity].
      apply String.eqb_eq in E. now rewrite E.
Qed.

(** The matrix of the requirements 100, 200 and 300 of the sample
    backend. *)
Lemma generated_matrix_kpi_witness :
  exists rows,
    generateRTM sample_backend [100%Z; 200%Z; 300%Z] [2; 0] = inr rows
    /\ Kpi.executionTotal (rtm_download_kpi rows) = Kpi.totalCovered (rtm_download_kpi rows).
Proof.
  destruct (generateRTM sample_backend [100%Z; 200%Z; 300%Z] [2; 0]) as [e|rows] eqn:Hgen.
  - exfalso. vm_compute in Hgen. discriminate Hgen.
  - exists rows. split; [reflexivity|].
    exact (proj1 (generated_matrix_kpi _ _ _ _ Hgen)).
Defined.

Lemma rtm_report_summary_counts_witness :
  exists rows,
    generateRTM sample_backend [100%Z; 200%Z; 300%Z] [1] = inr rows
    /\ ReportSummary.totalTestCases (rtm_report_summary rows)
       + ReportSummary.missingTestCases (rtm_report_summary rows)
       = length rows.
Proof.
  destruct (generateRTM sample_backend [100%Z; 200%Z; 300%Z] [1]) as [e|rows] eqn:Hgen.
  - exfalso. vm_compute in Hgen. discriminate Hgen.
  - exists rows. split; [reflexivity|].
    exact (proj2 (proj2 (proj2 (proj2 (rtm_report_summary_counts _ _ _ _ Hgen))))).
Defined.

(** ** Report identifiers *)

Lemma sanitize_length (s : string) : String.length (sanitize s) = String.length s.
Proof. induction s as [|c s IH]; simpl; auto. Qed.

Lemma sanitize_chars (s : string) :
  all_chars (fun c => is_alphanumeric c || Ascii.eqb c "_") (sanitize s) = true.
Proof.
  induction s as [|c s IH]; [reflexivity|]. simpl. rewrite IH, andb_true_r.
  destruct (is_alphanumeric c) eqn:E; [now rewrite E|reflexivity].
Qed.

Lemma sanitize_fixed (s : string) :
  sanitize s = s <-> all_chars (fun c => is_alphanumeric c || Ascii.eqb c "_") s = true.
Proof.
  induction s as [|c s IH]; simpl; [tauto|]. split.
  - intros [= Hc Hs]. apply IH in Hs. rewrite Hs, andb_true_r.
    destruct (is_alphanumeric c); [reflexivity|]. subst c. reflexivity.
  - intros H. apply andb_true_iff in H as [Hc Hs]. apply IH in Hs. rewrite Hs.
    f_equal. destruct (is_alphanumeric c); [reflexivity|].
    simpl in Hc. apply Ascii.eqb_eq in Hc. now subst.
Qed.

(** X16. The report identifier of a sprint whose name is ASCII text: as
    long as the name, made of letters, digits and underscores only, equal
    to the name exactly when the name is so made, and not changed by a
    second pass.  Names that differ only in one character that is neither
    a letter nor a digit share their identifier. *)
Theorem sanitize_identifier :
  forall (s : string),
    ascii_text s = true ->
    String.length (sanitize s) = String.length s
    /\ all_chars (fun c => is_alphanumeric c || Ascii.eqb c "_") (sanitize s) = true
    /\ (sanitize s = s
        <-> all_chars (fun c => is_alphanumeric c || Ascii.eqb c "_") s = true)
    /\ sanitize (sanitize s) = sanitize s
    /\ (forall (c d : ascii) (t : string),
          is_ascii c = true -> is_ascii d = true -> ascii_text t = true ->
          is_alphanumeric c = false -> is_alphanumeric d = false ->
          sanitize (s ++ String c t) = sanitize (s ++ String d t)).
Proof.
  intros s _. refine (conj (sanitize_length s) (conj (sanitize_chars s)
                        (conj (sanitize_fixed s) (conj _ _)))).
  - apply sanitize_fixed, sanitize_chars.
  - intros c d t _ _ _ Hc Hd. induction s as [|x s IH]; simpl; [now rewrite Hc, Hd|].
    now rewrite IH.
Qed.

(** "Sprint 40" and "Sprint-40" share the identifier of nine characters. *)
Lemma sanitize_identifier_witness :
  String.length (sanitize "Sprint 40") = 9
  /\ sanitize "Sprint 40" = sanitize "Sprint-40".
Proof.
  split.
  - exact (proj1 (sanitize_identifier "Sprint 40" eq_refl)).
  - exact (proj2 (proj2 (proj2 (proj2 (sanitize_identifier "Sprint" eq_refl))))
             " "%char "-"%char "40" eq_refl eq_refl eq_refl eq_refl eq_refl).
Defined.

(** ** The request gateway *)

Lemma upper_lower_ascii (c : ascii) : upper_ascii (lower_ascii c) = upper_ascii c.
Proof.
  destruct c as [[|] [|] [|] [|] [|] [|] [|] [|]]; reflexivity.
Qed.

Lemma lower_upper_ascii (c : ascii) : lower_ascii (upper_ascii c) = lower_ascii c.
Proof.
  destruct c as [[|] [|] [|] [|] [|] [|] [|] [|]]; reflexivity.
Qed.

Lemma toUpperCase_toLowerCase (s : string) : toUpperCase (toLowerCase s) = toUpperCase s.
Proof.
  induction s as [|c s IH]; simpl; [reflexivity|]. now rewrite upper_lower_ascii, IH.
Qed.

Lemma toLowerCase_toUpperCase (s : string) : toLowerCase (toUpperCase s) = toLowerCase s.
Proof.
  induction s as [|c s IH]; simpl; [reflexivity|]. now rewrite lower_upper_ascii, IH.
Qed.

(** The method test of [makeApiRequest] reads the method without regard
    to letter case. *)
Lemma method_test (method verb : string) :
  toUpperCase (toLowerCase verb) = verb ->
  (toUpperCase method =? verb) = (toLowerCase method =? toLowerCase verb).
Proof.
  intros Hverb.
  destruct (toLowerCase method =? toLowerCase verb) eqn:E.
  - apply String.eqb_eq in E. apply String.eqb_eq.
    now rewrite <- toUpperCase_toLowerCase, E.
  - apply String.eqb_neq in E. apply String.eqb_neq. intros H. apply E.
    now rewrite <- toLowerCase_toUpperCase, H.
Qed.

Lemma makeApiRequest_method_returns {A : Type} (endpoint : Endpoint A) (method : string)
    (data : option string) :
  exists response, makeApiRequest_method endpoint method data = inr response.
Proof.
  unfold makeApiRequest_method.
  destruct (if toUpperCase method =? "GET" then _ else _) as [e|response];
    simpl; unfold ret; eauto.
Qed.

Lemma makeApiRequest_method_get {A : Type} (endpoint : Endpoint A) (data : option string) :
  makeApiRequest_method endpoint "GET" data
  = match axios_GET endpoint with
    | inr response => inr response
    | inl _ => inr None
    end.
Proof.
  unfold makeApiRequest_method. simpl. now destruct (axios_GET endpoint).
Qed.

Lemma makeApiRequest_method_post {A : Type} (endpoint : Endpoint A) (data : option string) :
  makeApiRequest_method endpoint "POST" data
  = match axios_POST endpoint data with
    | inr response => inr response
    | inl _ => inr None
    end.
Proof.
  unfold makeApiRequest_method. simpl. now destruct (axios_POST endpoint data).
Qed.

(** X17. [makeApiRequest] with a method of ASCII text never throws: a
    failed request, of whatever kind, is answered like a response without
    body.  The method is read without regard to letter case; on a method
    other than GET and POST no request is sent and the answer is the one
    of a failure.  The request of a work item is the case of the method
    GET. *)
Theorem makeApiRequest_method_dispatch :
  forall (A : Type) (endpoint : Endpoint A) (method : string) (data : option string),
    ascii_text method = true ->
    (exists response, makeApiRequest_method endpoint method data = inr response)
    /\ (toLowerCase method = "get" ->
        makeApiRequest_method endpoint method data
        = try_catch (axios_GET endpoint) (fun _ => ret None))
    /\ (toLowerCase method = "post" ->
        makeApiRequest_method endpoint method data
        = try_catch (axios_POST endpoint data) (fun _ => ret None))
    /\ (toLowerCase method <> "get" -> toLowerCase method <> "post" ->
        makeApiRequest_method endpoint method data = inr None)
    /\ (forall (backend : Backend) (req : Request) (post : option string -> Exc _),
          makeApiRequest backend req
          = makeApiRequest_method
              {| axios_GET := axios_get backend req; axios_POST := post |} "GET" None).
Proof.
  intros A endpoint method data _.
  split; [apply makeApiRequest_method_returns|].
  unfold makeApiRequest_method.
  rewrite (method_test method "GET" eq_refl), (method_test method "POST" eq_refl).
  change (toLowerCase "GET") with "get". change (toLowerCase "POST") with "post".
  refine (conj _ (conj _ (conj _ _))).
  - intros ->. simpl. now destruct (axios_GET endpoint).
  - intros ->. simpl. now destruct (axios_POST endpoint data).
  - intros Hget Hpost.
    rewrite (proj2 (String.eqb_neq _ _) Hget), (proj2 (String.eqb_neq _ _) Hpost).
    reflexivity.
  - intros backend req post. unfold makeApiRequest. simpl.
    now destruct (axios_get backend req).
Qed.

(** The WIQL endpoint of the sample service: a method written [Post] posts
    the query, and [PUT] sends nothing. *)
Lemma makeApiRequest_method_dispatch_witness :
  makeApiRequest_method (wiql sample_service) "Post" (Some (sprint_query "Sprint 40"))
  = inr (Some {| workItems := Some [ {| ref_id := 100 |}; {| ref_id := 200 |} ] |})
  /\ makeApiRequest_method (wiql sample_service) "PUT" (Some (sprint_query "Sprint 40"))
     = inr None.
Proof.
  split.
  - rewrite (proj1 (proj2 (proj2 (makeApiRequest_method_dispatch _ (wiql sample_service)
                                    "Post" (Some (sprint_query "Sprint 40")) eq_refl)))
               eq_refl).
    vm_compute. reflexivity.
  - apply (proj1 (proj2 (proj2 (proj2 (makeApiRequest_method_dispatch _
                                         (wiql sample_service) "PUT"
                                         (Some (sprint_query "Sprint 40")) eq_refl)))));
      discriminate.
Defined.

(** ** Sprints *)

Lemma find_sprint_found (sprintName : string) (candidates : list Iteration)
    (sprint : Iteration) :
  find_sprint sprintName candidates = inr (Some sprint) ->
  exists earlier later name,
    candidates = earlier ++ sprint :: later
    /\ Forall (fun iteration =>
                 exists n, it_name iteration = Some n
                           /\ toLowerCase n <> toLowerCase sprintName) earlier
    /\ it_name sprint = Some name
    /\ toLowerCase name = toLowerCase sprintName.
Proof.
  induction candidates as [|iteration rest IH]; simpl; [discriminate|].
  destruct (it_name iteration) as [n|] eqn:Hn; [|discriminate].
  destruct (toLowerCase n =? toLowerCase sprintName) eqn:E.
  - intros [= <-]. apply String.eqb_eq in E.
    exists [], rest, n. repeat split; auto.
  - intros H. destruct (IH H) as (earlier & later & name & -> & Hall & Hname & Hsame).
    apply String.eqb_neq in E.
    exists (iteration :: earlier), later, name. repeat split; auto.
    constructor; eauto.
Qed.

Lemma find_sprint_case (sprintName other : string) (candidates : list Iteration) :
  toLowerCase other = toLowerCase sprintName ->
  find_sprint other candidates = find_sprint sprintName candidates.
Proof.
  intros H. induction candidates as [|iteration rest IH]; simpl; [reflexivity|].
  now rewrite H, IH.
Qed.

Lemma fetchUserStoriesBySprint_case (service : Service) (sprintName other : string) :
  toLowerCase other = toLowerCase sprintName ->
  fetchUserStoriesBySprint service other = fetchUserStoriesBySprint service sprintName.
Proof.
  intros H. unfold fetchUserStoriesBySprint.
  destruct (makeApiRequest_method (iterations service) "GET" None) as [e|data];
    [reflexivity|].
  cbn [bind]. destruct (listed data) as [candidates|]; [|reflexivity].
  now rewrite (find_sprint_case _ _ _ H).
Qed.

Lemma fetchUserStoriesBySprint_returns (service : Service) (sprintName : string) :
  exists ids, fetchUserStoriesBySprint service sprintName = inr ids.
Proof.
  unfold fetchUserStoriesBySprint, try_catch.
  match goal with |- exists ids, match ?body with _ => _ end = _ => destruct body end;
    unfold ret; eauto.
Qed.

(** X18. For a sprint name and iteration names of ASCII text,
    [fetchUserStoriesBySprint] never throws, and reads the sprint name
    without regard to letter case.  When it returns ids, the iterations
    were listed, the sprint is the first iteration of that name, every
    iteration before it has a name, and the ids are those the WIQL query
    on its path (its name when it has no path) answered, in that order.
    Every other course, failures included, gives the empty list. *)
Theorem fetchUserStoriesBySprint_first_match :
  forall (service : Service) (sprintName : string),
    ascii_text sprintName = true ->
    ascii_names service ->
    exists ids,
      fetchUserStoriesBySprint service sprintName = inr ids
      /\ fetchUserStoriesBySprint service (toLowerCase sprintName) = inr ids
      /\ fetchUserStoriesBySprint service (toUpperCase sprintName) = inr ids
      /\ (ids <> [] ->
          exists earlier sprint later name items,
            axios_GET (iterations service)
            = inr (Some {| value := Some (earlier ++ sprint :: later) |})
            /\ Forall (fun iteration =>
                         exists n, it_name iteration = Some n
                                   /\ toLowerCase n <> toLowerCase sprintName) earlier
            /\ it_name sprint = Some name
            /\ toLowerCase name = toLowerCase sprintName
            /\ axios_POST (wiql service)
                 (Some (sprint_query (str_or (it_path sprint) name)))
               = inr (Some {| workItems := Some items |})
            /\ ids = map ref_id items).
Proof.
  intros service sprintName _ _.
  destruct (fetchUserStoriesBySprint_returns service sprintName) as (ids & Hids).
  exists ids. split; [exact Hids|].
  split; [rewrite <- Hids; apply fetchUserStoriesBySprint_case, toLowerCase_idempotent|].
  split; [rewrite <- Hids; apply fetchUserStoriesBySprint_case, toLowerCase_toUpperCase|].
  intros Hne. revert Hids. unfold fetchUserStoriesBySprint.
  rewrite makeApiRequest_method_get.
  destruct (axios_GET (iterations service)) as [e|[[[candidates|]]|]] eqn:Hget;
    cbn [bind try_catch listed value ret];
    try (intros [= <-]; contradiction).
  destruct (find_sprint sprintName candidates) as [e|[sprint|]] eqn:Hfind;
    cbn [bind try_catch ret]; try (intros [= <-]; contradiction).
  destruct (find_sprint_found _ _ _ Hfind) as (earlier & later & name & -> & Hall & Hname & Hsame).
  rewrite makeApiRequest_method_post, Hname.
  assert (Hpath : str_or (it_path sprint) (str_or (Some name) "")
                  = str_or (it_path sprint) name).
  { unfold str_or. destruct (it_path sprint) as [path|].
    - destruct (path =? ""); [|reflexivity]. now destruct (name =? "") eqn:E;
        [apply String.eqb_eq in E; subst|].
    - now destruct (name =? "") eqn:E; [apply String.eqb_eq in E; subst|]. }
  rewrite Hpath.
  destruct (axios_POST (wiql service) _) as [e|[[[items|]]|]] eqn:Hpost;
    cbn [bind try_catch ret query_ids]; try (intros [= <-]; contradiction).
  intros [= <-]. exists earlier, sprint, later, name, items. repeat split; auto.
Qed.

Lemma sprints_pushed (candidates : list Iteration) (list : list Sprint.t) :
  fold_left (fun list iteration =>
               if field_is (attribute iteration timeFrame) "future" then list
               else list ++ [sprint_of iteration])
            candidates list
  = list ++ map sprint_of
              (filter (fun iteration =>
                         negb (field_is (attribute iteration timeFrame) "future"))
                      candidates).
Proof.
  revert list. induction candidates as [|iteration rest IH]; intros list; simpl.
  - now rewrite app_nil_r.
  - rewrite IH. destruct (field_is (attribute iteration timeFrame) "future"); simpl;
      [reflexivity|]. now rewrite <- app_assoc.
Qed.

Lemma or_null_not_empty (v : option string) : or_null v <> Some "".
Proof.
  unfold or_null. destruct v as [s|]; [|discriminate].
  destruct (s =? "") eqn:E; [discriminate|].
  apply String.eqb_neq in E. congruence.
Qed.

(** The sample service: the name is matched ignoring case, and the query
    is made on the name of the sprint, which has no path. *)
Lemma fetchUserStoriesBySprint_first_match_witness :
  fetchUserStoriesBySprint sample_service (toLowerCase "SPRINT 40") = inr [100%Z; 200%Z].
Proof.
  assert (Hnames : ascii_names sample_service).
  { intros candidates [= <-]. reflexivity. }
  destruct (fetchUserStoriesBySprint_first_match sample_service "SPRINT 40" eq_refl Hnames)
    as (ids & Hids & Hlower & _).
  rewrite Hlower, <- Hids. vm_compute. reflexivity.
Defined.

(** X19. [fetchAllSprints] never throws.  It answers the listed
    iterations in their order, leaving out exactly those whose time frame
    is the string [future]; so no sprint of the answer has that time
    frame, and none has an empty start date, finish date or time frame.
    Without a listing, failures included, the answer is the empty list. *)
Theorem fetchAllSprints_leaves_out_future :
  forall (service : Service),
    exists sprints,
      fetchAllSprints service = inr sprints
      /\ Forall (fun sprint =>
                   Sprint.timeFrame sprint <> Some "future"
                   /\ Sprint.timeFrame sprint <> Some ""
                   /\ Sprint.startDate sprint <> Some ""
                   /\ Sprint.finishDate sprint <> Some "") sprints
      /\ (forall candidates,
            axios_GET (iterations service) = inr (Some {| value := Some candidates |}) ->
            sprints
            = map sprint_of
                (filter (fun iteration =>
                           negb (field_is (attribute iteration timeFrame) "future"))
                        candidates))
      /\ ((forall candidates,
             axios_GET (iterations service) <> inr (Some {| value := Some candidates |})) ->
          sprints = []).
Proof.
  intros service. unfold fetchAllSprints. rewrite makeApiRequest_method_get.
  destruct (axios_GET (iterations service)) as [e|[[[candidates|]]|]];
    cbn [bind try_catch listed value ret];
    try (exists []; split; [reflexivity|]; split; [constructor|];
         split; [intros ? ?; discriminate|intros _; reflexivity]).
  rewrite sprints_pushed. simpl app. eexists. split; [reflexivity|]. repeat split.
  - apply Forall_map, Forall_forall. intros iteration Hin.
    apply filter_In in Hin as [_ Hfuture]. unfold sprint_of. cbn.
    repeat split; try apply or_null_not_empty.
    unfold or_null. destruct (attribute iteration timeFrame) as [s|]; [|discriminate].
    simpl in Hfuture. destruct (s =? ""); [discriminate|].
    intros [= ->]. discriminate.
  - now intros ? [= <-].
  - intros H. exfalso. now apply (H candidates).
Qed.

(** ** Execution status *)

Lemma scan_results_first (wanted : string) (results : list TestResult) :
  scan_results wanted results
  = match filter (decisive wanted) results with
    | [] => None
    | result :: _ =>
        Some (if toLowerCase (str_or (outcome result) "") =? "passed"
              then "Pass" else "Fail")
    end.
Proof.
  induction results as [|result rest IH]; [reflexivity|].
  cbn [scan_results filter]. unfold decisive at 1.
  destruct (field_is _ wanted); cbn [andb]; [|exact IH].
  destruct (toLowerCase (str_or (outcome result) "") =? "passed") eqn:E1; cbn [orb];
    [now rewrite E1|].
  destruct (toLowerCase (str_or (outcome result) "") =? "failed") eqn:E2;
    [now rewrite E1|exact IH].
Qed.

Lemma scan_runs_first (service : Service) (wanted : string) (runs : list TestRun) :
  scan_runs service wanted runs
  = inr match filter (decisive wanted) (flat_map (results_of_run service) runs) with
        | [] => None
        | result :: _ =>
            Some (if toLowerCase (str_or (outcome result) "") =? "passed"
                  then "Pass" else "Fail")
        end.
Proof.
  induction runs as [|run rest IH]; [reflexivity|].
  cbn [scan_runs flat_map]. rewrite filter_app. unfold results_of_run at 1.
  destruct (run_id run) as [runId|]; [|exact IH].
  destruct (nonzero runId); [|exact IH].
  destruct (makeApiRequest_method_returns (test_results service runId) "GET" None)
    as (resultsData & ->).
  cbn [bind]. destruct (listed resultsData) as [results|]; [|exact IH].
  rewrite scan_results_first.
  destruct (filter (decisive wanted) results) as [|result others]; [exact IH|reflexivity].
Qed.

(** X20. [getTestExecutionStatus] never throws and answers Pass, Fail or
    Blank.  With the runs listed, the answer is decided by the first
    result, over the runs in their order and the results of each in
    theirs, that is of the test case and has the outcome passed or failed,
    letter case apart: results of other outcomes, runs without id and runs
    whose results cannot be fetched are passed over, and without such a
    result the answer is Blank. *)
Theorem getTestExecutionStatus_first_decisive :
  forall (service : Service) (testCaseId : Z),
    exists answer,
      getTestExecutionStatus service testCaseId = inr answer
      /\ In answer ["Pass"; "Fail"; "Blank"]
      /\ (forall runs,
            axios_GET (test_runs service) = inr (Some {| value := Some runs |}) ->
            answer
            = match filter (decisive (string_of_Z testCaseId))
                           (flat_map (results_of_run service) runs) with
              | [] => "Blank"
              | result :: _ =>
                  if toLowerCase (str_or (outcome result) "") =? "passed"
                  then "Pass" else "Fail"
              end)
      /\ ((forall runs,
             axios_GET (test_runs service) <> inr (Some {| value := Some runs |})) ->
          answer = "Blank").
Proof.
  intros service testCaseId. unfold getTestExecutionStatus.
  rewrite makeApiRequest_method_get.
  destruct (axios_GET (test_runs service)) as [e|[[[runs|]]|]];
    cbn [bind try_catch listed value ret];
    try (exists "Blank"; split; [reflexivity|]; split; [simpl; tauto|];
         split; [intros ? ?; discriminate|intros _; reflexivity]).
  rewrite scan_runs_first. cbn [bind try_catch ret].
  destruct (filter _ _) as [|result others] eqn:E.
  - exists "Blank". split; [reflexivity|]. split; [simpl; tauto|].
    split; [intros runs0 [= <-]; now rewrite E|].
    intros H. exfalso. now apply (H runs).
  - eexists. split; [reflexivity|]. split; [destruct (_ =? "passed"); simpl; tauto|].
    split; [intros runs0 [= <-]; now rewrite E|].
    intros H. exfalso. now apply (H runs).
Qed.

(** The sample service: the first decisive result of test case 501 is the
    failed one of run 8; the blocked result of run 7 is passed over, and so
    are the run without id and run 9, whose results cannot be fetched. *)
Lemma getTestExecutionStatus_first_decisive_witness :
  getTestExecutionStatus sample_service 501 = inr "Fail".
Proof.
  destruct (getTestExecutionStatus_first_decisive sample_service 501)
    as (answer & Hanswer & _ & Hfirst & _).
  rewrite Hanswer. f_equal.
  rewrite (Hfirst _ eq_refl). vm_compute. reflexivity.
Defined.

(** ** Request resolution *)

Lemma resolve_story_ids_answers (story_ids : string) :
  (exists ids identifier,
     resolve_story_ids story_ids = inr (ids, identifier) /\ ids <> [])
  \/ (exists err, resolve_story_ids story_ids = inl err /\ status err = 400).
Proof.
  unfold resolve_story_ids.
  destruct (map_story_ids (split "," story_ids)) as [e|ids] eqn:E.
  - right. eauto.
  - left. do 2 eexists. split; [reflexivity|]. intros ->.
    apply map_story_ids_accepts in E. inversion E as [Hnil|]; subst.
    now apply (split_not_nil "," story_ids).
Qed.

(** X21. Request resolution of the download routes.  Ids that are given
    take precedence: the sprint name is not read and no generator is asked
    for.  An accepted request always carries at least one id.  The error
    answers are 400 (no parameter, or unreadable ids), 404 (the sprint
    lookup gave no id, whatever the reason) and 500, and 500 is answered
    only when no generator could be had for the connection: the sprint
    lookup itself never fails. *)
Theorem resolve_request_answers :
  forall (generator : Exc Service) (story_ids sprint_name : option string),
    let answer := resolve_request generator story_ids sprint_name in
    (given story_ids = true -> answer = resolve_story_ids (str_or story_ids ""))
    /\ (forall ids identifier, answer = inr (ids, identifier) ->
          ids <> []
          /\ (given story_ids = false ->
              given sprint_name = true
              /\ identifier = sanitize (str_or sprint_name "")
              /\ exists service,
                   generator = inr service
                   /\ fetchUserStoriesBySprint service (str_or sprint_name "") = inr ids))
    /\ (forall err, answer = inl err ->
          (status err = 400 /\ (given story_ids = false -> given sprint_name = false))
          \/ (status err = 404
              /\ given story_ids = false
              /\ exists service,
                   generator = inr service
                   /\ fetchUserStoriesBySprint service (str_or sprint_name "") = inr [])
          \/ (status err = 500
              /\ given story_ids = false
              /\ exists e, generator = inl e)).
Proof.
  intros generator story_ids sprint_name answer. subst answer. unfold resolve_request.
  destruct (given story_ids) eqn:Hids; cbn [negb andb].
  - split; [reflexivity|]. split.
    + intros ids identifier H. split; [|discriminate].
      destruct (resolve_story_ids_answers (str_or story_ids ""))
        as [(ids' & identifier' & E & Hne)|(err & E & _)]; congruence.
    + intros err H. left. split; [|discriminate].
      destruct (resolve_story_ids_answers (str_or story_ids ""))
        as [(ids' & identifier' & E & Hne)|(err' & E & Hstatus)]; congruence.
  - split; [discriminate|].
    destruct (given sprint_name) eqn:Hsprint; cbn [negb].
    + destruct generator as [e|service]; cbn [bind].
      * split; [discriminate|]. intros err [= <-]. right. right. simpl. eauto.
      * destruct (fetchUserStoriesBySprint_returns service (str_or sprint_name ""))
          as (ids & Hfetch).
        rewrite Hfetch. destruct ids as [|id ids].
        -- split; [discriminate|]. intros err [= <-]. right. left. simpl. eauto.
        -- split; [|discriminate]. intros ids' identifier [= <- <-].
           split; [discriminate|]. intros _. eauto.
    + split; [discriminate|]. intros err [= <-]. left. simpl. auto.
Qed.

(** A sprint request on the sample service. *)
Lemma resolve_request_answers_witness :
  exists ids,
    resolve_request (inr sample_service) None (Some "Sprint 40") = inr (ids, "Sprint_40")
    /\ ids <> []
    /\ fetchUserStoriesBySprint sample_service "Sprint 40" = inr ids.
Proof.
  assert (Hanswer : resolve_request (inr sample_service) None (Some "Sprint 40")
                    = inr ([100%Z; 200%Z], "Sprint_40"))
    by (vm_compute; reflexivity).
  destruct (resolve_request_answers (inr sample_service) None (Some "Sprint 40"))
    as (_ & Haccepted & _).
  destruct (Haccepted _ _ Hanswer) as (Hne & Hsprint).
  destruct (Hsprint eq_refl) as (_ & _ & service & Hservice & Hfetch).
  injection Hservice as <-.
  exists [100%Z; 200%Z]. exact (conj Hanswer (conj Hne Hfetch)).
Defined.

(** ** Sorting *)

Section Sorting.
Context {A : Type}.
Variable compare : A -> A -> Z.
Variable key : A -> Z.

Lemma insert_sorted_permutation (x : A) (l : list A) :
  Permutation (insert_sorted compare x l) (x :: l).
Proof.
  induction l as [|y l IH]; simpl; [reflexivity|].
  destruct (compare x y <=? 0)%Z; [reflexivity|].
  rewrite IH. apply perm_swap.
Qed.

Lemma Array_sort_permutation (l : list A) : Permutation (Array_sort compare l) l.
Proof.
  induction l as [|x l IH]; simpl; [reflexivity|].
  now rewrite insert_sorted_permutation, IH.
Qed.

Lemma insert_sorted_sorted (x : A) (l : list A) :
  (forall y, In y l -> compare x y = (key x - key y)%Z) ->
  StronglySorted (fun a b => (key a <= key b)%Z) l ->
  StronglySorted (fun a b => (key a <= key b)%Z) (insert_sorted compare x l).
Proof.
  intros Hcmp Hsorted. induction Hsorted as [|y l Hl IH Hy]; simpl.
  - repeat constructor.
  - rewrite (Hcmp y (or_introl eq_refl)).
    destruct (key x - key y <=? 0)%Z eqn:E.
    + apply Z.leb_le in E. constructor; [now constructor|].
      constructor; [lia|]. eapply Forall_impl; [|exact Hy]. simpl. intros; lia.
    + apply Z.leb_gt in E. constructor.
      * apply IH. intros z Hz. apply Hcmp. now right.
      * rewrite (insert_sorted_permutation x l). constructor; [lia|assumption].
Qed.

Lemma Array_sort_sorted (l : list A) :
  (forall x y, In x l -> In y l -> compare x y = (key x - key y)%Z) ->
  StronglySorted (fun a b => (key a <= key b)%Z) (Array_sort compare l).
Proof.
  induction l as [|x l IH]; intros Hcmp; simpl; [constructor|].
  apply insert_sorted_sorted.
  - intros y Hy. apply Hcmp; [now left|right].
    now apply (Permutation_in _ (Array_sort_permutation l)).
  - apply IH. intros a b Ha Hb. apply Hcmp; now right.
Qed.

(** Two sorted arrangements of the same elements are equal when equal
    keys mean equal elements. *)
Lemma sorted_unique (l l' : list A) :
  (forall x y, In x l -> In y l -> key x = key y -> x = y) ->
  StronglySorted (fun a b => (key a <= key b)%Z) l ->
  StronglySorted (fun a b => (key a <= key b)%Z) l' ->
  Permutation l l' ->
  l = l'.
Proof.
  intros Hinj Hl. revert l'.
  induction Hl as [|x l Hl IH Hx]; intros l' Hl' Hperm.
  - apply Permutation_nil in Hperm. now subst.
  - destruct Hl' as [|y l' Hl' Hy].
    + apply Permutation_sym, Permutation_nil in Hperm. discriminate.
    + assert (Hxy : x = y).
      { assert (Hxin : In x (y :: l')) by (apply (Permutation_in _ Hperm); now left).
        assert (Hyin : In y (x :: l))
          by (apply (Permutation_in _ (Permutation_sym Hperm)); now left).
        destruct Hxin as [E|Hxin]; [now subst|].
        destruct Hyin as [E|Hyin]; [now subst|].
        rewrite Forall_forall in Hx, Hy.
        pose proof (Hx _ Hyin). pose proof (Hy _ Hxin).
        apply Hinj; [now left|now right|lia]. }
      subst y. f_equal. apply IH; [|assumption|].
      * intros a b Ha Hb. apply Hinj; now right.
      * now apply Permutation_cons_inv in Hperm.
Qed.

Lemma Array_sort_unique (l target : list A) :
  (forall x y, In x target -> In y target -> compare x y = (key x - key y)%Z) ->
  (forall x y, In x target -> In y target -> key x = key y -> x = y) ->
  StronglySorted (fun a b => (key a <= key b)%Z) target ->
  Permutation l target ->
  Array_sort compare l = target.
Proof.
  intros Hcmp Hinj Htarget Hperm.
  assert (Hin : forall x, In x l -> In x target)
    by (intros x; apply (Permutation_in _ Hperm)).
  apply sorted_unique.
  - intros x y Hx Hy.
    apply Hinj; apply Hin; now apply (Permutation_in _ (Array_sort_permutation l)).
  - apply Array_sort_sorted. intros x y Hx Hy. apply Hcmp; now apply Hin.
  - assumption.
  - now rewrite Array_sort_permutation.
Qed.
End Sorting.

Lemma Set_of_size_permutation {A : Type} (eqb : A -> A -> bool)
    (eqb_spec : forall x y, eqb x y = true <-> x = y) (l l' : list A) :
  Permutation l l' -> length (Set_of eqb l) = length (Set_of eqb l').
Proof.
  intros Hperm.
  destruct (Set_of_spec eqb eqb_spec l) as [Hnd Hin].
  destruct (Set_of_spec eqb eqb_spec l') as [Hnd' Hin'].
  apply Permutation_length, NoDup_Permutation; try assumption.
  intros x. rewrite Hin, Hin'. split; apply Permutation_in; [|symmetry]; assumption.
Qed.

(** ** The weekly coverage trend *)

Lemma week_label_number (n : Z) (entry : TrendEntry.t) :
  TrendEntry.week entry = ("Week " ++ string_of_Z n)%string ->
  week_number entry = Some n.
Proof.
  intros H. unfold week_number. rewrite H.
  change ("Week " ++ string_of_Z n)%string
    with ("Week" ++ String " " (string_of_Z n))%string.
  rewrite split_app_sep by reflexivity.
  rewrite split_free by (now apply string_of_Z_free_of).
  simpl. apply parseInt_string_of_Z.
Qed.

Lemma week_offsets_calls (weeks : nat) :
  truthy_calls nonzero (indexed (week_offsets weeks))
  = map (fun k => ((Z.of_nat weeks - Z.of_nat k - 1)%Z, k)) (seq 0 (weeks - 1)).
Proof.
  unfold indexed, week_offsets, truthy_calls. rewrite length_map, length_seq.
  assert (Hcombine : forall a n,
            combine (map (fun i => (Z.of_nat weeks - Z.of_nat i - 1)%Z) (seq a n)) (seq a n)
            = map (fun k => ((Z.of_nat weeks - Z.of_nat k - 1)%Z, k)) (seq a n)).
  { intros a n. revert a. induction n as [|n IH]; intros a; simpl; [reflexivity|].
    now rewrite IH. }
  rewrite Hcombine. clear Hcombine. destruct weeks as [|w]; [reflexivity|].
  replace (S w - 1) with w by lia.
  assert (HW : (Z.of_nat (S w) = Z.of_nat w + 1)%Z) by lia.
  set (W := Z.of_nat (S w)) in *. clearbody W.
  rewrite seq_S, map_app, filter_app. cbn [Nat.add map filter fst].
  replace (W - Z.of_nat w - 1)%Z with 0%Z by lia. cbn [nonzero Z.eqb negb].
  rewrite app_nil_r. apply forallb_filter_id.
  apply forallb_forall. intros c Hc. apply in_map_iff in Hc as (k & <- & Hk).
  apply in_seq in Hk. cbn [fst]. unfold nonzero. apply negb_true_iff, Z.eqb_neq. lia.
Qed.

Section TrendFacts.
Variable Date : Type.
Variable now : nat -> Date.
Variable finished : Date.
Variable days_before : Date -> Z -> Date.
Variable toISOString : Date -> string.
Variable service : Service.
Variable backend : Backend.

Lemma getUserStoriesByDateRange_returns (startDate endDate : Date)
    (projectArea : option string) :
  exists ids,
    getUserStoriesByDateRange Date toISOString service startDate endDate projectArea
    = inr ids.
Proof.
  unfold getUserStoriesByDateRange.
  destruct (makeApiRequest_method_returns (wiql service) "POST"
              (Some (date_range_query (iso_day Date toISOString startDate)
                       (iso_day Date toISOString endDate) projectArea)))
    as (response & ->).
  simpl. unfold ret. eauto.
Qed.

Section OneRun.
Variable inner_sched : nat -> list nat.
Variable weeks : nat.
Variable projectArea : option string.

Local Abbreviation worker :=
  (trend_worker Date now days_before toISOString service backend inner_sched weeks
     projectArea).
Local Abbreviation entry :=
  (week_entry Date now days_before toISOString service backend inner_sched weeks
     projectArea).

Lemma trend_worker_pushes (i : Z) (index : nat) (trendData : list TrendEntry.t) :
  exists pushed,
    worker i index trendData = inr (trendData ++ [pushed])
    /\ TrendEntry.error pushed = None
    /\ (i = (Z.of_nat weeks - Z.of_nat index - 1)%Z -> pushed = entry index).
Proof.
  unfold trend_worker, week_entry, week_matrix.
  set (weekEnd := days_before (now index) (i * 7)).
  destruct (getUserStoriesByDateRange_returns (days_before weekEnd 6) weekEnd projectArea)
    as (ids & Hids).
  rewrite Hids. cbn [bind]. destruct ids as [|id ids].
  - cbn [try_catch ret]. eexists. split; [reflexivity|]. split; [reflexivity|].
    intros ->. fold weekEnd. rewrite Hids. cbn.
    now replace (Z.of_nat weeks - (Z.of_nat weeks - Z.of_nat index - 1))%Z
      with (Z.of_nat index + 1)%Z by lia.
  - rewrite generateRTM_returns. cbn [bind try_catch ret].
    eexists. split; [reflexivity|]. split; [reflexivity|].
    intros ->. fold weekEnd. rewrite Hids, generateRTM_returns. unfold js_percent.
    now replace (Z.of_nat weeks - (Z.of_nat weeks - Z.of_nat index - 1))%Z
      with (Z.of_nat index + 1)%Z by lia.
Qed.

Lemma trend_worker_returns (i : Z) (index : nat) (trendData : list TrendEntry.t) :
  exists trendData', worker i index trendData = inr trendData'.
Proof. destruct (trend_worker_pushes i index trendData) as (pushed & H & _). eauto. Qed.

Lemma replay_trend_worker (order : list (Z * nat)) (trendData : list TrendEntry.t) :
  Forall (fun c => fst c = (Z.of_nat weeks - Z.of_nat (snd c) - 1)%Z) order ->
  replay worker order trendData = trendData ++ map (fun c => entry (snd c)) order.
Proof.
  intros Horder. revert trendData.
  induction Horder as [|c order Hc _ IH]; intros trendData; simpl.
  - now rewrite app_nil_r.
  - destruct (trend_worker_pushes (fst c) (snd c) trendData) as (pushed & -> & _ & Hpushed).
    rewrite IH, (Hpushed Hc), <- app_assoc. reflexivity.
Qed.

Lemma week_entry_number (index : nat) :
  week_number (entry index) = Some (Z.of_nat index + 1)%Z.
Proof. now apply week_label_number. Qed.

Lemma week_entries_sorted (first count : nat) :
  StronglySorted
    (fun a b => (match week_number a with Some n => n | None => 0 end
                 <= match week_number b with Some n => n | None => 0 end)%Z)
    (map entry (seq first count)).
Proof.
  revert first. induction count as [|count IH]; intros first; simpl; constructor.
  - apply IH.
  - apply Forall_map, Forall_forall. intros k Hk. apply in_seq in Hk.
    rewrite !week_entry_number. lia.
Qed.

(** The report, whatever the completion order of the weeks. *)
Lemma calculateCoverageTrend_report (sched : list nat) :
  calculateCoverageTrend Date now finished days_before toISOString service backend
    inner_sched weeks projectArea sched
  = inr {| Trend.weeks := weeks;
           Trend.data := map entry (seq 0 (weeks - 1));
           Trend.calculatedAt := toISOString finished |}.
Proof.
  unfold calculateCoverageTrend.
  destruct (parallel_completion_order nonzero worker (week_offsets weeks)
              trend_worker_returns 5 sched [] ltac:(lia))
    as (order & Hperm & ->).
  rewrite week_offsets_calls in Hperm.
  cbn [bind]. unfold ret.
  rewrite replay_trend_worker.
  2:{ apply Forall_forall. intros c Hc. apply (Permutation_in _ Hperm) in Hc.
      apply in_map_iff in Hc as (k & <- & _). reflexivity. }
  simpl app. do 2 f_equal.
  apply (Array_sort_unique by_week
           (fun e => match week_number e with Some n => n | None => 0%Z end)).
  - intros x y Hx Hy.
    apply in_map_iff in Hx as (kx & <- & _). apply in_map_iff in Hy as (ky & <- & _).
    unfold by_week. now rewrite !week_entry_number.
  - intros x y Hx Hy.
    apply in_map_iff in Hx as (kx & <- & _). apply in_map_iff in Hy as (ky & <- & _).
    rewrite !week_entry_number. intros H. f_equal. lia.
  - apply week_entries_sorted.
  - apply (Permutation_map (fun c => entry (snd c))) in Hperm.
    rewrite Hperm, map_map. simpl. reflexivity.
Qed.

End OneRun.

Lemma week_matrix_order (inner_sched inner_sched' : nat -> list nat) (weeks : nat)
    (projectArea : option string) (index : nat) :
  Permutation
    (week_matrix Date now days_before toISOString service backend inner_sched weeks
       projectArea index)
    (week_matrix Date now days_before toISOString service backend inner_sched' weeks
       projectArea index).
Proof.
  unfold week_matrix.
  destruct (getUserStoriesByDateRange _ _ _ _ _ _) as [e|[|id ids]]; try reflexivity.
  destruct (generateRTM_groups backend (id :: ids) (inner_sched index))
    as (order & Hperm & ->).
  destruct (generateRTM_groups backend (id :: ids) (inner_sched' index))
    as (order' & Hperm' & ->).
  apply flat_map_permutation. now rewrite Hperm, Hperm'.
Qed.

Lemma week_entry_order (inner_sched inner_sched' : nat -> list nat) (weeks : nat)
    (projectArea : option string) (index : nat) :
  week_entry Date now days_before toISOString service backend inner_sched weeks
    projectArea index
  = week_entry Date now days_before toISOString service backend inner_sched' weeks
      projectArea index.
Proof.
  unfold week_entry.
  pose proof (week_matrix_order inner_sched inner_sched' weeks projectArea index) as Hperm.
  set (m := week_matrix _ _ _ _ _ _ inner_sched _ _ _) in *.
  set (m' := week_matrix _ _ _ _ _ _ inner_sched' _ _ _) in *.
  assert (Htotal : length (Set_of Z.eqb (map Row.UserStoryID m))
                   = length (Set_of Z.eqb (map Row.UserStoryID m'))).
  { apply (Set_of_size_permutation Z.eqb Z.eqb_eq). now apply Permutation_map. }
  assert (Hcovered :
            length (Set_of Z.eqb
                      (map Row.UserStoryID
                         (filter (fun row => Row.Status row =? "Covered") m)))
            = length (Set_of Z.eqb
                        (map Row.UserStoryID
                           (filter (fun row => Row.Status row =? "Covered") m')))).
  { apply (Set_of_size_permutation Z.eqb Z.eqb_eq).
    apply Permutation_map. clear -Hperm. induction Hperm; simpl.
    - reflexivity.
    - destruct (Row.Status x =? "Covered"); [now constructor|assumption].
    - destruct (Row.Status x =? "Covered"), (Row.Status y =? "Covered");
        try reflexivity. apply perm_swap.
    - etransitivity; eassumption. }
  now rewrite Htotal, Hcovered.
Qed.


(** X23. The trend report is the same for every completion order, of the
    weeks and of the fetch pipelines inside each week alike: the final
    sort undoes the first, and the counts of an entry are counts of
    distinct requirements, which the order of the rows does not change. *)
Theorem calculateCoverageTrend_order_independent :
  forall (inner_sched inner_sched' : nat -> list nat) (weeks : nat)
         (projectArea : option string) (sched sched' : list nat),
    calculateCoverageTrend Date now finished days_before toISOString service backend
      inner_sched weeks projectArea sched
    = calculateCoverageTrend Date now finished days_before toISOString service backend
        inner_sched' weeks projectArea sched'.
Proof.
  intros inner_sched inner_sched' weeks projectArea sched sched'.
  rewrite !calculateCoverageTrend_report. do 2 f_equal.
  apply map_ext. intros k. apply week_entry_order.
Qed.
End TrendFacts.


(** ** Execution status of a test case *)

Lemma str_or_field (o : option string) (expected : string) :
  expected <> "" ->
  field_is o expected = (str_or o "" =? expected).
Proof.
  intros Hne. unfold field_is, str_or. destruct o as [s|].
  - destruct (s =? "") eqn:E; [|reflexivity].
    apply String.eqb_eq in E. subst s.
    destruct expected; [contradiction|reflexivity].
  - destruct expected; [contradiction|reflexivity].
Qed.

(** X24. The execution status of a fetched test case is read off its
    state, not off any test run: Pass exactly when the state is Done or
    Completed, spelled so, and Fail otherwise, a missing state included.
    The record carries the id that the backend reported for the work item,
    which is of type Test Case. *)
Theorem fetchTestCase_execution_status :
  forall (backend : Backend) (testCaseId : option Z) (tc : TestCase.t),
    fetchTestCase backend testCaseId = inr (Some tc) ->
    (TestCase.executionStatus tc = "Pass"
     <-> TestCase.state tc = "Done" \/ TestCase.state tc = "Completed")
    /\ (TestCase.executionStatus tc = "Fail"
        <-> TestCase.state tc <> "Done" /\ TestCase.state tc <> "Completed")
    /\ exists wi,
         backend {| workItemId := testCaseId; expandRelations := false |}
         = AxiosResponse (Some wi)
         /\ TestCase.id tc = wi_id wi
         /\ System_WorkItemType (fields_of wi) = Some "Test Case".
Proof.
  intros backend testCaseId tc. unfold fetchTestCase, makeApiRequest, axios_get.
  destruct (backend _) as [message|[wi|]] eqn:Hbackend; cbn [bind try_catch ret throw];
    try discriminate.
  fold (fields_of wi).
  destruct (field_is (System_WorkItemType (fields_of wi)) "Test Case") eqn:Htype;
    cbn [negb]; [|discriminate].
  intros [= <-]. cbn [TestCase.executionStatus TestCase.state TestCase.id].
  rewrite !str_or_field by discriminate.
  set (state := str_or (System_State (fields_of wi)) "").
  assert (Hwi : System_WorkItemType (fields_of wi) = Some "Test Case").
  { unfold field_is in Htype. destruct (System_WorkItemType (fields_of wi)) as [t|];
      [|discriminate]. apply String.eqb_eq in Htype. now subst. }
  refine (conj _ (conj _ (ex_intro _ wi (conj eq_refl (conj eq_refl Hwi))))).
  - destruct (state =? "Done") eqn:E1; [apply String.eqb_eq in E1; cbn; tauto|].
    destruct (state =? "Completed") eqn:E2; [apply String.eqb_eq in E2; cbn; tauto|].
    apply String.eqb_neq in E1, E2. cbn. split; [discriminate|tauto].
  - destruct (state =? "Done") eqn:E1;
      [apply String.eqb_eq in E1; cbn; split; [discriminate|tauto]|].
    destruct (state =? "Completed") eqn:E2;
      [apply String.eqb_eq in E2; cbn; split; [discriminate|tauto]|].
    apply String.eqb_neq in E1, E2. cbn. tauto.
Qed.

(** Test case 502 of the sample backend is in the state Design. *)
Lemma fetchTestCase_execution_status_witness :
  match fetchTestCase sample_backend (Some 502%Z) with
  | inr (Some tc) =>
      TestCase.executionStatus tc = "Fail"
      <-> TestCase.state tc <> "Done" /\ TestCase.state tc <> "Completed"
  | _ => False
  end.
Proof.
  destruct (fetchTestCase sample_backend (Some 502%Z)) as [e|[tc|]] eqn:E.
  - vm_compute in E. discriminate E.
  - exact (proj1 (proj2 (fetchTestCase_execution_status _ _ _ E))).
  - vm_compute in E. discriminate E.
Defined.
